(** * The resilient generation pipeline of dentallypro

    A shallow embedding of [src/services/geminiService.ts] (error
    classification, [withRetry], [withModelFallback], [parseAIResponse],
    the research and image tasks) and of the request handler
    [handleConvert] of [src/App.tsx] with its sequential image loops.

    Conventions of the embedding.
    - A JavaScript string is a [string] of bytes (UTF-8).  Case folding
      is the ASCII one and indices count bytes; white space is that of
      the language (every WhiteSpace and LineTerminator code point),
      recognised by its UTF-8 encoding.
    - A promise that settles is a [Result]: [Resolved v] or [Rejected e].
    - Waiting ([delay], [setTimeout]) and the calls of interest are
      recorded, in order, in a log carried by the state.
    - Milliseconds are rationals: [Math.random()] is a rational of
      [[0, 1)], read from a stream of draws. *)

From Stdlib Require Import Strings.String Strings.Ascii ZArith QArith Lia Lqa Bool.
From Stdlib Require Import Numbers.DecimalString.
From stdpp Require Import base option list strings gmap.
Import ListNotations.

#[local] Open Scope string_scope.
#[local] Open Scope list_scope.

(** ** JavaScript strings *)

Module Js.

(** [c.toLowerCase()] on one ASCII byte. *)
Definition lower_ascii (c : ascii) : ascii :=
  let n := nat_of_ascii c in
  if (65 <=? n)%nat && (n <=? 90)%nat then ascii_of_nat (n + 32) else c.

(** [s.toLowerCase()]. *)
Fixpoint toLowerCase (s : string) : string :=
  match s with
  | EmptyString => EmptyString
  | String c r => String (lower_ascii c) (toLowerCase r)
  end.

(** [hay.startsWith(needle)]. *)
Fixpoint startsWith (hay needle : string) {struct needle} : bool :=
  match needle, hay with
  | EmptyString, _ => true
  | String _ _, EmptyString => false
  | String a n', String b h' => Ascii.eqb a b && startsWith h' n'
  end.

(** [hay.includes(needle)]. *)
Fixpoint includes (hay needle : string) : bool :=
  startsWith hay needle ||
  match hay with
  | EmptyString => false
  | String _ r => includes r needle
  end.

(** The string of the given bytes. *)
Definition utf8 (bytes : list nat) : string :=
  fold_right (fun b s => String (ascii_of_nat b) s) EmptyString bytes.

(** What [String.prototype.trim] removes: the WhiteSpace and
    LineTerminator code points, each as its UTF-8 encoding.
    U+0009 .. U+000D and U+0020; U+00A0; U+1680; U+2000 .. U+200A;
    U+2028, U+2029; U+202F; U+205F; U+3000; U+FEFF. *)
Definition white_space : list string :=
  [ utf8 [9]; utf8 [10]; utf8 [11]; utf8 [12]; utf8 [13]; utf8 [32];
    utf8 [194; 160];
    utf8 [225; 154; 128];
    utf8 [226; 128; 128]; utf8 [226; 128; 129]; utf8 [226; 128; 130];
    utf8 [226; 128; 131]; utf8 [226; 128; 132]; utf8 [226; 128; 133];
    utf8 [226; 128; 134]; utf8 [226; 128; 135]; utf8 [226; 128; 136];
    utf8 [226; 128; 137]; utf8 [226; 128; 138];
    utf8 [226; 128; 168]; utf8 [226; 128; 169];
    utf8 [226; 128; 175];
    utf8 [226; 129; 159];
    utf8 [227; 128; 128];
    utf8 [239; 187; 191] ].

(** The number of bytes of the white space character at the head of
    [s]; [0] when [s] starts with none. *)
Definition space_at (s : string) : nat :=
  match List.find (fun ws => startsWith s ws) white_space with
  | Some ws => String.length ws
  | None => 0
  end.

(** [s.trimStart()], scanning left to right; [skip] is the number of
    bytes of the current white space character still to drop. *)
Fixpoint trimStart_from (skip : nat) (s : string) : string :=
  match s with
  | EmptyString => EmptyString
  | String c r =>
      match skip with
      | S k => trimStart_from k r
      | O =>
          match space_at s with
          | O => s
          | S k => trimStart_from k r
          end
      end
  end.

Definition trimStart (s : string) : string := trimStart_from 0 s.

(** [s.trimEnd()]: the text is cut where only white space follows.
    From inside a character of several bytes no white space starts, as
    no encoding of white space begins with a continuation byte. *)
Fixpoint trimEnd (s : string) : string :=
  match s with
  | EmptyString => EmptyString
  | String c r =>
      if String.eqb (trimStart s) EmptyString then EmptyString
      else String c (trimEnd r)
  end.

(** [s.trim()]. *)
Definition trim (s : string) : string := trimEnd (trimStart s).

(** [s.indexOf(c)] for a one-character needle; [-1] when absent. *)
Fixpoint indexOf (s : string) (c : ascii) : Z :=
  match s with
  | EmptyString => (-1)%Z
  | String a r =>
      if Ascii.eqb a c then 0%Z
      else let k := indexOf r c in
           if (k =? -1)%Z then (-1)%Z else (k + 1)%Z
  end.

(** [s.lastIndexOf(c)] for a one-character needle; [-1] when absent. *)
Fixpoint lastIndexOf (s : string) (c : ascii) : Z :=
  match s with
  | EmptyString => (-1)%Z
  | String a r =>
      let k := lastIndexOf r c in
      if (k =? -1)%Z then (if Ascii.eqb a c then 0%Z else (-1)%Z)
      else (k + 1)%Z
  end.

Fixpoint drop (n : nat) (s : string) : string :=
  match n, s with
  | O, _ => s
  | S _, EmptyString => EmptyString
  | S n', String _ r => drop n' r
  end.

Fixpoint take (n : nat) (s : string) : string :=
  match n, s with
  | O, _ => EmptyString
  | S _, EmptyString => EmptyString
  | S n', String c r => String c (take n' r)
  end.

(** [s.substring(a, b)]: both ends are clamped to [0 .. length] and
    swapped when [a > b]. *)
Definition substring (s : string) (a b : Z) : string :=
  let len := Z.of_nat (String.length s) in
  let clamp x := Z.max 0 (Z.min x len) in
  let lo := Z.min (clamp a) (clamp b) in
  let hi := Z.max (clamp a) (clamp b) in
  take (Z.to_nat (hi - lo)) (drop (Z.to_nat lo) s).

(** A value of unknown type read off an object: a number, a string, or
    nothing. *)
Inductive value : Type :=
| Undefined
| Num (n : Z)
| Str (s : string).

Definition truthy (v : value) : bool :=
  match v with
  | Undefined => false
  | Num n => negb (n =? 0)%Z
  | Str s => negb (String.eqb s "")
  end.

(** [a || b]. *)
Definition or (a b : value) : value := if truthy a then a else b.

(** [v === n] for a number literal [n]. *)
Definition is_num (v : value) (n : Z) : bool :=
  match v with
  | Num m => (m =? n)%Z
  | _ => false
  end.

(** [s || t] on optional strings: the empty string is falsy. *)
Definition nonempty (s : option string) : option string :=
  match s with
  | Some t => if String.eqb t "" then None else Some t
  | None => None
  end.

End Js.

(** ** Errors and settled promises *)

(** The object at [error.error], as the backend's JSON error body has it. *)
Record InnerError : Type := mkInner {
  inner_message : option string;
  inner_code : Js.value
}.

(** An object that was thrown.  [err_json] is what [JSON.stringify]
    returns for it and [err_toString] what its [toString()] returns. *)
Record ErrorObject : Type := mkErrorObject {
  err_message : option string;
  err_status : Js.value;
  err_code : Js.value;
  err_error : option InnerError;
  err_json : string;
  err_toString : string
}.

(** What a [catch (error: any)] can receive. *)
Inductive JsError : Type :=
| ErrUndefined
| ErrString (s : string)
| ErrObject (o : ErrorObject).

(** [new Error(msg)]: a message, no status, no code; its own enumerable
    properties are none, so it serialises to an empty object. *)
Definition new_Error (msg : string) : JsError :=
  ErrObject (mkErrorObject (Some msg) Js.Undefined Js.Undefined None "{}"
               (if String.eqb msg "" then "Error" else "Error: " +:+ msg)).

(** The [TypeError] of a property read or method call on [undefined]. *)
Definition TypeError_undefined : JsError :=
  new_Error "Cannot read properties of undefined".

Inductive Result (A : Type) : Type :=
| Resolved (a : A)
| Rejected (e : JsError).
Arguments Resolved {A} a.
Arguments Rejected {A} e.

(** [error?.message] *)
Definition message_of (error : JsError) : option string :=
  match error with
  | ErrObject o => err_message o
  | _ => None
  end.

(** [error?.error?.message] *)
Definition inner_message_of (error : JsError) : option string :=
  match error with
  | ErrObject o => from_option inner_message None (err_error o)
  | _ => None
  end.

(** [error?.status || error?.code || error?.error?.code] *)
Definition status_of (error : JsError) : Js.value :=
  match error with
  | ErrObject o =>
      Js.or (err_status o)
        (Js.or (err_code o) (from_option inner_code Js.Undefined (err_error o)))
  | _ => Js.Undefined
  end.

(** The text [isRetryableError] lower-cases:
    [error?.message || error?.error?.message ||
     (typeof error === 'string' ? error : JSON.stringify(error))].
    [None] stands for [undefined] ([JSON.stringify(undefined)]). *)
Definition error_text (error : JsError) : option string :=
  match Js.nonempty (message_of error) with
  | Some m => Some m
  | None =>
      match Js.nonempty (inner_message_of error) with
      | Some m => Some m
      | None =>
          match error with
          | ErrString s => Some s
          | ErrObject o => Some (err_json o)
          | ErrUndefined => None
          end
      end
  end.

(** The first test of [isRetryableError]: the 429 / quota family. *)
Definition quota_test (status : Js.value) (msg : string) : bool :=
  Js.is_num status 429 || Js.includes msg "429" || Js.includes msg "quota"
  || Js.includes msg "resource_exhausted".

(** The second test of [isRetryableError]: network and server errors. *)
Definition network_test (status : Js.value) (msg : string) : bool :=
  Js.includes msg "error code: 6" || Js.includes msg "failed to fetch"
  || Js.includes msg "networkerror" || Js.is_num status 503
  || Js.is_num status 504.

(** [isRetryableError(error, retryOnQuota)].  The call itself throws when
    the text is [undefined]. *)
Definition isRetryableError (error : JsError) (retryOnQuota : bool) : Result bool :=
  match error_text error with
  | None => Rejected TypeError_undefined
  | Some text =>
      let msg := Js.toLowerCase text in
      let status := status_of error in
      if quota_test status msg then Resolved retryOnQuota
      else if network_test status msg then Resolved true
      else Resolved false
  end.

(** The three classes of the retry policy, read off [isRetryableError]. *)
Inductive ErrorKind : Type := RateLimited | Transient | Fatal.

Definition classify (error : JsError) : option ErrorKind :=
  match error_text error with
  | None => None
  | Some text =>
      let msg := Js.toLowerCase text in
      let status := status_of error in
      Some (if quota_test status msg then RateLimited
            else if network_test status msg then Transient
            else Fatal)
  end.

(** ** The effects of the service layer *)

(** What the log records.  [EvGetApiKey], [EvModel] and [EvAttempt] mark
    a read of the credential, a call of the fallback's [operation] and a
    call of the retry's [fn]; [EvDelay] is a completed [delay(ms)]. *)
Inductive Event : Type :=
| EvGetApiKey
| EvModel (model : string)
| EvAttempt (i : nat)
| EvDelay (ms : Q).

(** The state threaded through the service: the log, the number of
    [Math.random()] draws made so far, and the state of the backend. *)
Record World (N : Type) : Type := mkWorld {
  log : list Event;
  draws : nat;
  net : N
}.
Arguments mkWorld {N} log draws net.
Arguments log {N} w.
Arguments draws {N} w.
Arguments net {N} w.

(** An [async] computation over a state [W]: it settles and leaves a
    state. *)
Definition Async (W A : Type) : Type := W -> Result A * W.

Definition ret {W A} (a : A) : Async W A := fun w => (Resolved a, w).

Definition throw {W A} (e : JsError) : Async W A := fun w => (Rejected e, w).

(** A value or an exception computed without effects. *)
Definition settle {W A} (r : Result A) : Async W A := fun w => (r, w).

Definition bind {W A B} (m : Async W A) (k : A -> Async W B) : Async W B :=
  fun w =>
    match m w with
    | (Resolved a, w') => k a w'
    | (Rejected e, w') => (Rejected e, w')
    end.

(** [try { m } catch (e) { h e }] *)
Definition try_catch {W A} (m : Async W A) (h : JsError -> Async W A) : Async W A :=
  fun w =>
    match m w with
    | (Resolved a, w') => (Resolved a, w')
    | (Rejected e, w') => h e w'
    end.

(** [try { m } finally { f }], for an [f] that does not throw. *)
Definition try_finally {W A} (m : Async W A) (f : W -> W) : Async W A :=
  fun w => let (r, w') := m w in (r, f w').

(** The computations of the service. *)
Definition M (N A : Type) : Type := Async (World N) A.

Declare Scope async_scope.
Delimit Scope async_scope with async.
Notation "'let!' x ':=' m 'in' k" := (bind m (fun x => k))
  (at level 10, x name, m at level 200, k at level 200) : async_scope.
Notation "'do!' m 'in' k" := (bind m (fun _ => k))
  (at level 10, m at level 200, k at level 200) : async_scope.
#[local] Open Scope async_scope.

Definition emit {N} (ev : Event) : M N unit :=
  fun w => (Resolved tt, mkWorld (log w ++ [ev]) (draws w) (net w)).

(** [delay(ms)] *)
Definition delay {N} (ms : Q) : M N unit := emit (EvDelay ms).

(** A computation that only talks to the backend. *)
Definition lift_net {N A} (f : N -> Result A * N) : M N A :=
  fun w =>
    let (r, n') := f (net w) in
    (r, mkWorld (log w) (draws w) n').

Definition pow2 (i : nat) : Q := inject_Z (2 ^ Z.of_nat i).

(** The inline quota test of [withRetry], which picks the base delay. *)
Definition retry_isQuota (error : JsError) : bool :=
  let msg := Js.toLowerCase (from_option id "" (Js.nonempty (message_of error))) in
  Js.includes msg "quota" || Js.includes msg "429"
  || Js.includes msg "resource_exhausted"
  || match error with
     | ErrObject o => Js.is_num (err_status o) 429
     | _ => false
     end.

(** The inline quota test of [withModelFallback], which picks the
    cooldown before the next model. *)
Definition fallback_isQuota (error : JsError) : bool :=
  match message_of error with
  | Some m => Js.includes m "429" || Js.includes (Js.toLowerCase m) "quota"
  | None => false
  end.

(** [models.indexOf(model)] *)
Fixpoint indexOf (models : list string) (model : string) : Z :=
  match models with
  | [] => (-1)%Z
  | m :: rest =>
      if String.eqb m model then 0%Z
      else let k := indexOf rest model in
           if (k =? -1)%Z then (-1)%Z else (k + 1)%Z
  end.

(** The message of the error thrown when the credential is missing. *)
Definition missing_key_message : string :=
  "مفتاح API مفقود! تأكد من إعدادات البيئة (Environment Variables).".

Section Orchestration.

Context {N : Type}.

(** The stream behind [Math.random()]. *)
Variable random : nat -> Q.

(** [process.env.API_KEY] *)
Variable API_KEY : option string.

Definition Math_random : M N Q :=
  fun w => (Resolved (random (draws w)), mkWorld (log w) (S (draws w)) (net w)).

Definition getApiKey : M N (option string) :=
  do! emit EvGetApiKey in ret API_KEY.

(** The test [!apiKey || apiKey === "undefined" || apiKey.trim() === ""]:
    the usable key, if there is one. *)
Definition usable_key (apiKey : option string) : option string :=
  match apiKey with
  | None => None
  | Some k =>
      if String.eqb k "" || String.eqb k "undefined"
         || String.eqb (Js.trim k) ""
      then None else Some k
  end.

Section WithRetry.

Context {T : Type}.
Variable fn : nat -> M N T.
Variable retries : nat.
Variable retryOnQuota : bool.

(** The [for] loop of [withRetry] from index [i], with [fuel]
    iterations left ([fuel = retries - i]). *)
Fixpoint withRetry_loop (fuel i : nat) (lastError : JsError) : M N T :=
  match fuel with
  | O => throw lastError
  | S fuel' =>
      try_catch (do! emit (EvAttempt i) in fn i)
        (fun error =>
           let! retryable := settle (isRetryableError error retryOnQuota) in
           if negb retryable then throw error
           else
             let isQuota := retry_isQuota error in
             if (Z.of_nat i <? Z.of_nat retries - 1)%Z then
               let baseDelay := (if isQuota then 8000 else 2000)%Q in
               let! r := Math_random in
               let waitTime := (baseDelay * pow2 i + r * 1000)%Q in
               do! delay waitTime in
               withRetry_loop fuel' (S i) error
             else throw error)
  end.

Definition withRetry : M N T := withRetry_loop retries 0 ErrUndefined.

End WithRetry.

Section WithModelFallback.

Context {T : Type}.
Variable operation : string -> string -> M N T.
Variable models : list string.

(** The [for (const model of models)] loop over the models still to
    be tried. *)
Fixpoint fallback_loop (apiKey : string) (rest : list string)
    (lastError : JsError) : M N T :=
  match rest with
  | [] => throw lastError
  | model :: rest' =>
      try_catch (do! emit (EvModel model) in operation model apiKey)
        (fun error =>
           match error with
           | ErrUndefined => throw TypeError_undefined
           | _ =>
               let isQuota := fallback_isQuota error in
               if (indexOf models model <? Z.of_nat (length models) - 1)%Z then
                 do! (if isQuota then delay 8000%Q else delay 1000%Q) in
                 fallback_loop apiKey rest' error
               else fallback_loop apiKey rest' error
           end)
  end.

Definition withModelFallback : M N T :=
  let! apiKey := getApiKey in
  match usable_key apiKey with
  | None => throw (new_Error missing_key_message)
  | Some k => fallback_loop k models ErrUndefined
  end.

End WithModelFallback.

End Orchestration.

(** ** Parsing the backend's text *)

(** Parsed JSON.  An object lists each key once, as [JSON.parse] builds
    it. *)
#[warnings="-register-all"] Inductive Json : Type :=
| JNull
| JBool (b : bool)
| JNumber (n : Z)
| JString (s : string)
| JArray (items : list Json)
| JObject (fields : list (string * Json)).

Definition LF : string := String (ascii_of_nat 10) EmptyString.

Definition fence : string := "```".
Definition fence_json : string := "```json".

(** The length of the match of [/```json\n?|```/] at the head of [s];
    [0] when there is none. *)
Definition fence_at (s : string) : nat :=
  if Js.startsWith s (fence_json +:+ LF) then 8
  else if Js.startsWith s fence_json then 7
  else if Js.startsWith s fence then 3
  else 0.

(** The global replace, scanning left to right; [skip] is the number of
    characters of the current match still to drop. *)
Fixpoint strip_fences_from (skip : nat) (s : string) : string :=
  match s with
  | EmptyString => EmptyString
  | String c r =>
      match skip with
      | S k => strip_fences_from k r
      | O =>
          match fence_at s with
          | O => String c (strip_fences_from 0 r)
          | S k => strip_fences_from k r
          end
      end
  end.

(** [text.replace(/```json\n?|```/g, '')] *)
Definition strip_fences (text : string) : string := strip_fences_from 0 text.

(** The text [parseAIResponse] hands to [JSON.parse]. *)
Definition json_slice (text : string) : string :=
  let cleanText := Js.trim (strip_fences text) in
  let firstBracket := Js.indexOf cleanText "{" in
  let lastBracket := Js.lastIndexOf cleanText "}" in
  if negb (firstBracket =? -1)%Z && negb (lastBracket =? -1)%Z
  then Js.substring cleanText firstBracket (lastBracket + 1)
  else cleanText.

Definition empty_response_message : string := "استجابة فارغة من المحرك.".
Definition parse_failure_message : string :=
  "فشل في قراءة بيانات JSON من الاستجابة.".

Section Parsing.

(** [JSON.parse]: [None] when it throws. *)
Variable JSON_parse : string -> option Json.

Definition parseAIResponse (text : option string) : Result Json :=
  match Js.nonempty text with
  | None => Rejected (new_Error empty_response_message)
  | Some t =>
      match JSON_parse (json_slice t) with
      | Some v => Resolved v
      | None => Rejected (new_Error parse_failure_message)
      end
  end.

End Parsing.

(** ** The backend and the tasks built on it *)

Record GroundingChunk : Type := mkChunk {
  web : option (string * string)
}.

(** One content part of a response: [inlineData.data] when it carries an
    image. *)
Record Part : Type := mkPart {
  inlineData : option string
}.

(** What the tasks read of a response: [response.text],
    [candidates?.[0]?.groundingMetadata?.groundingChunks] and
    [candidates?.[0]?.content?.parts]. *)
Record Response : Type := mkResponse {
  text : option string;
  groundingChunks : option (list GroundingChunk);
  parts : option (list Part)
}.

Inductive RequestConfig : Type :=
| JsonConfig (systemInstruction : string)
| SearchConfig
| ImageConfig (aspectRatio : string) (imageSize : option string).

Record Request : Type := mkRequest {
  req_apiKey : string;
  req_model : string;
  req_text : string;
  req_config : RequestConfig
}.

Inductive ImageType : Type := CLINICAL | RADIOLOGY | EXPLODED.

Record ResearchResult : Type := mkResearch {
  sources : list GroundingChunk;
  prompts : list Json
}.

Definition default_models : list string :=
  ["gemini-2.5-flash"; "gemini-3-flash-preview"].

Definition modelsToTry : list string :=
  ["gemini-2.5-flash-image"; "gemini-3-pro-image-preview"].

(** [json.key] on a parsed object. *)
Fixpoint field (key : string) (fields : list (string * Json)) : option Json :=
  match fields with
  | [] => None
  | (k, v) :: rest => if String.eqb k key then Some v else field key rest
  end.

Definition quote : string := String (ascii_of_nat 34) EmptyString.

Definition research_schema : string :=
  LF +:+ "      OUTPUT: JSON Object." +:+ LF +:+ "      Structure: {" +:+ LF
  +:+ "        " +:+ quote +:+ "imagePrompts" +:+ quote +:+ ": ["
  +:+ quote +:+ "string" +:+ quote +:+ ", " +:+ quote +:+ "string" +:+ quote
  +:+ ", " +:+ quote +:+ "string" +:+ quote +:+ "]," +:+ LF
  +:+ "        " +:+ quote +:+ "searchQueries" +:+ quote +:+ ": ["
  +:+ quote +:+ "string" +:+ quote +:+ "]" +:+ LF +:+ "      }".

(** The three prompts of the [catch] branch of [generateResearchContent]. *)
Definition synthesized_prompts (topic : string) : list Json :=
  [ JString ("Dental clinical view of " +:+ topic);
    JString ("Anatomical diagram of " +:+ topic);
    JString ("X-ray of " +:+ topic) ].

(** The request of the research task. *)
Definition research_request (topic modelName apiKey : string) : Request :=
  mkRequest apiKey modelName
    ("Topic: " +:+ quote +:+ topic +:+ quote
     +:+ ". Create 3 distinct medical image prompts and use Google Search."
     +:+ LF +:+ LF +:+ research_schema)
    SearchConfig.

Section Tasks.

Context {N : Type}.
Variable random : nat -> Q.
Variable API_KEY : option string.
Variable JSON_parse : string -> option Json.

(** [ai.models.generateContent(request)] *)
Variable generateContent : Request -> N -> Result Response * N.

(** The [try]/[catch] of [generateResearchContent] that reads the
    prompts off the response text. *)
Definition research_prompts (topic : string) (response_text : option string)
    : list Json :=
  match parseAIResponse JSON_parse response_text with
  | Resolved JNull => synthesized_prompts topic
  | Resolved (JObject fields) =>
      match field "imagePrompts" fields with
      | Some (JArray items) => items
      | _ => []
      end
  | Resolved _ => []
  | Rejected _ => synthesized_prompts topic
  end.

(** [while (prompts.length < 3) prompts.push(...)] *)
Definition pad_prompts (topic : string) (ps : list Json) : list Json :=
  ps ++ replicate (3 - length ps) (JString ("Dental clinical view of " +:+ topic)).

Definition research_attempt (topic modelName apiKey : string) : M N ResearchResult :=
  let! response := lift_net (generateContent (research_request topic modelName apiKey)) in
  let sources := from_option id [] (groundingChunks response) in
  let prompts := pad_prompts topic (research_prompts topic (text response)) in
  ret (mkResearch sources (take 3 prompts)).

Definition generateResearchContent (topic : string) : M N ResearchResult :=
  withModelFallback API_KEY
    (fun modelName apiKey =>
       withRetry random (fun _ => research_attempt topic modelName apiKey) 3 true)
    default_models.

(** The first part that carries inline data. *)
Definition first_inline (ps : list Part) : option string :=
  list_find (fun p => is_Some (inlineData p)) ps ≫= (fun ip => inlineData ip.2).

Definition image_attempt (prompt : string) (type : ImageType)
    (modelName apiKey : string) : M N string :=
  let finalPrompt :=
    match type with
    | EXPLODED =>
        "Clean 3D medical illustration, exploded view, dental anatomy: "
        +:+ prompt +:+ ". White background"
    | RADIOLOGY => "Digital Dental X-Ray: " +:+ prompt +:+ ". Diagnostic grayscale"
    | CLINICAL =>
        "Dental education visual aid: " +:+ prompt
        +:+ ". High quality, photorealistic, clinical standard."
    end in
  let imageSize := if Js.includes modelName "pro-image" then Some "1K" else None in
  let! response :=
    lift_net (generateContent
      (mkRequest apiKey modelName finalPrompt (ImageConfig "16:9" imageSize))) in
  match first_inline (from_option id [] (parts response)) with
  | Some data => ret ("data:image/png;base64," +:+ data)
  | None => throw (new_Error "No image data found in response")
  end.

(** [generateRealisticDentalImage]: [None] is the [null] of the
    [catch]. *)
Definition generateRealisticDentalImage (prompt : string) (type : ImageType)
    : M N (option string) :=
  try_catch
    (let! url :=
       withModelFallback API_KEY
         (fun modelName apiKey =>
            withRetry random (fun _ => image_attempt prompt type modelName apiKey) 2 true)
         modelsToTry in
     ret (Some url))
    (fun _ => ret None).

End Tasks.


(** ** The component state of [App.tsx] *)

Module App.

Inductive Tab : Type := simulation | practical | gallery | quiz.

Inductive ImageStatus : Type := Pending | Loading | Completed | Failed.

Inductive Language : Type := ar | en.

Inductive Difficulty : Type := Easy | Medium | Hard | Intellectual.

(** A step of the practical protocol as it arrives from JSON and is
    then extended: every property may be missing. *)
Record PracticalStep : Type := mkStep {
  step_id : option string;
  title : option string;
  originalText : option string;
  medicalTranslation : option string;
  professorComment : option string;
  memoryAid : option string;
  visualPrompt : option string;
  imageUrl : option string;
  imageStatus : option ImageStatus
}.

(** [{...undefined}] *)
Definition empty_step : PracticalStep :=
  mkStep None None None None None None None None None.

(** The analysis as it arrives: the parsed JSON is cast unchecked and
    the response schema does not require [adaCompliance], so the record
    of compliance may be missing. *)
Record ImageAnalysisResult : Type := mkAnalysis {
  isHighQuality : bool;
  detailedClinicalAnalysis : option string;
  adaCompliance : option (bool * string)
}.

(** [ClinicalData].  An array of steps is a list whose [None] entries
    are its holes and [null]s. *)
Record ClinicalData : Type := mkClinical {
  theorySummary : option string;
  practicalProtocol : option (list (option PracticalStep));
  imagePrompt : option string;
  radiologyPrompt : option string;
  explodedPrompt : option string;
  analysisResult : option ImageAnalysisResult
}.

Record SimulationData : Type := mkSimulation {
  data : option ClinicalData;
  url : option string;
  radiologyUrl : option string;
  explodedUrl : option string
}.

Record QuizData : Type := mkQuiz {
  essayQuestions : list Json;
  shortAnswerQuestions : list Json;
  mcqQuestions : list Json
}.

(** [result.data] of the quiz task before the arrays are defaulted. *)
Record RawQuizData : Type := mkRawQuiz {
  raw_essayQuestions : option (list Json);
  raw_shortAnswerQuestions : option (list Json);
  raw_mcqQuestions : option (list Json)
}.

Record GalleryItem : Type := mkItem {
  item_id : nat;
  prompt : string;
  item_imageUrl : option string;
  status : ImageStatus;
  source : option GroundingChunk
}.

(** The result of the research task as the handler types it. *)
Record ResearchContent : Type := mkContent {
  content_sources : list GroundingChunk;
  content_prompts : list string
}.

(** The fixed texts of the chat log, by their role in the handler. *)
Inductive MessageContent : Type :=
| UserText (userMessage : string)
| AnalyseImagePlaceholder
| NewRequestPlaceholder
| ConsultantReport (analysis : option string) (compliant : bool)
| SimulationCreated (userMessage : string)
| MentorSummoned (userMessage : string)
| VisualSearchStarted (userMessage : string)
| QuizBankCreated (count : Z) (userMessage : string) (language : Language)
    (difficulty : Difficulty).

Inductive Role : Type := user | assistant.

Record ChatMessage : Type := mkMessage {
  role : Role;
  content : MessageContent;
  visual : option string
}.

(** The texts [setErrorStatus] receives, by their role; [GenericError]
    carries the first hundred characters of the message. *)
Inductive StatusMessage : Type :=
| StoppedKeyMissing
| UseCaseViewForImages
| TryAgainShortly
| KeyMissingCheckEnv
| GenericError (detail : string).

(** The state of the component that [handleConvert] reads or writes. *)
Record AppState : Type := mkAppState {
  input : string;
  messages : list ChatMessage;
  activeTab : Tab;
  errorStatus : option StatusMessage;
  checkedPracticalSteps : list string;
  uploadedImage : option string;
  apiKeyMissing : bool;
  simulationData : SimulationData;
  practicalData : option ClinicalData;
  quizData : option QuizData;
  revealedAnswers : gmap string bool;
  quizLanguage : Language;
  quizCount : Z;
  quizDifficulty : Difficulty;
  galleryItems : list GalleryItem;
  loading : bool
}.

(** The state setters, as functional updates of the record. *)
Definition updateInput (f : string -> string) (s : AppState)
    : AppState :=
  mkAppState (f (input s)) (messages s) (activeTab s) (errorStatus s)
    (checkedPracticalSteps s) (uploadedImage s) (apiKeyMissing s)
    (simulationData s) (practicalData s) (quizData s) (revealedAnswers s)
    (quizLanguage s) (quizCount s) (quizDifficulty s) (galleryItems s)
    (loading s).
Definition setInput (v : string) : AppState -> AppState :=
  updateInput (fun _ => v).

Definition updateMessages (f : list ChatMessage -> list ChatMessage) (s : AppState)
    : AppState :=
  mkAppState (input s) (f (messages s)) (activeTab s) (errorStatus s)
    (checkedPracticalSteps s) (uploadedImage s) (apiKeyMissing s)
    (simulationData s) (practicalData s) (quizData s) (revealedAnswers s)
    (quizLanguage s) (quizCount s) (quizDifficulty s) (galleryItems s)
    (loading s).
Definition setMessages (v : list ChatMessage) : AppState -> AppState :=
  updateMessages (fun _ => v).

Definition updateErrorStatus (f : option StatusMessage -> option StatusMessage) (s : AppState)
    : AppState :=
  mkAppState (input s) (messages s) (activeTab s) (f (errorStatus s))
    (checkedPracticalSteps s) (uploadedImage s) (apiKeyMissing s)
    (simulationData s) (practicalData s) (quizData s) (revealedAnswers s)
    (quizLanguage s) (quizCount s) (quizDifficulty s) (galleryItems s)
    (loading s).
Definition setErrorStatus (v : option StatusMessage) : AppState -> AppState :=
  updateErrorStatus (fun _ => v).

Definition updateCheckedPracticalSteps (f : list string -> list string) (s : AppState)
    : AppState :=
  mkAppState (input s) (messages s) (activeTab s) (errorStatus s) (f
    (checkedPracticalSteps s)) (uploadedImage s) (apiKeyMissing s)
    (simulationData s) (practicalData s) (quizData s) (revealedAnswers s)
    (quizLanguage s) (quizCount s) (quizDifficulty s) (galleryItems s)
    (loading s).
Definition setCheckedPracticalSteps (v : list string) : AppState -> AppState :=
  updateCheckedPracticalSteps (fun _ => v).

Definition updateUploadedImage (f : option string -> option string) (s : AppState)
    : AppState :=
  mkAppState (input s) (messages s) (activeTab s) (errorStatus s)
    (checkedPracticalSteps s) (f (uploadedImage s)) (apiKeyMissing s)
    (simulationData s) (practicalData s) (quizData s) (revealedAnswers s)
    (quizLanguage s) (quizCount s) (quizDifficulty s) (galleryItems s)
    (loading s).
Definition setUploadedImage (v : option string) : AppState -> AppState :=
  updateUploadedImage (fun _ => v).

Definition updateApiKeyMissing (f : bool -> bool) (s : AppState)
    : AppState :=
  mkAppState (input s) (messages s) (activeTab s) (errorStatus s)
    (checkedPracticalSteps s) (uploadedImage s) (f (apiKeyMissing s))
    (simulationData s) (practicalData s) (quizData s) (revealedAnswers s)
    (quizLanguage s) (quizCount s) (quizDifficulty s) (galleryItems s)
    (loading s).
Definition setApiKeyMissing (v : bool) : AppState -> AppState :=
  updateApiKeyMissing (fun _ => v).

Definition updateSimulationData (f : SimulationData -> SimulationData) (s : AppState)
    : AppState :=
  mkAppState (input s) (messages s) (activeTab s) (errorStatus s)
    (checkedPracticalSteps s) (uploadedImage s) (apiKeyMissing s) (f
    (simulationData s)) (practicalData s) (quizData s) (revealedAnswers s)
    (quizLanguage s) (quizCount s) (quizDifficulty s) (galleryItems s)
    (loading s).
Definition setSimulationData (v : SimulationData) : AppState -> AppState :=
  updateSimulationData (fun _ => v).

Definition updatePracticalData (f : option ClinicalData -> option ClinicalData) (s : AppState)
    : AppState :=
  mkAppState (input s) (messages s) (activeTab s) (errorStatus s)
    (checkedPracticalSteps s) (uploadedImage s) (apiKeyMissing s)
    (simulationData s) (f (practicalData s)) (quizData s) (revealedAnswers
    s) (quizLanguage s) (quizCount s) (quizDifficulty s) (galleryItems s)
    (loading s).
Definition setPracticalData (v : option ClinicalData) : AppState -> AppState :=
  updatePracticalData (fun _ => v).

Definition updateQuizData (f : option QuizData -> option QuizData) (s : AppState)
    : AppState :=
  mkAppState (input s) (messages s) (activeTab s) (errorStatus s)
    (checkedPracticalSteps s) (uploadedImage s) (apiKeyMissing s)
    (simulationData s) (practicalData s) (f (quizData s)) (revealedAnswers
    s) (quizLanguage s) (quizCount s) (quizDifficulty s) (galleryItems s)
    (loading s).
Definition setQuizData (v : option QuizData) : AppState -> AppState :=
  updateQuizData (fun _ => v).

Definition updateRevealedAnswers (f : gmap string bool -> gmap string bool) (s : AppState)
    : AppState :=
  mkAppState (input s) (messages s) (activeTab s) (errorStatus s)
    (checkedPracticalSteps s) (uploadedImage s) (apiKeyMissing s)
    (simulationData s) (practicalData s) (quizData s) (f (revealedAnswers
    s)) (quizLanguage s) (quizCount s) (quizDifficulty s) (galleryItems s)
    (loading s).
Definition setRevealedAnswers (v : gmap string bool) : AppState -> AppState :=
  updateRevealedAnswers (fun _ => v).

Definition updateGalleryItems (f : list GalleryItem -> list GalleryItem) (s : AppState)
    : AppState :=
  mkAppState (input s) (messages s) (activeTab s) (errorStatus s)
    (checkedPracticalSteps s) (uploadedImage s) (apiKeyMissing s)
    (simulationData s) (practicalData s) (quizData s) (revealedAnswers s)
    (quizLanguage s) (quizCount s) (quizDifficulty s) (f (galleryItems s))
    (loading s).
Definition setGalleryItems (v : list GalleryItem) : AppState -> AppState :=
  updateGalleryItems (fun _ => v).

Definition updateLoading (f : bool -> bool) (s : AppState)
    : AppState :=
  mkAppState (input s) (messages s) (activeTab s) (errorStatus s)
    (checkedPracticalSteps s) (uploadedImage s) (apiKeyMissing s)
    (simulationData s) (practicalData s) (quizData s) (revealedAnswers s)
    (quizLanguage s) (quizCount s) (quizDifficulty s) (galleryItems s) (f
    (loading s)).
Definition setLoading (v : bool) : AppState -> AppState :=
  updateLoading (fun _ => v).

(** What the log of the handler records: the start of an image
    sub-request, how it settled, the write of an item's outcome, the
    write of a simulation image, a completed [setTimeout] wait, and the
    loss of the component when a state updater throws while React
    renders. *)
Inductive ImageKey : Type := key_url | key_radiologyUrl | key_explodedUrl.

Inductive AppEvent : Type :=
| Requested (p : string) (type : ImageType)
| Settled (outcome : Result (option string))
| Recorded (i : nat) (st : ImageStatus)
| Stored (key : ImageKey)
| Cooldown (ms : Z)
| Unmounted.

(** The service as the handler sees it: each call settles and moves the
    state [B] of everything behind it. *)
Class Service (B : Type) : Type := mkService {
  analyzeDentalImage : string -> B -> Result (option ImageAnalysisResult) * B;
  generateSimulationContent : string -> B -> Result (option ClinicalData) * B;
  generatePracticalContent : string -> B -> Result (option ClinicalData) * B;
  generateQuizContent :
    string -> Language -> Z -> Difficulty -> B -> Result (option RawQuizData) * B;
  generateResearchContent : string -> B -> Result ResearchContent * B;
  generateRealisticDentalImage :
    string -> ImageType -> B -> Result (option string) * B
}.

Record AppWorld (B : Type) : Type := mkAppWorld {
  state : AppState;
  trace : list AppEvent;
  service : B
}.
Arguments mkAppWorld {B} state trace service.
Arguments state {B} _.
Arguments trace {B} _.
Arguments service {B} _.

(** The work a handler leaves running after it returns. *)
Inductive Background : Type :=
| PracticalImages (steps : list PracticalStep)
| GalleryImages (items : list GalleryItem).

(** [img ? ... : ...] for an image that is a string or [null]. *)
Definition produced (img : option string) : bool :=
  match Js.nonempty img with
  | Some _ => true
  | None => false
  end.

(** [a || b] on strings. *)
Definition or_else (a : option string) (b : string) : string :=
  from_option id b (Js.nonempty a).

(** [error?.toString()] *)
Definition error_toString (error : JsError) : option string :=
  match error with
  | ErrUndefined => None
  | ErrString t => Some t
  | ErrObject o => Some (err_toString o)
  end.

Definition with_image (st : PracticalStep) (img : option string)
    (status : ImageStatus) : PracticalStep :=
  mkStep (step_id st) (title st) (originalText st) (medicalTranslation st)
    (professorComment st) (memoryAid st) (visualPrompt st) img (Some status).

Definition with_status (st : PracticalStep) (status : ImageStatus) : PracticalStep :=
  with_image st (imageUrl st) status.

Definition with_protocol (c : ClinicalData) (steps : list (option PracticalStep))
    : ClinicalData :=
  mkClinical (theorySummary c) (Some steps) (imagePrompt c) (radiologyPrompt c)
    (explodedPrompt c) (analysisResult c).

(** [arr[i]], [undefined] for a hole or past the end. *)
Definition element {A} (arr : list (option A)) (i : nat) : option A :=
  mjoin (arr !! i).

(** [arr[i] = x] on a copy: past the end the array grows, leaving
    holes. *)
Definition array_set {A} (i : nat) (x : A) (arr : list (option A))
    : list (option A) :=
  if (i <? length arr)%nat then <[i := Some x]> arr
  else arr ++ replicate (i - length arr) None ++ [Some x].

(** The first updater of the practical loop, [pending] to [loading].
    Reading [newSteps[i].imageStatus] of a missing step throws. *)
Definition mark_loading (i : nat) (current : option ClinicalData)
    : Result (option ClinicalData) :=
  match from_option practicalProtocol None current, current with
  | Some steps, Some c =>
      match element steps i with
      | None => Rejected TypeError_undefined
      | Some st =>
          Resolved (Some (with_protocol c
            (match imageStatus st with
             | Some Pending => array_set i (with_status st Loading) steps
             | _ => steps
             end)))
      end
  | _, _ => Resolved current
  end.

(** The updater that writes the outcome of step [i]. *)
Definition step_outcome (i : nat) (img : option string)
    (current : option ClinicalData) : option ClinicalData :=
  match from_option practicalProtocol None current, current with
  | Some steps, Some c =>
      let old := from_option id empty_step (element steps i) in
      Some (with_protocol c
        (array_set i
           (with_image old (Js.nonempty img) (if produced img then Completed else Failed))
           steps))
  | _, _ => current
  end.

(** The updater of the [catch] of the practical loop. *)
Definition step_failed (i : nat) (current : option ClinicalData)
    : option ClinicalData :=
  match from_option practicalProtocol None current, current with
  | Some steps, Some c =>
      let old := from_option id empty_step (element steps i) in
      Some (with_protocol c (array_set i (with_status old Failed) steps))
  | _, _ => current
  end.

(** The updater that writes the outcome of gallery item [i]. *)
Definition item_outcome (i : nat) (img : option string)
    (current : list GalleryItem) : list GalleryItem :=
  match current !! i with
  | Some it =>
      <[i := mkItem (item_id it) (prompt it) (Js.nonempty img)
               (if produced img then Completed else Failed) (source it)]> current
  | None => current
  end.

(** The updater of the [catch] of the gallery loop. *)
Definition item_failed (i : nat) (current : list GalleryItem) : list GalleryItem :=
  match current !! i with
  | Some it =>
      <[i := mkItem (item_id it) (prompt it) (item_imageUrl it) Failed (source it)]>
        current
  | None => current
  end.

(** [protocol.map(s => ({...s, imageStatus: s.visualPrompt ? 'pending' :
    'completed'}))]; reading [s.visualPrompt] of a [null] step throws. *)
Fixpoint initial_steps (protocol : list (option PracticalStep))
    : option (list PracticalStep) :=
  match protocol with
  | [] => Some []
  | None :: _ => None
  | Some st :: rest =>
      let st' := with_status st (if produced (visualPrompt st) then Pending else Completed) in
      match initial_steps rest with
      | Some rest' => Some (st' :: rest')
      | None => None
      end
  end.

(** [result.prompts.map((prompt, i) => ({id: i, prompt, status:
    'loading', source: result.sources[i] || undefined}))] *)
Definition initial_items (result : ResearchContent) : list GalleryItem :=
  imap (fun i p => mkItem i p None Loading (content_sources result !! i))
    (content_prompts result).

Definition store_image (key : ImageKey) (img : string) (prev : SimulationData)
    : SimulationData :=
  match key with
  | key_url => mkSimulation (data prev) (Some img) (radiologyUrl prev) (explodedUrl prev)
  | key_radiologyUrl => mkSimulation (data prev) (url prev) (Some img) (explodedUrl prev)
  | key_explodedUrl => mkSimulation (data prev) (url prev) (radiologyUrl prev) (Some img)
  end.

(** [userMessage || (simulationData.data ? "Dental procedures" :
    "Dentistry")] *)
Definition research_topic (s : AppState) (userMessage : string) : string :=
  match Js.nonempty (Some userMessage) with
  | Some m => m
  | None =>
      match data (simulationData s) with
      | Some _ => "Dental procedures"
      | None => "Dentistry"
      end
  end.

Section Handler.

Context {B : Type} `{Service B}.

Definition modify (f : AppState -> AppState) : Async (AppWorld B) unit :=
  fun w => (Resolved tt, mkAppWorld (f (state w)) (trace w) (service w)).

(** A state update whose updater may throw.  The exception surfaces
    where the update is applied, which here is at once. *)
Definition modify_try (f : AppState -> Result AppState) : Async (AppWorld B) unit :=
  fun w =>
    match f (state w) with
    | Resolved st => (Resolved tt, mkAppWorld st (trace w) (service w))
    | Rejected e => (Rejected e, w)
    end.

Definition record (ev : AppEvent) : Async (AppWorld B) unit :=
  fun w => (Resolved tt, mkAppWorld (state w) (trace w ++ [ev]) (service w)).

(** [await] of a call of the service other than an image sub-request. *)
Definition call {A} (f : B -> Result A * B) : Async (AppWorld B) A :=
  fun w =>
    let (r, s') := f (service w) in
    (r, mkAppWorld (state w) (trace w) s').

(** [await new Promise(r => setTimeout(r, ms))] *)
Definition sleep (ms : Z) : Async (AppWorld B) unit := record (Cooldown ms).

(** [await generateRealisticDentalImage(p, type)] *)
Definition request_image (p : string) (type : ImageType)
    : Async (AppWorld B) (option string) :=
  do! record (Requested p type) in
  fun w =>
    let (r, s') := generateRealisticDentalImage p type (service w) in
    (r, mkAppWorld (state w) (trace w ++ [Settled r]) s').

Definition append_message (m : ChatMessage) : Async (AppWorld B) unit :=
  modify (updateMessages (fun prev => prev ++ [m])).

(** The [for (const req of imageRequests)] loop of the simulation
    branch. *)
Fixpoint simulation_loop (imageRequests : list (string * ImageType * ImageKey))
    : Async (AppWorld B) unit :=
  match imageRequests with
  | [] => ret tt
  | (p, type, key) :: rest =>
      do! try_catch
            (let! img := request_image p type in
             do! (match Js.nonempty img with
                  | Some u =>
                      do! modify (updateSimulationData (store_image key u)) in
                      record (Stored key)
                  | None => ret tt
                  end) in
             sleep 6000)
            (fun _ => ret tt) in
      simulation_loop rest
  end.

(** The detached loop of the practical branch, from index [i]. *)
Fixpoint practical_loop (steps : list PracticalStep) (i : nat)
    : Async (AppWorld B) unit :=
  match steps with
  | [] => ret tt
  | st :: rest =>
      do! (match Js.nonempty (visualPrompt st) with
           | None => ret tt
           | Some p =>
               do! modify_try (fun a =>
                     match mark_loading i (practicalData a) with
                     | Resolved d => Resolved (setPracticalData d a)
                     | Rejected e => Rejected e
                     end) in
               try_catch
                 (let! img := request_image p CLINICAL in
                  do! modify (updatePracticalData (step_outcome i img)) in
                  do! record (Recorded i (if produced img then Completed else Failed)) in
                  if produced img then sleep 6000 else ret tt)
                 (fun _ =>
                    do! modify (updatePracticalData (step_failed i)) in
                    record (Recorded i Failed))
           end) in
      practical_loop rest (S i)
  end.

(** The detached loop of the gallery branch, from index [i]. *)
Fixpoint gallery_loop (items : list GalleryItem) (i : nat)
    : Async (AppWorld B) unit :=
  match items with
  | [] => ret tt
  | it :: rest =>
      do! try_catch
            (let! img := request_image (prompt it) CLINICAL in
             do! modify (updateGalleryItems (item_outcome i img)) in
             do! record (Recorded i (if produced img then Completed else Failed)) in
             if produced img then sleep 6000 else ret tt)
            (fun _ =>
               do! modify (updateGalleryItems (item_failed i)) in
               record (Recorded i Failed)) in
      gallery_loop rest (S i)
  end.

Definition run_background (job : Background) : Async (AppWorld B) unit :=
  match job with
  | PracticalImages steps => practical_loop steps 0
  | GalleryImages items => gallery_loop items 0
  end.

(** The [catch (error: any)] block of [handleConvert]. *)
Definition handle_error (error : JsError) : Async (AppWorld B) (option Background) :=
  let msg :=
    match Js.nonempty (message_of error) with
    | Some m => m
    | None => from_option id "Unknown Error" (Js.nonempty (error_toString error))
    end in
  do! (if Js.includes (Js.toLowerCase msg) "quota" || Js.includes msg "429"
       then modify (setErrorStatus (Some TryAgainShortly))
       else if Js.includes msg "API_KEY"
       then do! modify (setApiKeyMissing true) in
            modify (setErrorStatus (Some KeyMissingCheckEnv))
       else modify (setErrorStatus (Some (GenericError (Js.substring msg 0 100))))) in
  ret None.

(** The [finally] block of [handleConvert]; [tab] is the tab the handler
    was created with. *)
Definition finally_block (tab : Tab) (w : AppWorld B) : AppWorld B :=
  let st :=
    match tab with
    | practical | gallery => state w
    | _ => setLoading false (state w)
    end in
  mkAppWorld (setInput "" st) (trace w) (service w).

Definition simulation_branch (s : AppState) (userMessage : string)
    : Async (AppWorld B) (option Background) :=
  match Js.nonempty (uploadedImage s) with
  | Some image =>
      let! analysis := call (analyzeDentalImage image) in
      match analysis, analysis ≫= adaCompliance with
      | Some found, Some ada =>
          do! append_message
                (mkMessage assistant
                   (ConsultantReport (detailedClinicalAnalysis found) ada.1) None) in
          do! modify (setSimulationData
                (mkSimulation
                   (Some (mkClinical None None None None None (Some found)))
                   (Some image) None None)) in
          do! modify (setUploadedImage None) in
          ret None
      | _, _ =>
          (* The updater of [setMessages] reads
             [analysis.adaCompliance.compliant] when React runs it: with
             the analysis or its compliance missing it throws there, not
             in the handler, and the render that fails takes the
             component and everything queued with it. *)
          do! record Unmounted in
          ret None
      end
  | None =>
      let! result := call (generateSimulationContent userMessage) in
      do! modify (setSimulationData (mkSimulation result None None None)) in
      do! append_message (mkMessage assistant (SimulationCreated userMessage) None) in
      match result with
      | None => throw TypeError_undefined
      | Some d =>
          do! simulation_loop
                [ (or_else (imagePrompt d) userMessage, CLINICAL, key_url);
                  (or_else (radiologyPrompt d) userMessage, RADIOLOGY, key_radiologyUrl);
                  (or_else (explodedPrompt d) userMessage, EXPLODED, key_explodedUrl) ] in
          ret None
      end
  end.

Definition practical_branch (s : AppState) (userMessage : string)
    : Async (AppWorld B) (option Background) :=
  if produced (uploadedImage s) then
    do! modify (setErrorStatus (Some UseCaseViewForImages)) in
    do! modify (setLoading false) in
    ret None
  else
    do! modify (setCheckedPracticalSteps []) in
    let! result := call (generatePracticalContent userMessage) in
    match result with
    | Some d =>
        match from_option initial_steps None (practicalProtocol d) with
        | Some initialSteps =>
            do! modify (setPracticalData
                  (Some (with_protocol d (Some <$> initialSteps)))) in
            do! append_message (mkMessage assistant (MentorSummoned userMessage) None) in
            do! modify (setLoading false) in
            do! modify (setInput "") in
            ret (Some (PracticalImages initialSteps))
        | None => throw TypeError_undefined
        end
    | None => throw TypeError_undefined
    end.

Definition gallery_branch (s : AppState) (userMessage : string)
    : Async (AppWorld B) (option Background) :=
  do! modify (setGalleryItems []) in
  let! result := call (generateResearchContent (research_topic s userMessage)) in
  let initialItems := initial_items result in
  do! modify (setGalleryItems initialItems) in
  do! append_message (mkMessage assistant (VisualSearchStarted userMessage) None) in
  do! modify (setLoading false) in
  do! modify (setInput "") in
  ret (Some (GalleryImages initialItems)).

Definition quiz_branch (s : AppState) (userMessage : string)
    : Async (AppWorld B) (option Background) :=
  do! modify (setQuizData None) in
  do! modify (setRevealedAnswers ∅) in
  let! result :=
    call (generateQuizContent userMessage (quizLanguage s) (quizCount s)
            (quizDifficulty s)) in
  match result with
  | None => throw TypeError_undefined
  | Some rawData =>
      do! modify (setQuizData (Some
            (mkQuiz (from_option id [] (raw_essayQuestions rawData))
                    (from_option id [] (raw_shortAnswerQuestions rawData))
                    (from_option id [] (raw_mcqQuestions rawData))))) in
      do! append_message
            (mkMessage assistant
               (QuizBankCreated (quizCount s) userMessage (quizLanguage s)
                  (quizDifficulty s)) None) in
      do! modify (setInput "") in
      do! modify (setLoading false) in
      ret None
  end.

(** [handleConvert], run on the state [s] its closure captured.  It
    returns the loop it leaves running, if any. *)
Definition handleConvert (s : AppState) : Async (AppWorld B) (option Background) :=
  if apiKeyMissing s then
    do! modify (setErrorStatus (Some StoppedKeyMissing)) in
    ret None
  else if (String.eqb (Js.trim (input s)) "" && negb (produced (uploadedImage s)))
          || loading s
  then ret None
  else
    let userMessage := input s in
    do! modify (setErrorStatus None) in
    do! modify (setLoading true) in
    do! append_message
          (mkMessage user
             (match Js.nonempty (Some userMessage) with
              | Some m => UserText m
              | None =>
                  if produced (uploadedImage s) then AnalyseImagePlaceholder
                  else NewRequestPlaceholder
              end)
             (Js.nonempty (uploadedImage s))) in
    try_finally
      (try_catch
         (match activeTab s with
          | simulation => simulation_branch s userMessage
          | practical => practical_branch s userMessage
          | gallery => gallery_branch s userMessage
          | quiz => quiz_branch s userMessage
          end)
         handle_error)
      (finally_block (activeTab s)).

(** A click in the state the component is in: the handler closes over
    the current state. *)
Definition click : Async (AppWorld B) (option Background) :=
  fun w => handleConvert (state w) w.

End Handler.

End App.

(** ** A fragment of [JSON.parse]

    Objects, arrays, strings without escapes, integers and the three
    literals.  Where [JSON_parse_fragment] returns a value, [JSON.parse]
    returns that value; outside the fragment it returns [None]. *)

Definition is_json_space (c : ascii) : bool :=
  let n := nat_of_ascii c in
  (n =? 32)%nat || (n =? 9)%nat || (n =? 10)%nat || (n =? 13)%nat.

Fixpoint skip_space (s : string) : string :=
  match s with
  | EmptyString => EmptyString
  | String c r => if is_json_space c then skip_space r else s
  end.

(** The characters of a string up to its closing quote, and the rest. *)
Fixpoint string_body (s : string) : option (string * string) :=
  match s with
  | EmptyString => None
  | String c r =>
      if Ascii.eqb c (ascii_of_nat 34) then Some (EmptyString, r)
      else if Ascii.eqb c (ascii_of_nat 92) || (nat_of_ascii c <? 32)%nat then None
      else match string_body r with
           | Some (t, rest) => Some (String c t, rest)
           | None => None
           end
  end.

Definition digit_of (c : ascii) : option Z :=
  let n := nat_of_ascii c in
  if (48 <=? n)%nat && (n <=? 57)%nat then Some (Z.of_nat (n - 48)) else None.

Definition is_digit (c : ascii) : bool :=
  match digit_of c with
  | Some _ => true
  | None => false
  end.

Fixpoint digits (acc : Z) (s : string) : Z * string :=
  match s with
  | EmptyString => (acc, s)
  | String c r =>
      match digit_of c with
      | Some d => digits (10 * acc + d) r
      | None => (acc, s)
      end
  end.

(** An integer without sign: one digit, or a non-zero digit and more. *)
Definition natural (s : string) : option (Z * string) :=
  match s with
  | EmptyString => None
  | String c r =>
      match digit_of c with
      | None => None
      | Some 0%Z => Some (0%Z, r)
      | Some d => Some (digits d r)
      end
  end.

Definition number (s : string) : option (Json * string) :=
  let after (neg : bool) (t : string) :=
    match natural t with
    | Some (n, rest) =>
        match rest with
        | String c _ =>
            if Ascii.eqb c "." || Ascii.eqb c "e" || Ascii.eqb c "E" || is_digit c
            then None
            else Some (JNumber (if neg then - n else n)%Z, rest)
        | EmptyString => Some (JNumber (if neg then - n else n)%Z, rest)
        end
    | None => None
    end in
  match s with
  | String "-" r => after true r
  | _ => after false s
  end.

Fixpoint set_field (key : string) (v : Json) (fields : list (string * Json))
    : list (string * Json) :=
  match fields with
  | [] => [(key, v)]
  | (k, old) :: rest =>
      if String.eqb k key then (k, v) :: rest else (k, old) :: set_field key v rest
  end.

Fixpoint parse_value (fuel : nat) (s : string) : option (Json * string) :=
  match fuel with
  | O => None
  | S f =>
      match skip_space s with
      | EmptyString => None
      | String c r =>
          if Ascii.eqb c "{" then
            match skip_space r with
            | String "}" r' => Some (JObject [], r')
            | _ => parse_members f r []
            end
          else if Ascii.eqb c "[" then
            match skip_space r with
            | String "]" r' => Some (JArray [], r')
            | _ => parse_elements f r []
            end
          else if Ascii.eqb c (ascii_of_nat 34) then
            match string_body r with
            | Some (t, r') => Some (JString t, r')
            | None => None
            end
          else if Js.startsWith (String c r) "true" then Some (JBool true, Js.drop 4 (String c r))
          else if Js.startsWith (String c r) "false" then Some (JBool false, Js.drop 5 (String c r))
          else if Js.startsWith (String c r) "null" then Some (JNull, Js.drop 4 (String c r))
          else number (String c r)
      end
  end
with parse_elements (fuel : nat) (s : string) (acc : list Json)
    : option (Json * string) :=
  match fuel with
  | O => None
  | S f =>
      match parse_value f s with
      | Some (v, r) =>
          match skip_space r with
          | String "," r' => parse_elements f r' (acc ++ [v])
          | String "]" r' => Some (JArray (acc ++ [v]), r')
          | _ => None
          end
      | None => None
      end
  end
with parse_members (fuel : nat) (s : string) (acc : list (string * Json))
    : option (Json * string) :=
  match fuel with
  | O => None
  | S f =>
      match skip_space s with
      | String c r =>
          if Ascii.eqb c (ascii_of_nat 34) then
            match string_body r with
            | Some (key, r1) =>
                match skip_space r1 with
                | String ":" r2 =>
                    match parse_value f r2 with
                    | Some (v, r3) =>
                        match skip_space r3 with
                        | String "," r4 => parse_members f r4 (set_field key v acc)
                        | String "}" r4 => Some (JObject (set_field key v acc), r4)
                        | _ => None
                        end
                    | None => None
                    end
                | _ => None
                end
            | None => None
            end
          else None
      | EmptyString => None
      end
  end.

Definition JSON_parse_fragment (s : string) : option Json :=
  match parse_value (2 * String.length s + 2) s with
  | Some (v, rest) =>
      match skip_space rest with
      | EmptyString => Some v
      | _ => None
      end
  | None => None
  end.

(** ** Predicates used to state the properties *)

(** Every character of [s] satisfies [P]. *)
Fixpoint all_chars (P : ascii -> bool) (s : string) : bool :=
  match s with
  | EmptyString => true
  | String c r => P c && all_chars P r
  end.

Definition is_brace (c : ascii) : bool := Ascii.eqb c "{" || Ascii.eqb c "}".

(** [s] holds neither brace. *)
Definition brace_free (s : string) : bool := all_chars (fun c => negb (is_brace c)) s.

(** The strings of [chars], one after the other. *)
Definition join (chars : list string) : string :=
  fold_right String.append EmptyString chars.

(** [s] is made of white space characters only (possibly none). *)
Definition all_space (s : string) : Prop :=
  exists chars, Forall (fun ws => List.In ws Js.white_space) chars /\ s = join chars.

(** The credential values the fallback treats as absent. *)
Definition credential_absent (k : option string) : Prop :=
  k = None \/ k = Some "undefined" \/ exists s, k = Some s /\ all_space s.

(** ** Sample inputs *)

(** [{ code: 429, message: "Too Many Requests" }] *)
Definition quota_by_code : JsError :=
  ErrObject (mkErrorObject (Some "Too Many Requests") Js.Undefined (Js.Num 429)
               None "{}" "[object Object]").

(** An [ApiError] with [status: 429] whose message names neither the
    code nor the quota. *)
Definition quota_by_status : JsError :=
  ErrObject (mkErrorObject (Some "Too Many Requests") (Js.Num 429) Js.Undefined
               None "{}" "ApiError: Too Many Requests").

(** A backend that counts its calls; the model named A always fails
    with a plain error and every other model answers. *)
Definition sample_backend (model : string) (_ : nat) (n : nat) : Result string * nat :=
  if String.eqb model "A"
  then (Rejected (new_Error "bad request"), S n)
  else (Resolved "ok", S n).

(** A backend call that is never reached. *)
Definition unreachable_backend (_ : Request) (n : nat) : Result Response * nat :=
  (Rejected (new_Error "unreachable"), S n).

Definition fresh_world : World nat := mkWorld [] 0 0%nat.

(** A credential made of U+0020, U+00A0 and U+FEFF. *)
Definition blank_key : string := Js.utf8 [32; 194; 160; 239; 187; 191].

(** A prompt that is a non-empty string. *)
Definition nonempty_prompt (p : Json) : Prop :=
  exists t, p = JString t /\ t <> "".

(** A backend whose answer to every request is prose, not JSON. *)
Definition prose_backend (_ : Request) (n : nat) : Result Response * nat :=
  (Resolved (mkResponse (Some "I cannot help with that.") None None), S n).

(** A reply whose data holds a fence inside a string:
    the object with the one key [a] bound to three backquotes, inside
    a fenced block with prose around it. *)
Definition fence_in_data : string :=
  "{" +:+ quote +:+ "a" +:+ quote +:+ ":" +:+ quote +:+ fence +:+ quote +:+ "}".

Definition fence_in_data_reply : string :=
  ("Here you go: " +:+ fence_json +:+ LF) +:+ fence_in_data
  +:+ (LF +:+ fence +:+ " hope it helps").

(** A fenced reply around the object with the one key [ok] bound to
    [true]. *)
Definition plain_reply : string :=
  ("Sure! " +:+ fence_json +:+ LF)
  +:+ String "{" ((quote +:+ "ok" +:+ quote +:+ ": true") +:+ "}")
  +:+ (LF +:+ fence +:+ " Anything else?").

(** ** Predicates and sample inputs for the handler *)

Module AppSpec.

Import App.

(** A sub-request succeeded: it resolved with an image. *)
Definition succeeded (r : Result (option string)) : bool :=
  match r with
  | Resolved img => produced img
  | Rejected _ => false
  end.


(** The handler runs: the credential is there, there is something to
    submit and no request is in flight. *)
Definition accepts_click (s : AppState) : bool :=
  negb (apiKeyMissing s)
  && negb ((String.eqb (Js.trim (input s)) "" && negb (produced (uploadedImage s)))
           || loading s).

Section Primary.

Context {B : Type} `{Service B}.

(** The primary task of the active tab rejects with [e]. *)
Definition primary_rejects (s : AppState) (b : B) (e : JsError) (b' : B) : Prop :=
  match activeTab s with
  | simulation =>
      match Js.nonempty (uploadedImage s) with
      | Some image => analyzeDentalImage image b = (Rejected e, b')
      | None => generateSimulationContent (input s) b = (Rejected e, b')
      end
  | practical =>
      produced (uploadedImage s) = false /\
      generatePracticalContent (input s) b = (Rejected e, b')
  | gallery => generateResearchContent (research_topic s (input s)) b = (Rejected e, b')
  | quiz =>
      generateQuizContent (input s) (quizLanguage s) (quizCount s) (quizDifficulty s) b
        = (Rejected e, b')
  end.

(** Every image sub-request for [p] produces an image. *)
Definition always_succeeds (p : string) : Prop :=
  forall b, succeeded (generateRealisticDentalImage p CLINICAL b).1 = true.

(** No image sub-request for [p] produces an image. *)
Definition always_fails (p : string) : Prop :=
  forall b, succeeded (generateRealisticDentalImage p CLINICAL b).1 = false.

End Primary.

(** A service over a call counter: every primary task rejects, and the
    image task fails for the prompt [bad] and succeeds otherwise. *)
Definition failing_service : Service nat :=
  mkService nat
    (fun _ n => (Rejected (new_Error "backend down"), S n))
    (fun _ n => (Rejected (new_Error "backend down"), S n))
    (fun _ n => (Rejected (new_Error "backend down"), S n))
    (fun _ _ _ _ n => (Rejected (new_Error "backend down"), S n))
    (fun _ n => (Rejected (new_Error "backend down"), S n))
    (fun p _ n =>
       (if String.eqb p "bad" then Resolved None else Resolved (Some ("image of " +:+ p)),
        S n)).

Definition sample_item (i : nat) (p : string) : GalleryItem :=
  mkItem i p None Loading None.

Definition sample_step (p : string) : PracticalStep :=
  mkStep None None None None None None (Some p) None (Some Pending).

(** A state with published content in every workspace. *)
Definition sample_state (tab : Tab) : AppState :=
  mkAppState "caries" [] tab None [] None false
    (mkSimulation (Some (mkClinical (Some "summary") None None None None None))
       (Some "clinical.png") None None)
    (Some (mkClinical None (Some [Some (sample_step "step")]) None None None None))
    (Some (mkQuiz [JString "q1"] [] []))
    ∅ ar 5 Medium
    [mkItem 0 "old prompt" (Some "old.png") Completed None]
    false.

Definition sample_world (tab : Tab) : AppWorld nat :=
  mkAppWorld (sample_state tab) [] 0%nat.

(** A state right after the primary results were published: three
    gallery items and three protocol steps, the second of each with the
    prompt [bad]. *)
Definition sample_batch_protocol : ClinicalData :=
  mkClinical None
    (Some [Some (sample_step "a"); Some (sample_step "bad"); Some (sample_step "c")])
    None None None None.

Definition sample_batch_world : AppWorld nat :=
  mkAppWorld
    (mkAppState "" [] gallery None [] None false
       (mkSimulation None None None None)
       (Some sample_batch_protocol) None ∅ ar 5 Medium
       [sample_item 0 "a"; sample_item 1 "bad"; sample_item 2 "c"]
       false)
    [] 0%nat.

End AppSpec.

(** ** The other tasks of the service *)

(** [`${n}`] for an integer. *)
Definition number_to_string (n : Z) : string :=
  NilZero.string_of_int (Z.to_int n).

(** The [schemaDescription] of [generateSimulationContent]. *)
Definition simulation_schema : string :=
  LF +:+ "      OUTPUT: JSON Object." +:+ LF
  +:+ "      LANGUAGE: ARABIC (Scientific Medical Arabic)." +:+ LF
  +:+ "      Structure: {" +:+ LF +:+ "        " +:+ quote +:+ "theorySummary"
  +:+ quote +:+ ": " +:+ quote +:+ "string" +:+ quote +:+ ", " +:+ quote
  +:+ "riskLevel" +:+ quote +:+ ": " +:+ quote +:+ "string" +:+ quote +:+ ","
  +:+ LF +:+ "        " +:+ quote +:+ "hotspots" +:+ quote +:+ ": [{ "
  +:+ quote +:+ "x" +:+ quote +:+ ": number, " +:+ quote +:+ "y" +:+ quote
  +:+ ": number, " +:+ quote +:+ "label" +:+ quote +:+ ": " +:+ quote
  +:+ "string" +:+ quote +:+ ", " +:+ quote +:+ "description" +:+ quote
  +:+ ": " +:+ quote +:+ "string" +:+ quote +:+ ", " +:+ quote +:+ "diagnosis"
  +:+ quote +:+ ": " +:+ quote +:+ "string" +:+ quote +:+ ", " +:+ quote
  +:+ "indications" +:+ quote +:+ ": " +:+ quote +:+ "string" +:+ quote
  +:+ ", " +:+ quote +:+ "classification" +:+ quote +:+ ": " +:+ quote
  +:+ "string" +:+ quote +:+ ", " +:+ quote +:+ "treatmentPlan" +:+ quote
  +:+ ": " +:+ quote +:+ "string" +:+ quote +:+ ", " +:+ quote
  +:+ "clinicalPearl" +:+ quote +:+ ": " +:+ quote +:+ "string" +:+ quote
  +:+ ", " +:+ quote +:+ "commonMistake" +:+ quote +:+ ": " +:+ quote
  +:+ "string" +:+ quote +:+ " }]," +:+ LF +:+ "        " +:+ quote
  +:+ "vitals" +:+ quote +:+ ": { " +:+ quote +:+ "heartRate" +:+ quote
  +:+ ": number, " +:+ quote +:+ "bloodPressure" +:+ quote +:+ ": " +:+ quote
  +:+ "string" +:+ quote +:+ ", " +:+ quote +:+ "oxygenSaturation" +:+ quote
  +:+ ": number }," +:+ LF +:+ "        " +:+ quote +:+ "imagePrompt"
  +:+ quote +:+ ": " +:+ quote
  +:+ "string (English, Photorealistic clinical view)" +:+ quote +:+ ","
  +:+ LF +:+ "        " +:+ quote +:+ "radiologyPrompt" +:+ quote +:+ ": "
  +:+ quote +:+ "string (English, X-Ray)" +:+ quote +:+ "," +:+ LF
  +:+ "        " +:+ quote +:+ "explodedPrompt" +:+ quote +:+ ": " +:+ quote
  +:+ "string (English, 3D Diagram)" +:+ quote +:+ LF +:+ "      }".

(** The request of [generateSimulationContent]. *)
Definition simulation_request (topic modelName apiKey : string) : Request :=
  mkRequest apiKey modelName
    ("Topic: " +:+ quote +:+ topic +:+ quote
     +:+ ". Create a dental clinical simulation scenario." +:+ LF +:+ LF
     +:+ simulation_schema)
    (JsonConfig "You are a Clinical Dental Simulation Architect. Return valid JSON.").

(** The [schemaDescription] of [generatePracticalContent]. *)
Definition practical_schema : string :=
  LF +:+ "      OUTPUT: JSON Object." +:+ LF +:+ "      Structure: {" +:+ LF
  +:+ "        " +:+ quote +:+ "practicalProtocol" +:+ quote +:+ ": [{" +:+ LF
  +:+ "            " +:+ quote +:+ "id" +:+ quote +:+ ": " +:+ quote
  +:+ "string" +:+ quote +:+ ", " +:+ LF +:+ "            " +:+ quote
  +:+ "title" +:+ quote +:+ ": " +:+ quote +:+ "string (Section Title)"
  +:+ quote +:+ ", " +:+ LF +:+ "            " +:+ quote +:+ "originalText"
  +:+ quote +:+ ": " +:+ quote
  +:+ "string (SECTION 1: The EXACT original English source tex"
  +:+ "t for this segment. Keep it raw and academic.)" +:+ quote +:+ ","
  +:+ LF +:+ "            " +:+ quote +:+ "medicalTranslation" +:+ quote
  +:+ ": " +:+ quote
  +:+ "string (SECTION 2: Precise Medical Arabic Translation of"
  +:+ " the original text.)" +:+ quote +:+ "," +:+ LF +:+ "            "
  +:+ quote +:+ "professorComment" +:+ quote +:+ ": " +:+ quote
  +:+ "string (SECTION 3: The Deep Explanation. Arabic. Medium "
  +:+ "length. Insightful, linking concepts together, beautiful"
  +:+ " language, but not overly long.)" +:+ quote +:+ "," +:+ LF
  +:+ "            " +:+ quote +:+ "memoryAid" +:+ quote +:+ ": " +:+ quote
  +:+ "string (SECTION 4: The Funny Mnemonic. EXTREMELY FUNNY &"
  +:+ " CREATIVE. Use characters, scenarios, wordplay, puns, or"
  +:+ " local humor to help memorize the concept. E.g., 'Pharma"
  +:+ " -> A mouse (Far) didn't eat so he needed meds'. Make it"
  +:+ " memorable!)" +:+ quote +:+ "," +:+ LF +:+ "            " +:+ quote
  +:+ "visualPrompt" +:+ quote +:+ ": " +:+ quote
  +:+ "string (SECTION 5: English. A description for a specific"
  +:+ " clinical image representing this exact step.)" +:+ quote +:+ LF
  +:+ "        }]" +:+ LF +:+ "      }".

(** The request of [generatePracticalContent]. *)
Definition practical_request (topic modelName apiKey : string) : Request :=
  mkRequest apiKey modelName
    ("Topic/Text to Explain: " +:+ quote +:+ topic +:+ quote +:+ ". " +:+ LF
     +:+ LF +:+ practical_schema)
    (JsonConfig "You are the 'Legendary Dental Mentor'. Output strictly valid JSON.").

(** The [schemaDescription] of [generateQuizContent]. *)
Definition quiz_schema (langInstruction difficulty : string) : string :=
  LF +:+ "      OUTPUT: JSON Object." +:+ LF +:+ "      LANGUAGE: "
  +:+ langInstruction +:+ "." +:+ LF +:+ "      Structure: {" +:+ LF
  +:+ "        " +:+ quote +:+ "essayQuestions" +:+ quote +:+ ": [{ "
  +:+ quote +:+ "id" +:+ quote +:+ ": " +:+ quote +:+ "string" +:+ quote
  +:+ ", " +:+ quote +:+ "question" +:+ quote +:+ ": " +:+ quote +:+ "string"
  +:+ quote +:+ ", " +:+ quote +:+ "answer" +:+ quote +:+ ": " +:+ quote
  +:+ "string" +:+ quote +:+ ", " +:+ quote +:+ "difficulty" +:+ quote
  +:+ ": " +:+ quote +:+ difficulty +:+ quote +:+ ", " +:+ quote
  +:+ "keyPoints" +:+ quote +:+ ": [" +:+ quote +:+ "string" +:+ quote
  +:+ "] }]," +:+ LF +:+ "        " +:+ quote +:+ "shortAnswerQuestions"
  +:+ quote +:+ ": [{ " +:+ quote +:+ "id" +:+ quote +:+ ": " +:+ quote
  +:+ "string" +:+ quote +:+ ", " +:+ quote +:+ "question" +:+ quote +:+ ": "
  +:+ quote +:+ "string" +:+ quote +:+ ", " +:+ quote +:+ "answer" +:+ quote
  +:+ ": " +:+ quote +:+ "string" +:+ quote +:+ ", " +:+ quote
  +:+ "difficulty" +:+ quote +:+ ": " +:+ quote +:+ difficulty +:+ quote
  +:+ " }]," +:+ LF +:+ "        " +:+ quote +:+ "mcqQuestions" +:+ quote
  +:+ ": [{ " +:+ quote +:+ "id" +:+ quote +:+ ": " +:+ quote +:+ "string"
  +:+ quote +:+ ", " +:+ quote +:+ "question" +:+ quote +:+ ": " +:+ quote
  +:+ "string" +:+ quote +:+ ", " +:+ quote +:+ "options" +:+ quote +:+ ": ["
  +:+ quote +:+ "string" +:+ quote +:+ "], " +:+ quote +:+ "correctAnswer"
  +:+ quote +:+ ": " +:+ quote +:+ "string" +:+ quote +:+ ", " +:+ quote
  +:+ "explanation" +:+ quote +:+ ": " +:+ quote +:+ "string" +:+ quote
  +:+ ", " +:+ quote +:+ "difficulty" +:+ quote +:+ ": " +:+ quote
  +:+ difficulty +:+ quote +:+ " }]" +:+ LF +:+ "      }".

Definition difficulty_label (difficulty : App.Difficulty) : string :=
  match difficulty with
  | App.Easy => "Easy"
  | App.Medium => "Medium"
  | App.Hard => "Hard"
  | App.Intellectual => "Intellectual"
  end.

(** The request of [generateQuizContent]. *)
Definition quiz_request (topic : string) (language : App.Language) (count : Z)
    (difficulty : App.Difficulty) (modelName apiKey : string) : Request :=
  let langInstruction :=
    match language with
    | App.ar => "ARABIC"
    | App.en => "ENGLISH"
    end in
  mkRequest apiKey modelName
    ("Topic: " +:+ quote +:+ topic +:+ quote +:+ ". Create an exam with "
     +:+ number_to_string count +:+ " questions. Level: "
     +:+ difficulty_label difficulty +:+ LF +:+ LF
     +:+ quiz_schema langInstruction (difficulty_label difficulty))
    (JsonConfig "You are a Dental School Professor. Create exam. JSON only.").

Section JsonTasks.

Context {N : Type}.
Variable random : nat -> Q.
Variable API_KEY : option string.
Variable JSON_parse : string -> option Json.
Variable generateContent : Request -> N -> Result Response * N.

(** One attempt of a task that returns [{ data: parseAIResponse(
    response.text) }]; the model returns the data. *)
Definition json_attempt (request : Request) : M N Json :=
  let! response := lift_net (generateContent request) in
  settle (parseAIResponse JSON_parse (text response)).

Definition generateSimulationContent (topic : string) : M N Json :=
  withModelFallback API_KEY
    (fun modelName apiKey =>
       withRetry random
         (fun _ => json_attempt (simulation_request topic modelName apiKey)) 3 true)
    default_models.

Definition generatePracticalContent (topic : string) : M N Json :=
  withModelFallback API_KEY
    (fun modelName apiKey =>
       withRetry random
         (fun _ => json_attempt (practical_request topic modelName apiKey)) 3 true)
    default_models.

Definition generateQuizContent (topic : string) (language : App.Language)
    (count : Z) (difficulty : App.Difficulty) : M N Json :=
  withModelFallback API_KEY
    (fun modelName apiKey =>
       withRetry random
         (fun _ =>
            json_attempt (quiz_request topic language count difficulty modelName apiKey))
         3 true)
    default_models.

(** [checkApiConnection]: [!!getApiKey()] *)
Definition checkApiConnection : M N bool :=
  let! apiKey := getApiKey API_KEY in
  ret (match Js.nonempty apiKey with
       | Some _ => true
       | None => false
       end).

End JsonTasks.

(** The text after the first [sep], if there is one. *)
Fixpoint after_first (sep : ascii) (s : string) : option string :=
  match s with
  | EmptyString => None
  | String c r => if Ascii.eqb c sep then Some r else after_first sep r
  end.

(** The text before the first [sep]; all of it when there is none. *)
Fixpoint before_first (sep : ascii) (s : string) : string :=
  match s with
  | EmptyString => EmptyString
  | String c r => if Ascii.eqb c sep then EmptyString else String c (before_first sep r)
  end.

(** [s.split(',')[1]] *)
Definition second_segment (s : string) : option string :=
  match after_first "," s with
  | Some r => Some (before_first "," r)
  | None => None
  end.

(** [base64Image.split(',')[1] || base64Image], the payload that
    [analyzeDentalImage] sends. *)
Definition base64Data (base64Image : string) : string :=
  from_option id base64Image (Js.nonempty (second_segment base64Image)).

(** ** The small handlers of [App.tsx] *)

Module AppHandlers.

Import App.

(** [toggleAnswer]: [setRevealedAnswers(prev => ({...prev, [id]:
    !prev[id]}))] *)
Definition toggleAnswer (id : string) : AppState -> AppState :=
  updateRevealedAnswers (fun prev => <[id := negb (default false (prev !! id))]> prev).

(** [revealedAnswers[id]] read as a condition. *)
Definition revealed (s : AppState) (id : string) : bool :=
  default false (revealedAnswers s !! id).

Definition setQuizCount (v : Z) (s : AppState) : AppState :=
  mkAppState (input s) (messages s) (activeTab s) (errorStatus s)
    (checkedPracticalSteps s) (uploadedImage s) (apiKeyMissing s)
    (simulationData s) (practicalData s) (quizData s) (revealedAnswers s)
    (quizLanguage s) v (quizDifficulty s) (galleryItems s) (loading s).

(** The [onChange] of the count field:
    [Math.max(1, Math.min(10, parseInt(e.target.value) || 1))].
    [parsed] is what [parseInt] returns, [None] for [NaN]. *)
Definition quiz_count_of (parsed : option Z) : Z :=
  let n :=
    match parsed with
    | Some k => if (k =? 0)%Z then 1%Z else k
    | None => 1%Z
    end in
  Z.max 1 (Z.min 10 n).

Definition onQuizCountChange (parsed : option Z) : AppState -> AppState :=
  setQuizCount (quiz_count_of parsed).

End AppHandlers.

(** ** More predicates *)

(** The indices of the attempts of a log, in order. *)
Definition attempts_of (evs : list Event) : list nat :=
  omap (fun ev => match ev with EvAttempt i => Some i | _ => None end) evs.

(** The waits of a log, in order. *)
Definition waits_of (evs : list Event) : list Q :=
  omap (fun ev => match ev with EvDelay ms => Some ms | _ => None end) evs.

(** The models a log shows as tried, in order. *)
Definition models_tried (evs : list Event) : list string :=
  omap (fun ev => match ev with EvModel m => Some m | _ => None end) evs.


(** An attempt function that writes nothing to the log. *)
Definition quiet {N T} (fn : nat -> M N T) : Prop :=
  forall i w, log (fn i w).2 = log w.

(** A status an item does not leave. *)
Definition terminal (st : App.ImageStatus) : bool :=
  match st with
  | App.Completed | App.Failed => true
  | _ => false
  end.

(** The prompts of the [Requested] events of a log, in order. *)
Definition requested (tr : list App.AppEvent) : list (string * ImageType) :=
  omap (fun ev => match ev with App.Requested p t => Some (p, t) | _ => None end) tr.

(** [s] holds no comma. *)
Definition comma_free (s : string) : bool :=
  all_chars (fun c => negb (Ascii.eqb c ",")) s.

(** The cooldown the fallback takes after an error. *)
Definition cooldown_after (error : JsError) : Q :=
  (if fallback_isQuota error then 8000 else 1000)%Q.

(** A run of a text task that gives up on unreadable answers: one
    attempt on each of the two default models with the short cooldown
    between them, no random draw, and the error of [parseAIResponse]. *)
Definition rejects_unparsed {N} (task : M N Json) (w : World N) : Prop :=
  exists e w',
    task w = (Rejected e, w') /\
    (e = new_Error empty_response_message \/
     e = new_Error parse_failure_message) /\
    log w' = log w ++ [EvGetApiKey; EvModel "gemini-2.5-flash"; EvAttempt 0;
                       EvDelay 1000; EvModel "gemini-3-flash-preview"; EvAttempt 0] /\
    draws w' = draws w.

(** [s] holds no backquote. *)
Definition backquote_free (s : string) : bool :=
  all_chars (fun c => negb (Ascii.eqb c "`")) s.

(** The time a log shows as spent in [delay], in milliseconds. *)
Definition total_wait (evs : list Event) : Q := foldr Qplus 0%Q (waits_of evs).

(** The longest [withRetry] can wait from attempt [i] on with [fuel]
    attempts left: the quota base and a full second of jitter before
    every retry. *)
Fixpoint wait_budget (i fuel : nat) : Q :=
  match fuel with
  | O => 0
  | S fuel' =>
      match fuel' with
      | O => 0
      | S _ => 8000 * pow2 i + 1000 + wait_budget (S i) fuel'
      end
  end%Q.

(** A run that makes at most [attempts] attempts and waits at most
    [ms] milliseconds in all. *)
Definition within_budget {N T} (task : M N T) (w : World N) (attempts : nat) (ms : Q)
    : Prop :=
  exists evs,
    log (task w).2 = log w ++ evs /\
    (length (attempts_of evs) <= attempts)%nat /\
    (total_wait evs <= ms)%Q.

(** ** The handler before it awaits its primary task *)

Module HandlerSpec.

Import App AppSpec.

(** The message the handler adds to the chat for the submission. *)
Definition user_message (s : AppState) : ChatMessage :=
  mkMessage user
    (match Js.nonempty (Some (input s)) with
     | Some m => UserText m
     | None =>
         if produced (uploadedImage s) then AnalyseImagePlaceholder
         else NewRequestPlaceholder
     end)
    (Js.nonempty (uploadedImage s)).

(** The state once the handler has cleared the status, raised
    [loading] and added the user's message. *)
Definition started (s : AppState) : AppState :=
  updateMessages (fun prev => prev ++ [user_message s])
    (setLoading true (setErrorStatus None s)).

(** The state in which the primary task of the active tab is awaited. *)
Definition before_primary (s : AppState) : AppState :=
  match activeTab s with
  | simulation => started s
  | practical => setCheckedPracticalSteps [] (started s)
  | gallery => setGalleryItems [] (started s)
  | quiz => setRevealedAnswers ∅ (setQuizData None (started s))
  end.

(** The three image requests of a simulation, in the order of the
    loop. *)
Definition simulation_requests (d : ClinicalData) (userMessage : string)
    : list (string * ImageType) :=
  [ (or_else (imagePrompt d) userMessage, CLINICAL);
    (or_else (radiologyPrompt d) userMessage, RADIOLOGY);
    (or_else (explodedPrompt d) userMessage, EXPLODED) ].

(** An item that differs from [it] in its image and status at most. *)
Definition same_item (it it' : GalleryItem) : Prop :=
  item_id it' = item_id it /\ prompt it' = prompt it /\ source it' = source it.

(** The image requests of a list of protocol steps: one for every step
    that has a visual prompt. *)
Definition step_requests (steps : list PracticalStep) : list (string * ImageType) :=
  omap (fun st => (fun p => (p, CLINICAL)) <$> Js.nonempty (visualPrompt st)) steps.

(** A protocol entry that is a step whose image is completed or
    failed. *)
Definition settled_step (entry : option PracticalStep) : Prop :=
  exists st s, entry = Some st /\ imageStatus st = Some s /\ terminal s = true.

(** A service over a call counter whose primary tasks all answer; the
    image task fails for the prompt [bad] and succeeds otherwise. *)
Definition answering_service : Service nat :=
  mkService nat
    (fun _ n => (Resolved (Some (mkAnalysis true (Some "sound") (Some (true, "ok")))), S n))
    (fun _ n =>
       (Resolved (Some (mkClinical (Some "summary") None (Some "bad") None None None)),
        S n))
    (fun _ n =>
       (Resolved (Some (mkClinical None
          (Some [Some (mkStep (Some "s1") None None None None None (Some "a") None None);
                 Some (mkStep (Some "s2") None None None None None None None None);
                 Some (mkStep (Some "s3") None None None None None (Some "bad") None None)])
          None None None None)), S n))
    (fun _ _ _ _ n => (Resolved (Some (mkRawQuiz (Some [JString "q"]) None None)), S n))
    (fun _ n => (Resolved (mkContent [] ["a"; "bad"; "c"]), S n))
    (fun p _ n =>
       (if String.eqb p "bad" then Resolved None else Resolved (Some ("image of " +:+ p)),
        S n)).

End HandlerSpec.

(** * Properties *)

(** ** Strings *)

Lemma startsWith_lower (hay needle : string) :
  Js.startsWith hay needle = true ->
  Js.startsWith (Js.toLowerCase hay) (Js.toLowerCase needle) = true.
Proof.
  revert hay; induction needle as [|a n IH]; intros [|b h]; simpl; try done.
  intros [Hab Hrest]%andb_prop.
  apply Ascii.eqb_eq in Hab as ->.
  rewrite Ascii.eqb_refl; simpl; auto.
Qed.

Lemma includes_eq (hay needle : string) :
  Js.includes hay needle =
    Js.startsWith hay needle ||
    match hay with
    | EmptyString => false
    | String _ r => Js.includes r needle
    end.
Proof. now destruct hay. Qed.

Lemma includes_lower (hay needle : string) :
  Js.includes hay needle = true ->
  Js.includes (Js.toLowerCase hay) (Js.toLowerCase needle) = true.
Proof.
  induction hay as [|c h IH]; rewrite includes_eq;
    rewrite (includes_eq (Js.toLowerCase _)).
  - rewrite orb_false_r. intros Hs%startsWith_lower.
    now rewrite Hs.
  - intros [Hs%startsWith_lower | Hi]%orb_prop.
    + now rewrite Hs.
    + cbn [Js.toLowerCase]. rewrite (IH Hi). apply orb_true_r.
Qed.

(** ** Classification *)

Lemma isRetryableError_classify (error : JsError) (retryOnQuota : bool) (k : ErrorKind) :
  classify error = Some k ->
  isRetryableError error retryOnQuota =
    Resolved (match k with
              | RateLimited => retryOnQuota
              | Transient => true
              | Fatal => false
              end).
Proof.
  unfold classify, isRetryableError.
  destruct (error_text error) as [t|]; [|done].
  intros [= <-].
  destruct (quota_test _ _); [done|].
  now destruct (network_test _ _).
Qed.

(** An error the fallback takes for a quota error is one the retry
    policy classifies as rate limited. *)
Lemma fallback_isQuota_classify (error : JsError) :
  fallback_isQuota error = true -> classify error = Some RateLimited.
Proof.
  unfold fallback_isQuota, classify, error_text.
  destruct (message_of error) as [m|] eqn:Hm; [|done].
  intros Hq. simpl.
  destruct (String.eqb m "") eqn:Hem.
  { apply String.eqb_eq in Hem as ->. simpl in Hq. done. }
  assert (Hquota : quota_test (status_of error) (Js.toLowerCase m) = true).
  { unfold quota_test. apply orb_prop in Hq as [H429 | Hquota].
    - apply includes_lower in H429.
      change (Js.toLowerCase "429") with "429" in H429.
      rewrite H429. now rewrite !orb_true_r.
    - rewrite Hquota. now rewrite !orb_true_r. }
  now rewrite Hquota.
Qed.

Lemma fatal_not_fallback_quota (error : JsError) :
  classify error = Some Fatal -> fallback_isQuota error = false.
Proof.
  intros Hc. destruct (fallback_isQuota error) eqn:Hq; [|done].
  apply fallback_isQuota_classify in Hq. congruence.
Qed.

(** ** The retry policy *)

Ltac run_async :=
  unfold getApiKey, Math_random, delay;
  unfold bind, try_catch, try_finally, emit, ret, throw, settle, lift_net;
  cbn [log draws net fst snd].

(** One iteration of the loop of [withRetry]. *)
Lemma withRetry_loop_step {N T} (random : nat -> Q) (fn : nat -> M N T)
    (retries : nat) (retryOnQuota : bool) (fuel i : nat) (lastError : JsError)
    (w : World N) :
  withRetry_loop random fn retries retryOnQuota (S fuel) i lastError w =
    match fn i (mkWorld (log w ++ [EvAttempt i]) (draws w) (net w)) with
    | (Resolved v, w1) => (Resolved v, w1)
    | (Rejected error, w1) =>
        match isRetryableError error retryOnQuota with
        | Rejected te => (Rejected te, w1)
        | Resolved false => (Rejected error, w1)
        | Resolved true =>
            if (Z.of_nat i <? Z.of_nat retries - 1)%Z then
              withRetry_loop random fn retries retryOnQuota fuel (S i) error
                (mkWorld
                   (log w1 ++
                    [EvDelay ((if retry_isQuota error then 8000 else 2000) * pow2 i
                              + random (draws w1) * 1000)])
                   (S (draws w1)) (net w1))
            else (Rejected error, w1)
        end
    end.
Proof.
  cbn [withRetry_loop]. run_async.
  destruct (fn i _) as [[v|error] w1]; [done|].
  destruct (isRetryableError error retryOnQuota) as [[|]|te]; try done.
  cbn [negb]. now destruct (Z.of_nat i <? Z.of_nat retries - 1)%Z.
Qed.

(** A first attempt that fails with a fatal error ends [withRetry]: the
    error is rethrown and nothing more happens. *)
Lemma withRetry_fatal_first {N T} (random : nat -> Q) (fn : nat -> M N T)
    (retries : nat) (retryOnQuota : bool) (w w1 : World N) (e : JsError) :
  (0 < retries)%nat ->
  fn 0%nat (mkWorld (log w ++ [EvAttempt 0]) (draws w) (net w)) = (Rejected e, w1) ->
  classify e = Some Fatal ->
  withRetry random fn retries retryOnQuota w = (Rejected e, w1).
Proof.
  intros Hpos Hfn Hfatal. unfold withRetry.
  destruct retries as [|fuel]; [lia|].
  rewrite withRetry_loop_step, Hfn.
  now rewrite (isRetryableError_classify e retryOnQuota Fatal Hfatal).
Qed.

(** A first attempt that succeeds ends [withRetry] with its value. *)
Lemma withRetry_success_first {N T} (random : nat -> Q) (fn : nat -> M N T)
    (retries : nat) (retryOnQuota : bool) (w w1 : World N) (v : T) :
  (0 < retries)%nat ->
  fn 0%nat (mkWorld (log w ++ [EvAttempt 0]) (draws w) (net w)) = (Resolved v, w1) ->
  withRetry random fn retries retryOnQuota w = (Resolved v, w1).
Proof.
  intros Hpos Hfn. unfold withRetry.
  destruct retries as [|fuel]; [lia|].
  now rewrite withRetry_loop_step, Hfn.
Qed.

(** ** The model fallback *)

(** One iteration of the loop of [withModelFallback]. *)
Lemma fallback_loop_step {N T} (operation : string -> string -> M N T)
    (models : list string) (apiKey model : string) (rest : list string)
    (lastError : JsError) (w : World N) :
  fallback_loop operation models apiKey (model :: rest) lastError w =
    match operation model apiKey (mkWorld (log w ++ [EvModel model]) (draws w) (net w)) with
    | (Resolved v, w1) => (Resolved v, w1)
    | (Rejected ErrUndefined, w1) => (Rejected TypeError_undefined, w1)
    | (Rejected error, w1) =>
        if (indexOf models model <? Z.of_nat (length models) - 1)%Z then
          fallback_loop operation models apiKey rest error
            (mkWorld
               (log w1 ++ [EvDelay (if fallback_isQuota error then 8000 else 1000)])
               (draws w1) (net w1))
        else fallback_loop operation models apiKey rest error w1
    end.
Proof.
  cbn [fallback_loop]. run_async.
  destruct (operation model apiKey _) as [[v|error] w1]; [done|].
  destruct error as [|t|o]; [done| |];
    destruct (indexOf models model <? _)%Z; try done;
    destruct (fallback_isQuota _); run_async; done.
Qed.

(** The credential check of [withModelFallback]. *)
Lemma withModelFallback_check {N T} (API_KEY : option string)
    (operation : string -> string -> M N T) (models : list string) (w : World N) :
  withModelFallback API_KEY operation models w =
    match usable_key API_KEY with
    | None =>
        (Rejected (new_Error missing_key_message),
         mkWorld (log w ++ [EvGetApiKey]) (draws w) (net w))
    | Some k =>
        fallback_loop operation models k models ErrUndefined
          (mkWorld (log w ++ [EvGetApiKey]) (draws w) (net w))
    end.
Proof.
  unfold withModelFallback. run_async.
  now destruct (usable_key API_KEY).
Qed.

(** C4. A fatal error is never retried, whatever the attempt budget, and
    the fallback still advances: with the candidates [A; B], where every
    attempt against [A] fails with a fatal error and every attempt
    against [B] succeeds, [withRetry] makes one attempt against [A] and
    rethrows its error, and [withModelFallback] returns the result of
    [B] after that single attempt against [A]. *)
Theorem fatal_error_single_attempt_then_fallback {N T} (random : nat -> Q)
    (API_KEY : option string) (key A B : string)
    (f : string -> nat -> N -> Result T * N) (retries : nat) (w : World N) :
  (0 < retries)%nat ->
  usable_key API_KEY = Some key ->
  (forall i n, exists e n', f A i n = (Rejected e, n') /\ classify e = Some Fatal) ->
  (forall i n, exists v n', f B i n = (Resolved v, n')) ->
  exists e n1 v n2,
    f A 0%nat (net w) = (Rejected e, n1) /\ classify e = Some Fatal /\
    f B 0%nat n1 = (Resolved v, n2) /\
    (forall retryOnQuota,
       withRetry random (fun i => lift_net (f A i)) retries retryOnQuota w =
         (Rejected e, mkWorld (log w ++ [EvAttempt 0]) (draws w) n1)) /\
    withModelFallback API_KEY
      (fun model _ => withRetry random (fun i => lift_net (f model i)) retries true)
      [A; B] w =
      (Resolved v,
       mkWorld
         (log w ++ [EvGetApiKey; EvModel A; EvAttempt 0; EvDelay 1000;
                    EvModel B; EvAttempt 0])
         (draws w) n2).
Proof.
  intros Hpos Hkey HA HB.
  destruct (HA 0%nat (net w)) as (e & n1 & HfA & Hfatal).
  destruct (HB 0%nat n1) as (v & n2 & HfB).
  exists e, n1, v, n2. repeat split; try done.
  - intros retryOnQuota. apply withRetry_fatal_first; try done.
    run_async. now rewrite HfA.
  - rewrite withModelFallback_check, Hkey, fallback_loop_step.
    erewrite withRetry_fatal_first; [| done | run_async; now rewrite HfA | done].
    assert (He : e <> ErrUndefined) by (intros ->; done).
    assert (Hidx : (indexOf [A; B] A <? Z.of_nat (length [A; B]) - 1)%Z = true).
    { cbn. now rewrite String.eqb_refl. }
    rewrite (fatal_not_fallback_quota e Hfatal).
    destruct e as [|t|o]; [done| |]; rewrite Hidx, fallback_loop_step;
      (erewrite withRetry_success_first; [| done | run_async; now rewrite HfB]);
      cbn [log draws net]; now rewrite <- !app_assoc.
Qed.

(** Three attempts that all fail with a retryable error: the whole run
    of [withRetry] with a budget of three. *)
Lemma withRetry_three_failures {N T} (random : nat -> Q)
    (f : nat -> N -> Result T * N) (w : World N)
    (e0 e1 e2 : JsError) (n1 n2 n3 : N) :
  f 0%nat (net w) = (Rejected e0, n1) ->
  f 1%nat n1 = (Rejected e1, n2) ->
  f 2%nat n2 = (Rejected e2, n3) ->
  isRetryableError e0 true = Resolved true ->
  isRetryableError e1 true = Resolved true ->
  isRetryableError e2 true = Resolved true ->
  withRetry random (fun i => lift_net (f i)) 3 true w =
    (Rejected e2,
     mkWorld
       (log w ++
        [EvAttempt 0;
         EvDelay ((if retry_isQuota e0 then 8000 else 2000) * pow2 0
                  + random (draws w) * 1000);
         EvAttempt 1;
         EvDelay ((if retry_isQuota e1 then 8000 else 2000) * pow2 1
                  + random (S (draws w)) * 1000);
         EvAttempt 2])
       (S (S (draws w))) n3).
Proof.
  intros H0 H1 H2 R0 R1 R2. unfold withRetry.
  rewrite withRetry_loop_step. run_async. rewrite H0, R0.
  change (Z.of_nat 0 <? Z.of_nat 3 - 1)%Z with true. cbv iota.
  rewrite withRetry_loop_step. run_async. rewrite H1, R1.
  change (Z.of_nat 1 <? Z.of_nat 3 - 1)%Z with true. cbv iota.
  rewrite withRetry_loop_step. run_async. rewrite H2, R2.
  change (Z.of_nat 2 <? Z.of_nat 3 - 1)%Z with false. cbv iota.
  now rewrite <- !app_assoc.
Qed.

(** When every failure is one that [withRetry] itself takes for a
    quota error, a budget of three gives
    exactly three attempts, and the waits before the second and the
    third lie in [[8000, 9000)] and [[16000, 17000)]. *)
Lemma withRetry_quota_backoff {N T} (random : nat -> Q)
    (f : nat -> N -> Result T * N) (w : World N) :
  (forall k, 0 <= random k < 1)%Q ->
  (forall i n, exists e n',
     f i n = (Rejected e, n') /\ classify e = Some RateLimited /\
     retry_isQuota e = true) ->
  exists e w' d1 d2,
    withRetry random (fun i => lift_net (f i)) 3 true w = (Rejected e, w') /\
    log w' = log w ++ [EvAttempt 0; EvDelay d1; EvAttempt 1; EvDelay d2; EvAttempt 2] /\
    (8000 <= d1 < 8000 + 1000)%Q /\ (16000 <= d2 < 16000 + 1000)%Q.
Proof.
  intros Hrand Hf.
  destruct (Hf 0%nat (net w)) as (e0 & n1 & H0 & C0 & Q0).
  destruct (Hf 1%nat n1) as (e1 & n2 & H1 & C1 & Q1).
  destruct (Hf 2%nat n2) as (e2 & n3 & H2 & C2 & Q2).
  eexists e2, _, _, _. split.
  - apply (withRetry_three_failures random f w e0 e1 e2 n1 n2 n3); try done;
      now apply (isRetryableError_classify _ true RateLimited).
  - cbn [log]. split; [reflexivity|]. rewrite Q0, Q1.
    pose proof (Hrand (draws w)) as [? ?].
    pose proof (Hrand (S (draws w))) as [? ?].
    change (pow2 0) with 1%Q. change (pow2 1) with 2%Q.
    split; split; lra.
Qed.

(** Whatever the shape of the rate-limited errors, a budget of three
    gives exactly three attempts with two waits between them. *)
Lemma withRetry_rate_limited_three_attempts {N T} (random : nat -> Q)
    (f : nat -> N -> Result T * N) (w : World N) :
  (forall i n, exists e n', f i n = (Rejected e, n') /\ classify e = Some RateLimited) ->
  exists e w' d1 d2,
    withRetry random (fun i => lift_net (f i)) 3 true w = (Rejected e, w') /\
    classify e = Some RateLimited /\
    log w' = log w ++ [EvAttempt 0; EvDelay d1; EvAttempt 1; EvDelay d2; EvAttempt 2].
Proof.
  intros Hf.
  destruct (Hf 0%nat (net w)) as (e0 & n1 & H0 & C0).
  destruct (Hf 1%nat n1) as (e1 & n2 & H1 & C1).
  destruct (Hf 2%nat n2) as (e2 & n3 & H2 & C2).
  eexists e2, _, _, _. split; [|split; [done|]].
  - apply (withRetry_three_failures random f w e0 e1 e2 n1 n2 n3); try done;
      now apply (isRetryableError_classify _ true RateLimited).
  - reflexivity.
Qed.

(** C3, at a failing input. An error that carries the quota only in its
    [code] is rate limited for [isRetryableError], but the inline test
    of [withRetry] does not see it: the waits start from 2000 ms, not
    from 8000 ms. *)
Theorem withRetry_quota_code_waits_from_2000 {N T} (random : nat -> Q)
    (w : World N) :
  classify quota_by_code = Some RateLimited /\
  withRetry (T := T) random (fun _ => lift_net (fun n => (Rejected quota_by_code, n)))
    3 true w =
    (Rejected quota_by_code,
     mkWorld
       (log w ++
        [EvAttempt 0; EvDelay (2000 * pow2 0 + random (draws w) * 1000);
         EvAttempt 1; EvDelay (2000 * pow2 1 + random (S (draws w)) * 1000);
         EvAttempt 2])
       (S (S (draws w))) (net w)).
Proof.
  split; [reflexivity|].
  now rewrite (withRetry_three_failures random
                 (fun _ n => (Rejected quota_by_code, n)) w
                 quota_by_code quota_by_code quota_by_code (net w) (net w) (net w)).
Qed.

Lemma indexOf_app_bound (pre : list string) (model : string) (rest : list string) :
  (0 <= indexOf (pre ++ model :: rest) model <= Z.of_nat (length pre))%Z.
Proof.
  induction pre as [|m pre IH]; cbn [app indexOf length].
  - rewrite String.eqb_refl. lia.
  - destruct (String.eqb m model); [lia|].
    destruct (Z.eqb_spec (indexOf (pre ++ model :: rest) model) (-1)); lia.
Qed.

(** Between a failed model and a next candidate the fallback waits, and
    the wait is 8000 ms exactly when its own inline test takes the
    error for a quota error, 1000 ms otherwise. *)
Lemma fallback_cooldown {N T} (operation : string -> string -> M N T)
    (pre : list string) (model next : string) (more : list string)
    (apiKey : string) (lastError error : JsError) (w w1 : World N) :
  operation model apiKey (mkWorld (log w ++ [EvModel model]) (draws w) (net w))
    = (Rejected error, w1) ->
  error <> ErrUndefined ->
  fallback_loop operation (pre ++ model :: next :: more) apiKey
    (model :: next :: more) lastError w =
  fallback_loop operation (pre ++ model :: next :: more) apiKey (next :: more) error
    (mkWorld (log w1 ++ [EvDelay (if fallback_isQuota error then 8000 else 1000)])
       (draws w1) (net w1)).
Proof.
  intros Hop Herr. rewrite fallback_loop_step, Hop.
  pose proof (indexOf_app_bound pre model (next :: more)) as Hidx.
  assert (Hlt : (indexOf (pre ++ model :: next :: more) model
                 <? Z.of_nat (length (pre ++ model :: next :: more)) - 1)%Z = true).
  { apply Z.ltb_lt. rewrite length_app. cbn [length]. lia. }
  rewrite Hlt. now destruct error.
Qed.

(** C5, at a failing input. An error with [status: 429] whose message
    names neither the code nor the quota is rate limited for
    [isRetryableError], yet the fallback waits 1000 ms, not 8000 ms,
    before the next model. *)
Theorem fallback_quota_status_waits_1000 {N T} (w : World N) :
  classify quota_by_status = Some RateLimited /\
  withModelFallback (T := T) (Some "key") (fun _ _ => throw quota_by_status)
    default_models w =
    (Rejected quota_by_status,
     mkWorld
       (log w ++ [EvGetApiKey; EvModel "gemini-2.5-flash"; EvDelay 1000;
                  EvModel "gemini-3-flash-preview"])
       (draws w) (net w)).
Proof.
  split; [reflexivity|].
  rewrite withModelFallback_check.
  change (usable_key (Some "key")) with (Some "key"). cbv iota.
  unfold default_models.
  rewrite fallback_loop_step. unfold throw at 1. cbn [log draws net].
  change (indexOf _ "gemini-2.5-flash" <? _)%Z with true.
  change (fallback_isQuota quota_by_status) with false. cbv iota.
  rewrite fallback_loop_step. unfold throw at 1. cbn [log draws net].
  change (indexOf _ "gemini-3-flash-preview" <? _)%Z with false.
  cbv iota. cbn [fallback_loop]. unfold throw.
  now rewrite <- !app_assoc.
Qed.

(** ** The credential check *)

Lemma startsWith_split (hay needle : string) :
  Js.startsWith hay needle = true -> exists t, hay = needle +:+ t.
Proof.
  revert hay; induction needle as [|a n IH]; intros hay; [now exists hay|].
  destruct hay as [|b h]; [done|]. cbn [Js.startsWith].
  intros [Hab Hrest]%andb_prop. apply Ascii.eqb_eq in Hab as <-.
  destruct (IH h Hrest) as (t & ->). now exists t.
Qed.

(** A white space character at the head of a text is recognised and
    dropped whole. *)
Lemma trimStart_white (ws t : string) :
  List.In ws Js.white_space ->
  Js.space_at (ws +:+ t) = String.length ws /\
  Js.trimStart (ws +:+ t) = Js.trimStart t /\
  (0 < String.length ws)%nat.
Proof.
  unfold Js.white_space. cbn [List.In]. intros Hin.
  repeat (destruct Hin as [<-|Hin];
          [split; [reflexivity|split; [reflexivity|cbn; lia]]|]).
  destruct Hin.
Qed.

(** What [space_at] finds is a white space character. *)
Lemma space_at_found (s : string) (k : nat) :
  Js.space_at s = S k ->
  exists ws t, List.In ws Js.white_space /\ s = ws +:+ t.
Proof.
  unfold Js.space_at.
  destruct (List.find _ Js.white_space) as [ws|] eqn:Hfind; [|done].
  intros _. apply List.find_some in Hfind as [Hin Hstart].
  destruct (startsWith_split s ws Hstart) as (t & ->). now exists ws, t.
Qed.

Lemma trimStart_cons (c : ascii) (r : string) :
  Js.trimStart (String c r) =
    match Js.space_at (String c r) with
    | O => String c r
    | S k => Js.trimStart_from k r
    end.
Proof. reflexivity. Qed.

(** [trimStart] either leaves the text or drops a white space character
    and goes on. *)
Lemma trimStart_cases (s : string) :
  Js.trimStart s = s \/
  exists ws t, List.In ws Js.white_space /\ s = ws +:+ t /\
               Js.trimStart s = Js.trimStart t /\
               (String.length t < String.length s)%nat.
Proof.
  destruct s as [|c r]; [now left|].
  destruct (Js.space_at (String c r)) as [|k] eqn:Hat.
  - left. now rewrite trimStart_cons, Hat.
  - right. destruct (space_at_found _ _ Hat) as (ws & t & Hin & Hs).
    exists ws, t. rewrite Hs.
    destruct (trimStart_white ws t Hin) as (_ & Htrim & Hpos).
    repeat split; try done.
    assert (Hlen : forall x y, String.length (x +:+ y)
                               = (String.length x + String.length y)%nat).
    { intros x y. induction x as [|a x IH]; [done|].
      change (String a x +:+ y) with (String a (x +:+ y)). cbn [String.length].
      now rewrite IH. }
    rewrite Hlen. lia.
Qed.

Lemma trimStart_empty (s : string) :
  Js.trimStart s = EmptyString <-> all_space s.
Proof.
  split.
  - remember (String.length s) as n eqn:Hn. revert s Hn.
    induction n as [n IH] using lt_wf_ind. intros s -> Hempty.
    destruct (trimStart_cases s) as [Hsame|(ws & t & Hin & -> & Htrim & Hlt)].
    + rewrite Hsame in Hempty. subst s. now exists [].
    + rewrite Htrim in Hempty.
      destruct (IH _ Hlt t eq_refl Hempty) as (chars & Hall & ->).
      exists (ws :: chars). split; [now constructor|reflexivity].
  - intros (chars & Hall & ->). induction Hall as [|ws chars Hin _ IH]; [done|].
    change (join (ws :: chars)) with (ws +:+ join chars).
    destruct (trimStart_white ws (join chars) Hin) as (_ & -> & _). exact IH.
Qed.

Lemma trimStart_fixed (s : string) :
  Js.trimStart (Js.trimStart s) = Js.trimStart s.
Proof.
  remember (String.length s) as n eqn:Hn. revert s Hn.
  induction n as [n IH] using lt_wf_ind. intros s ->.
  destruct (trimStart_cases s) as [Hsame|(ws & t & Hin & -> & Htrim & Hlt)].
  - now rewrite !Hsame.
  - rewrite Htrim. now apply (IH _ Hlt).
Qed.

Lemma trimEnd_empty (s : string) :
  Js.trimEnd s = EmptyString <-> Js.trimStart s = EmptyString.
Proof.
  destruct s as [|c r]; [done|]. cbn [Js.trimEnd].
  destruct (String.eqb_spec (Js.trimStart (String c r)) EmptyString) as [->|Hne];
    [done|].
  split; [done|]. intros Hempty. now destruct Hne.
Qed.

Lemma trim_empty (s : string) :
  Js.trim s = EmptyString <-> all_space s.
Proof.
  unfold Js.trim. now rewrite trimEnd_empty, trimStart_fixed, trimStart_empty.
Qed.

(** The credential test rejects exactly the absent values. *)
Lemma usable_key_None (API_KEY : option string) :
  usable_key API_KEY = None <-> credential_absent API_KEY.
Proof.
  unfold usable_key, credential_absent.
  destruct API_KEY as [k|]; [|split; auto].
  destruct (String.eqb_spec k "") as [->|Hne]; cbn [orb].
  { split; [intros _|done]. right; right. exists "". split; [done|]. now exists []. }
  destruct (String.eqb_spec k "undefined") as [->|Hnu]; cbn [orb].
  { split; [intros _|done]. auto. }
  destruct (String.eqb_spec (Js.trim k) "") as [Ht|Ht].
  - split; [intros _|done]. right; right. exists k. split; [done|].
    now apply trim_empty.
  - split; [done|]. intros [?|[[= ?]|(s & [= <-] & Hs)]]; try done.
    now apply trim_empty in Hs.
Qed.

Lemma usable_key_Some (API_KEY : option string) (k : string) :
  usable_key API_KEY = Some k -> API_KEY = Some k.
Proof.
  unfold usable_key. destruct API_KEY as [k'|]; [|done].
  now destruct (_ || _); [|intros [= ->]].
Qed.

Ltac no_key_read :=
  repeat first
    [ assumption
    | apply not_elem_of_nil
    | apply not_elem_of_cons; split; [discriminate|]
    | apply not_elem_of_app; split ].

(** The loop of [withRetry] over attempts that only talk to the backend
    adds no read of the credential to the log. *)
Lemma withRetry_loop_log {N T} (random : nat -> Q) (f : nat -> N -> Result T * N)
    (retries : nat) (retryOnQuota : bool) (fuel : nat) :
  forall i lastError (w : World N),
  exists evs,
    log (withRetry_loop random (fun j => lift_net (f j)) retries retryOnQuota
           fuel i lastError w).2 = log w ++ evs /\
    EvGetApiKey ∉ evs.
Proof.
  induction fuel as [|fuel IH]; intros i lastError w.
  - exists []. cbn. rewrite app_nil_r. split; [done|]. no_key_read.
  - rewrite withRetry_loop_step. run_async.
    destruct (f i (net w)) as [[v|error] n']; cbn [log draws net].
    + exists [EvAttempt i]. split; [done|]. no_key_read.
    + destruct (isRetryableError error retryOnQuota) as [[|]|te];
        try (exists [EvAttempt i]; split; [done|no_key_read]).
      destruct (Z.of_nat i <? Z.of_nat retries - 1)%Z;
        [|exists [EvAttempt i]; split; [done|no_key_read]].
      match goal with
      | |- context [withRetry_loop _ _ _ _ fuel (S i) error ?w1] =>
          destruct (IH (S i) error w1) as (evs & Hlog & Hno)
      end.
      cbn [log] in Hlog. unfold lift_net in Hlog.
      eexists (EvAttempt i :: EvDelay _ :: evs).
      rewrite Hlog. split; [now rewrite <- !app_assoc|]. no_key_read.
Qed.

(** So does the loop of the fallback over operations that are retried
    backend calls. *)
Lemma fallback_loop_log {N T} (random : nat -> Q)
    (f : string -> string -> nat -> N -> Result T * N)
    (retries : nat) (retryOnQuota : bool) (models : list string) (apiKey : string)
    (rest : list string) :
  forall lastError (w : World N),
  exists evs,
    log (fallback_loop
           (fun model key =>
              withRetry random (fun i => lift_net (f model key i)) retries retryOnQuota)
           models apiKey rest lastError w).2 = log w ++ evs /\
    EvGetApiKey ∉ evs.
Proof.
  set (op := fun model key =>
               withRetry random (fun i => lift_net (f model key i)) retries retryOnQuota).
  induction rest as [|model rest IH]; intros lastError w.
  - exists []. cbn. rewrite app_nil_r. split; [done|]. no_key_read.
  - rewrite fallback_loop_step.
    destruct (withRetry_loop_log random (f model apiKey) retries retryOnQuota
                retries 0 ErrUndefined
                (mkWorld (log w ++ [EvModel model]) (draws w) (net w)))
      as (evs & Hlog & Hno).
    change (log (op model apiKey
                   (mkWorld (log w ++ [EvModel model]) (draws w) (net w))).2
            = (log w ++ [EvModel model]) ++ evs) in Hlog.
    destruct (op model apiKey _) as [[v|error] w2]; cbn [snd] in Hlog.
    { exists (EvModel model :: evs). cbn [snd]. rewrite Hlog, <- app_assoc.
      split; [done|]. no_key_read. }
    assert (Hstep : forall e : JsError,
      exists evs',
        log (if (indexOf models model <? Z.of_nat (length models) - 1)%Z
             then fallback_loop op models apiKey rest e
                    (mkWorld (log w2 ++ [EvDelay (if fallback_isQuota e then 8000 else 1000)])
                       (draws w2) (net w2))
             else fallback_loop op models apiKey rest e w2).2 = log w ++ evs' /\
        EvGetApiKey ∉ evs').
    { intros e. destruct (indexOf models model <? _)%Z.
      - match goal with
        | |- context [fallback_loop _ _ _ rest e ?w3] =>
            destruct (IH e w3) as (evs' & Hlog' & Hno')
        end.
        eexists (EvModel model :: evs ++ EvDelay _ :: evs').
        rewrite Hlog'. cbn [log]. rewrite Hlog.
        split; [now rewrite <- !app_assoc|]. no_key_read.
      - destruct (IH e w2) as (evs' & Hlog' & Hno').
        exists (EvModel model :: evs ++ evs').
        rewrite Hlog', Hlog.
        split; [now rewrite <- !app_assoc|]. no_key_read. }
    destruct error as [|t|o]; [|apply Hstep..].
    exists (EvModel model :: evs). cbn [snd]. rewrite Hlog, <- app_assoc.
    split; [done|]. no_key_read.
Qed.

(** C9. Every run of the fallback over retried backend calls reads the
    credential exactly once, before anything else; when the credential
    is absent the fallback, whatever its operation, rejects with the
    missing-credential error, which is fatal, and neither calls the
    operation nor touches the backend. *)
Theorem credential_checked_once_before_any_model {N T} (random : nat -> Q)
    (API_KEY : option string) (f : string -> string -> nat -> N -> Result T * N)
    (retries : nat) (retryOnQuota : bool) (models : list string) (w : World N) :
  (exists evs,
     log (withModelFallback API_KEY
            (fun model key =>
               withRetry random (fun i => lift_net (f model key i)) retries retryOnQuota)
            models w).2 = log w ++ EvGetApiKey :: evs /\
     EvGetApiKey ∉ evs) /\
  (usable_key API_KEY = None ->
   forall operation : string -> string -> M N T,
     withModelFallback API_KEY operation models w =
       (Rejected (new_Error missing_key_message),
        mkWorld (log w ++ [EvGetApiKey]) (draws w) (net w))) /\
  classify (new_Error missing_key_message) = Some Fatal.
Proof.
  split; [|split; [|reflexivity]].
  - rewrite withModelFallback_check.
    destruct (usable_key API_KEY) as [k|].
    + match goal with
      | |- context [fallback_loop ?op ?ms ?k ?r ?e ?w1] =>
          destruct (fallback_loop_log random f retries retryOnQuota ms k r e w1)
            as (evs & Hlog & Hno)
      end.
      exists evs. rewrite Hlog. cbn [log]. now rewrite <- app_assoc.
    + exists []. split; [done|]. no_key_read.
  - intros Hnone operation. now rewrite withModelFallback_check, Hnone.
Qed.

(** The same on the sample backend, with a budget of three. *)
Lemma fatal_error_single_attempt_then_fallback_witness :
  exists e n1 v n2,
    sample_backend "A" 0%nat 0%nat = (Rejected e, n1) /\ classify e = Some Fatal /\
    sample_backend "B" 0%nat n1 = (Resolved v, n2) /\
    (forall retryOnQuota,
       withRetry (fun _ => 0%Q) (fun i => lift_net (sample_backend "A" i)) 3
         retryOnQuota fresh_world =
         (Rejected e, mkWorld [EvAttempt 0] 0 n1)) /\
    withModelFallback (Some "key")
      (fun model _ =>
         withRetry (fun _ => 0%Q) (fun i => lift_net (sample_backend model i)) 3 true)
      ["A"; "B"] fresh_world =
      (Resolved v,
       mkWorld [EvGetApiKey; EvModel "A"; EvAttempt 0; EvDelay 1000;
                EvModel "B"; EvAttempt 0] 0 n2).
Proof.
  apply (fatal_error_single_attempt_then_fallback (fun _ => 0%Q) (Some "key") "key"
           "A" "B" sample_backend 3 fresh_world).
  - lia.
  - reflexivity.
  - intros i n. eexists _, _. split; reflexivity.
  - intros i n. eexists _, _. reflexivity.
Defined.

(** An unset credential on the sample backend: one read, no call. *)
Lemma credential_checked_once_before_any_model_witness :
  withModelFallback None (fun _ _ => lift_net (sample_backend "B" 0)) default_models
    fresh_world =
    (Rejected (new_Error missing_key_message), mkWorld [EvGetApiKey] 0 0%nat).
Proof.
  exact (proj1 (proj2 (credential_checked_once_before_any_model (fun _ => 0%Q) None
                         (fun model _ => sample_backend model) 3 true default_models
                         fresh_world))
           eq_refl (fun _ _ => lift_net (sample_backend "B" 0))).
Defined.

(** With no usable credential the research task rejects with the
    missing-credential error. *)
Lemma generateResearchContent_missing_key {N} (random : nat -> Q)
    (API_KEY : option string) (JSON_parse : string -> option Json)
    (generateContent : Request -> N -> Result Response * N) (topic : string)
    (w : World N) :
  usable_key API_KEY = None ->
  generateResearchContent random API_KEY JSON_parse generateContent topic w =
    (Rejected (new_Error missing_key_message),
     mkWorld (log w ++ [EvGetApiKey]) (draws w) (net w)).
Proof.
  intros Hnone. unfold generateResearchContent.
  now rewrite withModelFallback_check, Hnone.
Qed.

(** With no usable credential the image task does not reject: its
    [catch] turns the missing-credential error into [null]. *)
Lemma generateRealisticDentalImage_missing_key {N} (random : nat -> Q)
    (API_KEY : option string)
    (generateContent : Request -> N -> Result Response * N) (p : string)
    (type : ImageType) (w : World N) :
  usable_key API_KEY = None ->
  generateRealisticDentalImage random API_KEY generateContent p type w =
    (Resolved None, mkWorld (log w ++ [EvGetApiKey]) (draws w) (net w)).
Proof.
  intros Hnone. unfold generateRealisticDentalImage, try_catch, bind.
  now rewrite withModelFallback_check, Hnone.
Qed.

(** C10, as stated, fails for the image task: with the credential unset
    it resolves with [null] instead of throwing. *)
Lemma image_task_swallows_missing_credential :
  credential_absent None /\
  generateRealisticDentalImage (fun _ => 0%Q) None unreachable_backend "molar"
    CLINICAL fresh_world =
    (Resolved None, mkWorld [EvGetApiKey] 0 0%nat).
Proof.
  split; [now left | reflexivity].
Qed.

(** C10, amended. The credential check treats as absent exactly an unset
    credential, the literal ["undefined"] and a string made only of the
    white space [trim] removes, whatever its code points and the empty
    string included.  For such a value every call of [withModelFallback] rejects
    with the missing-credential error without calling its operation, so
    the research task rejects with it, while the image task catches it
    and resolves with [null].  For any other value, which is then a
    non-empty string, the check passes and the loop over the models
    starts with that key. *)
Theorem credential_absent_values (API_KEY : option string) :
  (credential_absent API_KEY ->
   (forall N T (operation : string -> string -> M N T) models (w : World N),
      withModelFallback API_KEY operation models w =
        (Rejected (new_Error missing_key_message),
         mkWorld (log w ++ [EvGetApiKey]) (draws w) (net w))) /\
   (forall N random JSON_parse generateContent topic (w : World N),
      generateResearchContent random API_KEY JSON_parse generateContent topic w =
        (Rejected (new_Error missing_key_message),
         mkWorld (log w ++ [EvGetApiKey]) (draws w) (net w))) /\
   (forall N random generateContent p type (w : World N),
      generateRealisticDentalImage random API_KEY generateContent p type w =
        (Resolved None, mkWorld (log w ++ [EvGetApiKey]) (draws w) (net w)))) /\
  (~ credential_absent API_KEY ->
   exists k,
     API_KEY = Some k /\ k <> "" /\
     forall N T (operation : string -> string -> M N T) models (w : World N),
       withModelFallback API_KEY operation models w =
         fallback_loop operation models k models ErrUndefined
           (mkWorld (log w ++ [EvGetApiKey]) (draws w) (net w))).
Proof.
  split.
  - intros Habs%usable_key_None. repeat split; intros.
    + now rewrite withModelFallback_check, Habs.
    + now apply generateResearchContent_missing_key.
    + now apply generateRealisticDentalImage_missing_key.
  - intros Hpresent.
    destruct (usable_key API_KEY) as [k|] eqn:Hk.
    + exists k. pose proof (usable_key_Some _ _ Hk) as ->.
      repeat split.
      * intros ->. apply Hpresent. right; right. exists "".
        split; [done|]. now exists [].
      * intros. now rewrite withModelFallback_check, Hk.
    + now apply usable_key_None in Hk.
Qed.

(** A credential of a space, a no-break space and a byte order mark is
    absent. *)
Lemma credential_absent_values_witness :
  withModelFallback (Some blank_key) (fun _ _ => lift_net (sample_backend "B" 0))
    default_models fresh_world =
    (Rejected (new_Error missing_key_message), mkWorld [EvGetApiKey] 0 0%nat).
Proof.
  refine (proj1 (proj1 (credential_absent_values (Some blank_key)) _) nat string _ _ _).
  right; right. exists blank_key. split; [reflexivity|].
  exists [Js.utf8 [32]; Js.utf8 [194; 160]; Js.utf8 [239; 187; 191]].
  split; [|reflexivity].
  repeat constructor; unfold Js.white_space; cbn [List.In]; tauto.
Defined.

(** ** The research task *)

Lemma synthesized_prompts_spec (topic : string) :
  length (synthesized_prompts topic) = 3%nat /\
  Forall nonempty_prompt (synthesized_prompts topic).
Proof.
  split; [reflexivity|].
  repeat constructor; eexists; (split; [reflexivity | discriminate]).
Qed.

(** Whatever the text of the response, an attempt that gets a response
    resolves, with exactly three prompts. *)
Lemma research_attempt_response {N} (JSON_parse : string -> option Json)
    (generateContent : Request -> N -> Result Response * N)
    (topic modelName apiKey : string) (w : World N) (resp : Response) (n' : N) :
  generateContent (research_request topic modelName apiKey) (net w) = (Resolved resp, n') ->
  exists ps,
    research_attempt JSON_parse generateContent topic modelName apiKey w =
      (Resolved (mkResearch (from_option id [] (groundingChunks resp)) ps),
       mkWorld (log w) (draws w) n') /\
    ps = take 3 (pad_prompts topic (research_prompts JSON_parse topic (text resp))) /\
    length ps = 3%nat.
Proof.
  intros Hresp. eexists. split; [|split; [reflexivity|]].
  - unfold research_attempt. run_async. now rewrite Hresp.
  - rewrite length_take. unfold pad_prompts.
    rewrite length_app, length_replicate. lia.
Qed.

Lemma research_prompts_unparseable (JSON_parse : string -> option Json)
    (topic : string) (response_text : option string) (e : JsError) :
  parseAIResponse JSON_parse response_text = Rejected e ->
  take 3 (pad_prompts topic (research_prompts JSON_parse topic response_text))
    = synthesized_prompts topic.
Proof.
  intros Hparse. unfold research_prompts. now rewrite Hparse.
Qed.

(** C7. When the backend answers the research request and the text of
    the answer cannot be parsed, [generateResearchContent] does not
    fail: it resolves with the three prompts synthesized from the topic,
    each a non-empty string. *)
Theorem research_survives_unparseable_response {N} (random : nat -> Q)
    (API_KEY : option string) (key : string) (JSON_parse : string -> option Json)
    (generateContent : Request -> N -> Result Response * N) (topic : string)
    (w : World N) (resp : Response) (n' : N) (e : JsError) :
  usable_key API_KEY = Some key ->
  generateContent (research_request topic "gemini-2.5-flash" key) (net w)
    = (Resolved resp, n') ->
  parseAIResponse JSON_parse (text resp) = Rejected e ->
  exists result w',
    generateResearchContent random API_KEY JSON_parse generateContent topic w
      = (Resolved result, w') /\
    prompts result = synthesized_prompts topic /\
    length (prompts result) = 3%nat /\
    Forall nonempty_prompt (prompts result).
Proof.
  intros Hkey Hresp Hparse.
  destruct (research_attempt_response JSON_parse generateContent topic
              "gemini-2.5-flash" key
              (mkWorld ((log w ++ [EvGetApiKey]) ++ [EvModel "gemini-2.5-flash"]
                          ++ [EvAttempt 0]) (draws w) (net w))
              resp n' Hresp) as (ps & Hrun & -> & Hlen).
  rewrite (research_prompts_unparseable _ _ _ _ Hparse) in Hrun.
  eexists _, _. split.
  - unfold generateResearchContent.
    rewrite withModelFallback_check, Hkey. unfold default_models.
    rewrite fallback_loop_step.
    erewrite withRetry_success_first; [reflexivity | lia |].
    cbn [log draws net]. rewrite <- app_assoc. exact Hrun.
  - cbn [prompts]. split; [reflexivity|]. apply synthesized_prompts_spec.
Qed.

(** A backend that answers in prose: the three synthesized prompts. *)
Lemma research_survives_unparseable_response_witness :
  exists result w',
    generateResearchContent (fun _ => 0%Q) (Some "key") JSON_parse_fragment
      prose_backend "pulp necrosis" fresh_world = (Resolved result, w') /\
    prompts result = synthesized_prompts "pulp necrosis" /\
    length (prompts result) = 3%nat /\
    Forall nonempty_prompt (prompts result).
Proof.
  eapply (research_survives_unparseable_response (fun _ => 0%Q) (Some "key") "key"
            JSON_parse_fragment prose_backend "pulp necrosis" fresh_world).
  - reflexivity.
  - reflexivity.
  - vm_compute. reflexivity.
Defined.

(** A value [withRetry] resolves with is the value of one of its
    attempts. *)
Lemma withRetry_loop_resolved {N T} (random : nat -> Q) (fn : nat -> M N T)
    (retries : nat) (retryOnQuota : bool) (fuel : nat) :
  forall i lastError (w w' : World N) (v : T),
    withRetry_loop random fn retries retryOnQuota fuel i lastError w = (Resolved v, w') ->
    exists j w1, fn j w1 = (Resolved v, w').
Proof.
  induction fuel as [|fuel IH]; intros i lastError w w' v; [done|].
  rewrite withRetry_loop_step.
  destruct (fn i _) as [[v0|error] w1] eqn:Hfn.
  - intros [= <- <-]. eauto.
  - destruct (isRetryableError error retryOnQuota) as [[|]|te]; try done.
    destruct (Z.of_nat i <? Z.of_nat retries - 1)%Z; [|done].
    apply IH.
Qed.

(** A value the fallback resolves with is the value of its operation on
    one of the models. *)
Lemma fallback_loop_resolved {N T} (operation : string -> string -> M N T)
    (models : list string) (apiKey : string) (rest : list string) :
  forall lastError (w w' : World N) (v : T),
    fallback_loop operation models apiKey rest lastError w = (Resolved v, w') ->
    exists model w1, operation model apiKey w1 = (Resolved v, w').
Proof.
  induction rest as [|model rest IH]; intros lastError w w' v; [done|].
  rewrite fallback_loop_step.
  destruct (operation model apiKey _) as [[v0|error] w1] eqn:Hop.
  - intros [= <- <-]. eauto.
  - destruct error as [|t|o]; [done| |];
      destruct (indexOf models model <? _)%Z; apply IH.
Qed.

(** Whenever the research task resolves, it does so with exactly three
    prompts. *)
Lemma research_result_has_three_prompts {N} (random : nat -> Q)
    (API_KEY : option string) (JSON_parse : string -> option Json)
    (generateContent : Request -> N -> Result Response * N) (topic : string)
    (w w' : World N) (result : ResearchResult) :
  generateResearchContent random API_KEY JSON_parse generateContent topic w
    = (Resolved result, w') ->
  length (prompts result) = 3%nat.
Proof.
  unfold generateResearchContent. rewrite withModelFallback_check.
  destruct (usable_key API_KEY) as [k|]; [|done].
  intros (model & w1 & Hop)%fallback_loop_resolved.
  apply withRetry_loop_resolved in Hop as (j & w2 & Hfn).
  destruct (generateContent (research_request topic model k) (net w2))
    as [[resp|e] n'] eqn:Hresp.
  - destruct (research_attempt_response JSON_parse generateContent topic model k
                w2 resp n' Hresp) as (ps & Hrun & _ & Hlen).
    rewrite Hrun in Hfn. now injection Hfn as <- _.
  - unfold research_attempt, bind, lift_net in Hfn. now rewrite Hresp in Hfn.
Qed.

(** ** The parser of backend text *)

Lemma all_chars_app (P : ascii -> bool) (x y : string) :
  all_chars P (x +:+ y) = all_chars P x && all_chars P y.
Proof.
  induction x as [|a x IH]; simpl; [done|].
  now rewrite IH, andb_assoc.
Qed.

Lemma length_app_string (x y : string) :
  String.length (x +:+ y) = (String.length x + String.length y)%nat.
Proof. induction x as [|a x IH]; simpl; [done | now rewrite IH]. Qed.

Lemma append_assoc (x y z : string) : (x +:+ y) +:+ z = x +:+ y +:+ z.
Proof.
  induction x as [|a x IH]; [done|].
  change (String a ((x +:+ y) +:+ z) = String a (x +:+ y +:+ z)).
  now rewrite IH.
Qed.

Lemma startsWith_length (hay needle : string) :
  Js.startsWith hay needle = true -> (String.length needle <= String.length hay)%nat.
Proof.
  revert hay; induction needle as [|a n IH]; intros [|b h]; simpl; try done; try lia.
  intros [_ H]%andb_prop. apply IH in H. lia.
Qed.

Lemma startsWith_app (hay z needle : string) :
  Js.startsWith hay needle = true -> Js.startsWith (hay +:+ z) needle = true.
Proof.
  revert hay; induction needle as [|a n IH]; intros [|b h]; simpl; try done.
  intros [-> H]%andb_prop. now apply IH.
Qed.

Lemma startsWith_prefix (hay n1 n2 : string) :
  Js.startsWith hay (n1 +:+ n2) = true -> Js.startsWith hay n1 = true.
Proof.
  revert hay; induction n1 as [|a n IH]; intros [|b h]; simpl; try done.
  intros [-> H]%andb_prop. now apply IH.
Qed.

(** A match that starts before a character the needle does not hold
    ends before it. *)
Lemma startsWith_within (x : string) (c : ascii) (y needle : string) :
  all_chars (fun a => negb (Ascii.eqb a c)) needle = true ->
  Js.startsWith (x +:+ String c y) needle = true ->
  Js.startsWith x needle = true.
Proof.
  revert x; induction needle as [|a n IH]; intros x Havoid; [now destruct x|].
  cbn [all_chars] in Havoid. apply andb_prop in Havoid as [Hac Havoid].
  destruct x as [|b x]; simpl.
  - intros [Heq _]%andb_prop. now rewrite Heq in Hac.
  - intros [-> H]%andb_prop. now apply IH.
Qed.

Lemma is_brace_cases (c : ascii) :
  is_brace c = true -> c = "{"%char \/ c = "}"%char.
Proof.
  unfold is_brace. intros [H|H]%orb_prop; apply Ascii.eqb_eq in H; auto.
Qed.

Lemma fence_at_zero (s : string) :
  Js.startsWith s fence = false -> fence_at s = 0%nat.
Proof.
  intros Hno. unfold fence_at.
  destruct (Js.startsWith s (fence_json +:+ LF)) eqn:H1.
  { apply (startsWith_prefix s fence ("json" +:+ LF)) in H1. congruence. }
  destruct (Js.startsWith s fence_json) eqn:H2.
  { apply (startsWith_prefix s fence "json") in H2. congruence. }
  now rewrite Hno.
Qed.

(** A fence that starts before a brace ends before it. *)
Lemma fence_at_within (x : string) (c : ascii) (y : string) :
  is_brace c = true ->
  (fence_at (x +:+ String c y) <= String.length x)%nat.
Proof.
  intros Hc. unfold fence_at.
  assert (Havoid : forall needle,
            needle = fence_json +:+ LF \/ needle = fence_json \/ needle = fence ->
            all_chars (fun a => negb (Ascii.eqb a c)) needle = true).
  { intros needle Hn. apply is_brace_cases in Hc as [->| ->];
      destruct Hn as [->|[->| ->]]; reflexivity. }
  destruct (Js.startsWith _ (fence_json +:+ LF)) eqn:H1.
  { apply startsWith_within, startsWith_length in H1; auto. }
  destruct (Js.startsWith _ fence_json) eqn:H2.
  { apply startsWith_within, startsWith_length in H2; auto. }
  destruct (Js.startsWith _ fence) eqn:H3; [|lia].
  apply startsWith_within, startsWith_length in H3; auto.
Qed.

(** Stripping the fences of a text without braces that is followed by a
    brace leaves a text without braces, and starts afresh at the
    brace. *)
Lemma strip_fences_before_brace (x : string) (c : ascii) (y : string) :
  is_brace c = true ->
  brace_free x = true ->
  forall k, (k <= String.length x)%nat ->
  exists x',
    strip_fences_from k (x +:+ String c y) = x' +:+ strip_fences_from 0 (String c y) /\
    brace_free x' = true.
Proof.
  intros Hc. induction x as [|a x IH]; intros Hfree k Hk.
  - exists EmptyString. cbn in Hk. now replace k with 0%nat by lia.
  - unfold brace_free in Hfree. cbn [all_chars] in Hfree.
    apply andb_prop in Hfree as [Ha Hfree]. cbn [String.length] in Hk.
    change (String a x +:+ String c y) with (String a (x +:+ String c y)).
    cbn [strip_fences_from]. destruct k as [|k].
    + pose proof (fence_at_within (String a x) c y Hc) as Hwithin.
      change (String a x +:+ String c y) with (String a (x +:+ String c y)) in Hwithin.
      cbn [String.length] in Hwithin.
      destruct (fence_at (String a (x +:+ String c y))) as [|k'].
      * destruct (IH Hfree 0%nat ltac:(lia)) as (x' & -> & Hx').
        exists (String a x'). split; [done|].
        unfold brace_free. cbn [all_chars]. now rewrite Ha.
      * destruct (IH Hfree k' ltac:(lia)) as (x' & -> & Hx'). now exists x'.
    + destruct (IH Hfree k ltac:(lia)) as (x' & -> & Hx'). now exists x'.
Qed.

Lemma includes_cons_false (a : ascii) (s needle : string) :
  Js.includes (String a s) needle = false ->
  Js.startsWith (String a s) needle = false /\ Js.includes s needle = false.
Proof. rewrite includes_eq. now intros [? ?]%orb_false_elim. Qed.

(** A text that holds no fence and ends with a closing brace goes
    through the stripping unchanged, whatever follows it. *)
Lemma strip_fences_body (b post : string) :
  Js.includes (b +:+ "}") fence = false ->
  strip_fences_from 0 (b +:+ String "}" post) =
    b +:+ String "}" (strip_fences_from 0 post).
Proof.
  induction b as [|a b IH]; intros Hnone.
  - reflexivity.
  - change (String a b +:+ "}") with (String a (b +:+ "}")) in Hnone.
    apply includes_cons_false in Hnone as [Hhead Htail].
    change (String a b +:+ String "}" post)
      with (String a (b +:+ String "}" post)).
    cbn [strip_fences_from].
    rewrite fence_at_zero.
    + change (String a b +:+ String "}" (strip_fences_from 0 post))
        with (String a (b +:+ String "}" (strip_fences_from 0 post))).
      f_equal. now apply IH.
    + destruct (Js.startsWith (String a (b +:+ String "}" post)) fence) eqn:Hs; [|done].
      apply (startsWith_within (String a b) "}" post fence) in Hs; [|reflexivity].
      apply (startsWith_app _ "}") in Hs.
      change (String a b +:+ "}") with (String a (b +:+ "}")) in Hs. congruence.
Qed.

Lemma strip_fences_brace_free (s : string) :
  brace_free s = true -> forall k, brace_free (strip_fences_from k s) = true.
Proof.
  unfold brace_free. induction s as [|a s IH]; intros Hfree k; [done|].
  cbn [all_chars] in Hfree. apply andb_prop in Hfree as [Ha Hfree].
  cbn [strip_fences_from]. destruct k as [|k]; [|now apply IH].
  destruct (fence_at (String a s)); [|now apply IH].
  cbn [all_chars]. rewrite Ha. now apply IH.
Qed.

Lemma white_space_brace_free (ws : string) :
  List.In ws Js.white_space -> brace_free ws = true.
Proof.
  unfold Js.white_space. cbn [List.In]. intros Hin.
  repeat (destruct Hin as [<-|Hin]; [reflexivity|]). destruct Hin.
Qed.

(** A text without braces that starts a text cut at a brace ends before
    the brace. *)
Lemma prefix_before_brace (ws t x : string) (c : ascii) (y : string) :
  is_brace c = true ->
  brace_free ws = true ->
  ws +:+ t = x +:+ String c y ->
  exists x2, x = ws +:+ x2 /\ t = x2 +:+ String c y.
Proof.
  intros Hc. revert x. induction ws as [|a ws IH]; intros x Hws Heq.
  - now exists x.
  - unfold brace_free in Hws. cbn [all_chars] in Hws.
    apply andb_prop in Hws as [Ha Hws].
    change (String a ws +:+ t) with (String a (ws +:+ t)) in Heq.
    destruct x as [|b x].
    + change (EmptyString +:+ String c y) with (String c y) in Heq.
      injection Heq as -> _. now rewrite Hc in Ha.
    + change (String b x +:+ String c y) with (String b (x +:+ String c y)) in Heq.
      injection Heq as -> Heq.
      destruct (IH x Hws Heq) as (x2 & -> & ->). now exists x2.
Qed.

(** Trimming the start of a text without braces that is followed by a
    brace stops before the brace at the latest. *)
Lemma trimStart_before (x : string) (c : ascii) (y : string) :
  is_brace c = true ->
  brace_free x = true ->
  exists x',
    Js.trimStart (x +:+ String c y) = x' +:+ String c y /\ brace_free x' = true.
Proof.
  intros Hc. remember (String.length x) as n eqn:Hn. revert x Hn.
  induction n as [n IH] using lt_wf_ind. intros x -> Hfree.
  destruct (trimStart_cases (x +:+ String c y))
    as [Hsame|(ws & t & Hin & Hs & Htrim & _)].
  - now exists x.
  - symmetry in Hs.
    destruct (prefix_before_brace ws t x c y Hc (white_space_brace_free ws Hin) Hs)
      as (x2 & -> & ->).
    destruct (trimStart_white ws EmptyString Hin) as (_ & _ & Hpos).
    unfold brace_free in Hfree. rewrite all_chars_app in Hfree.
    apply andb_prop in Hfree as [_ Hx2].
    rewrite Htrim. apply (IH (String.length x2)); [|done|exact Hx2].
    rewrite length_app_string. lia.
Qed.

Lemma trimStart_before_brace (x r : string) :
  brace_free x = true ->
  exists x',
    Js.trimStart (x +:+ String "{" r) = x' +:+ String "{" r /\ brace_free x' = true.
Proof. now apply trimStart_before. Qed.

(** The first brace of a text that holds one. *)
Lemma first_brace (s : string) :
  brace_free s = false ->
  exists x c y, s = x +:+ String c y /\ is_brace c = true /\ brace_free x = true.
Proof.
  induction s as [|a s IH]; [done|]. unfold brace_free. cbn [all_chars].
  destruct (is_brace a) eqn:Ha; cbn [negb andb].
  - intros _. now exists EmptyString, a, s.
  - intros Hs. destruct (IH Hs) as (x & c & y & -> & Hc & Hx).
    exists (String a x), c, y. split; [done|]. split; [done|].
    unfold brace_free. cbn [all_chars]. now rewrite Ha.
Qed.

(** A text that holds a brace is not trimmed away. *)
Lemma trimStart_keeps_brace (s : string) :
  brace_free s = false -> Js.trimStart s <> EmptyString.
Proof.
  intros (x & c & y & -> & Hc & Hx)%first_brace.
  destruct (trimStart_before x c y Hc Hx) as (x' & -> & _). now destruct x'.
Qed.

Lemma trimEnd_all_chars (P : ascii -> bool) (s : string) :
  all_chars P s = true -> all_chars P (Js.trimEnd s) = true.
Proof.
  induction s as [|a s IH]; [done|]. cbn [all_chars Js.trimEnd].
  intros [Ha Hs]%andb_prop. specialize (IH Hs).
  destruct (String.eqb _ _); [done|]. cbn [all_chars]. now rewrite Ha.
Qed.

Lemma trimEnd_after_brace (u post : string) :
  Js.trimEnd (u +:+ String "}" post) = u +:+ String "}" (Js.trimEnd post).
Proof.
  assert (Hkeep : forall a r, brace_free (String a r) = false ->
            Js.trimEnd (String a r) = String a (Js.trimEnd r)).
  { intros a r Hbrace. cbn [Js.trimEnd].
    destruct (String.eqb_spec (Js.trimStart (String a r)) EmptyString) as [He|_];
      [|done].
    now apply trimStart_keeps_brace in He. }
  induction u as [|a u IH].
  - change (EmptyString +:+ String "}" post) with (String "}" post).
    now apply Hkeep.
  - change (String a u +:+ String "}" post) with (String a (u +:+ String "}" post)).
    rewrite Hkeep, IH; [done|].
    change (String a (u +:+ String "}" post)) with (String a u +:+ String "}" post).
    unfold brace_free. rewrite all_chars_app. cbn [all_chars].
    change (negb (is_brace "}")) with false. cbn [andb]. apply andb_false_r.
Qed.

Lemma indexOf_before_brace (x r : string) :
  brace_free x = true ->
  Js.indexOf (x +:+ String "{" r) "{" = Z.of_nat (String.length x).
Proof.
  induction x as [|a x IH]; intros Hfree; [done|].
  unfold brace_free in Hfree. cbn [all_chars] in Hfree.
  apply andb_prop in Hfree as [Ha Hx].
  change (String a x +:+ String "{" r) with (String a (x +:+ String "{" r)).
  cbn [Js.indexOf String.length]. rewrite (IH Hx).
  unfold is_brace in Ha. apply negb_true_iff, orb_false_elim in Ha as [-> _].
  destruct (Z.eqb_spec (Z.of_nat (String.length x)) (-1)); lia.
Qed.

Lemma lastIndexOf_none (s : string) :
  brace_free s = true -> Js.lastIndexOf s "}" = (-1)%Z.
Proof.
  induction s as [|a s IH]; intros Hfree; [done|].
  unfold brace_free in Hfree. cbn [all_chars] in Hfree.
  apply andb_prop in Hfree as [Ha Hs].
  cbn [Js.lastIndexOf]. rewrite (IH Hs). cbn.
  unfold is_brace in Ha. now apply negb_true_iff, orb_false_elim in Ha as [_ ->].
Qed.

Lemma lastIndexOf_after_brace (u post : string) :
  brace_free post = true ->
  Js.lastIndexOf (u +:+ String "}" post) "}" = Z.of_nat (String.length u).
Proof.
  intros Hfree. induction u as [|a u IH].
  - simpl. now rewrite (lastIndexOf_none post Hfree).
  - change (String a u +:+ String "}" post) with (String a (u +:+ String "}" post)).
    cbn [Js.lastIndexOf String.length]. rewrite IH.
    destruct (Z.eqb_spec (Z.of_nat (String.length u)) (-1)); lia.
Qed.

Lemma drop_app (x y : string) : Js.drop (String.length x) (x +:+ y) = y.
Proof. induction x as [|a x IH]; [now destruct y | exact IH]. Qed.

Lemma take_app (x y : string) : Js.take (String.length x) (x +:+ y) = x.
Proof. induction x as [|a x IH]; simpl; [now destruct y | now rewrite IH]. Qed.

Lemma substring_middle (x y z : string) :
  Js.substring (x +:+ y +:+ z) (Z.of_nat (String.length x))
    (Z.of_nat (String.length x + String.length y)) = y.
Proof.
  unfold Js.substring. rewrite !length_app_string.
  set (lx := String.length x). set (ly := String.length y). set (lz := String.length z).
  replace (Z.to_nat (Z.min _ _)) with lx by lia.
  replace (Z.to_nat (_ - _)) with ly by lia.
  subst lx ly. now rewrite drop_app, take_app.
Qed.

Lemma body_then_rest (mid post : string) :
  String "{" (mid +:+ "}") +:+ post = String "{" (mid +:+ String "}" post).
Proof.
  change (String "{" ((mid +:+ "}") +:+ post) = String "{" (mid +:+ String "}" post)).
  now rewrite append_assoc.
Qed.

(** The slice of a text made of a body in braces that holds no fence,
    between two texts without braces, is the body. *)
Lemma json_slice_fenced (pre mid post : string) :
  brace_free pre = true ->
  brace_free post = true ->
  Js.includes (String "{" (mid +:+ "}")) fence = false ->
  json_slice (pre +:+ String "{" (mid +:+ "}") +:+ post) = String "{" (mid +:+ "}").
Proof.
  intros Hpre Hpost Hnone. unfold json_slice, strip_fences.
  assert (Hshape : pre +:+ String "{" (mid +:+ "}") +:+ post
                   = pre +:+ String "{" (mid +:+ String "}" post)).
  { now rewrite body_then_rest. }
  rewrite Hshape.
  destruct (strip_fences_before_brace pre "{" (mid +:+ String "}" post)
              eq_refl Hpre 0%nat ltac:(lia)) as (pre1 & -> & Hpre1).
  change (String "{" (mid +:+ String "}" post))
    with (String "{" mid +:+ String "}" post).
  rewrite (strip_fences_body (String "{" mid) post Hnone).
  pose proof (strip_fences_brace_free post Hpost 0) as Hpost1.
  set (post1 := strip_fences_from 0 post) in *.
  change (String "{" mid +:+ String "}" post1)
    with (String "{" (mid +:+ String "}" post1)).
  unfold Js.trim.
  destruct (trimStart_before_brace pre1 (mid +:+ String "}" post1) Hpre1)
    as (pre2 & -> & Hpre2).
  assert (Hu : forall p, pre2 +:+ String "{" (mid +:+ String "}" p)
                         = (pre2 +:+ String "{" mid) +:+ String "}" p).
  { intros p. now rewrite append_assoc. }
  rewrite Hu, trimEnd_after_brace.
  pose proof (trimEnd_all_chars _ post1 Hpost1) as Hpost2.
  set (post2 := Js.trimEnd post1) in *.
  rewrite (lastIndexOf_after_brace _ post2 Hpost2).
  rewrite <- Hu, (indexOf_before_brace pre2 _ Hpre2).
  assert (Hfirst : (Z.of_nat (String.length pre2) =? -1)%Z = false)
    by (apply Z.eqb_neq; lia).
  assert (Hlast : (Z.of_nat (String.length (pre2 +:+ String "{" mid)) =? -1)%Z = false)
    by (apply Z.eqb_neq; lia).
  rewrite Hfirst, Hlast. cbn [negb andb].
  replace (pre2 +:+ String "{" (mid +:+ String "}" post2))
    with (pre2 +:+ String "{" (mid +:+ "}") +:+ post2).
  - replace (Z.of_nat (String.length (pre2 +:+ String "{" mid)) + 1)%Z
      with (Z.of_nat (String.length pre2 + String.length (String "{" (mid +:+ "}")))).
    + apply substring_middle.
    + rewrite length_app_string. cbn [String.length].
      rewrite length_app_string. cbn [String.length]. lia.
  - now rewrite body_then_rest.
Qed.

Lemma nonempty_text (x : string) (c : ascii) (y : string) :
  Js.nonempty (Some (x +:+ String c y)) = Some (x +:+ String c y).
Proof. now destruct x. Qed.

(** C8, as stated, fails when the enclosed data itself holds a fence:
    the fence inside the string is stripped with the wrapping ones, and
    parsing yields other data than the enclosed one. *)
Lemma parseAIResponse_strips_fence_inside_data :
  fence_in_data_reply
    = ("Here you go: " +:+ fence_json +:+ LF) +:+ fence_in_data
      +:+ (LF +:+ fence +:+ " hope it helps") /\
  brace_free ("Here you go: " +:+ fence_json +:+ LF) = true /\
  brace_free (LF +:+ fence +:+ " hope it helps") = true /\
  JSON_parse_fragment fence_in_data = Some (JObject [("a", JString fence)]) /\
  parseAIResponse JSON_parse_fragment (Some fence_in_data_reply)
    = Resolved (JObject [("a", JString "")]).
Proof. repeat split; vm_compute; reflexivity. Qed.

(** C8, amended. [parseAIResponse] rejects an empty or missing body
    with a fatal error; otherwise it strips the fences, slices from the
    first opening to the last closing brace when both exist, parses the
    slice and rejects with a fatal error when that fails.  For a text
    made of data in braces that holds no fence, between two texts
    without braces (the fences and the prose), the slice is the data and
    parsing yields what [JSON.parse] yields for it. *)
Theorem parseAIResponse_fenced_data (JSON_parse : string -> option Json)
    (pre mid post : string) :
  (forall response,
     parseAIResponse JSON_parse response =
       match Js.nonempty response with
       | None => Rejected (new_Error empty_response_message)
       | Some t =>
           match JSON_parse (json_slice t) with
           | Some v => Resolved v
           | None => Rejected (new_Error parse_failure_message)
           end
       end) /\
  classify (new_Error empty_response_message) = Some Fatal /\
  classify (new_Error parse_failure_message) = Some Fatal /\
  (brace_free pre = true ->
   brace_free post = true ->
   Js.includes (String "{" (mid +:+ "}")) fence = false ->
   json_slice (pre +:+ String "{" (mid +:+ "}") +:+ post) = String "{" (mid +:+ "}") /\
   forall v,
     JSON_parse (String "{" (mid +:+ "}")) = Some v ->
     parseAIResponse JSON_parse (Some (pre +:+ String "{" (mid +:+ "}") +:+ post))
       = Resolved v).
Proof.
  split; [reflexivity|]. split; [reflexivity|]. split; [reflexivity|].
  intros Hpre Hpost Hnone.
  pose proof (json_slice_fenced pre mid post Hpre Hpost Hnone) as Hslice.
  split; [exact Hslice|]. intros v Hv.
  unfold parseAIResponse.
  change (String "{" (mid +:+ "}") +:+ post)
    with (String "{" ((mid +:+ "}") +:+ post)) in *.
  rewrite nonempty_text, Hslice, Hv. reflexivity.
Qed.

(** A fenced reply with prose around it parses to its data. *)
Lemma parseAIResponse_fenced_data_witness :
  parseAIResponse JSON_parse_fragment (Some plain_reply)
    = Resolved (JObject [("ok", JBool true)]).
Proof.
  refine (proj2 (proj2 (proj2 (proj2
            (parseAIResponse_fenced_data JSON_parse_fragment
               ("Sure! " +:+ fence_json +:+ LF)
               (quote +:+ "ok" +:+ quote +:+ ": true")
               (LF +:+ fence +:+ " Anything else?")))) _ _ _) _ _);
    vm_compute; reflexivity.
Defined.

(** ** The request handler and its image loops *)

Module AppProperties.

Import App AppSpec.

Ltac run_app :=
  unfold request_image, sleep, append_message;
  unfold modify, modify_try, record, call;
  unfold bind, try_catch, try_finally, ret, throw;
  cbn [state trace service fst snd].

Section Loops.

Context {B : Type} `{Service B}.

(** One iteration of the gallery loop. *)
Lemma gallery_loop_step (it : GalleryItem) (rest : list GalleryItem) (i : nat)
    (w : AppWorld B) :
  gallery_loop (it :: rest) i w =
    let (r, b') := generateRealisticDentalImage (prompt it) CLINICAL (service w) in
    gallery_loop rest (S i)
      (mkAppWorld
         (updateGalleryItems
            (match r with
             | Resolved img => item_outcome i img
             | Rejected _ => item_failed i
             end) (state w))
         (trace w ++
          [Requested (prompt it) CLINICAL; Settled r;
           Recorded i (if succeeded r then Completed else Failed)]
          ++ (if succeeded r then [Cooldown 6000] else []))
         b').
Proof.
  cbn [gallery_loop]. run_app.
  destruct (generateRealisticDentalImage _ _ _) as [[img|e] b']; cbn [succeeded].
  - destruct (produced img); run_app; rewrite <- !app_assoc; reflexivity.
  - run_app; rewrite <- !app_assoc; reflexivity.
Qed.

(** One iteration of the practical loop, for a step with a prompt. *)
Lemma practical_loop_step (st : PracticalStep) (rest : list PracticalStep)
    (i : nat) (p : string) (w : AppWorld B) :
  Js.nonempty (visualPrompt st) = Some p ->
  practical_loop (st :: rest) i w =
    match mark_loading i (practicalData (state w)) with
    | Rejected e => (Rejected e, w)
    | Resolved d =>
        let (r, b') := generateRealisticDentalImage p CLINICAL (service w) in
        practical_loop rest (S i)
          (mkAppWorld
             (updatePracticalData
                (match r with
                 | Resolved img => step_outcome i img
                 | Rejected _ => step_failed i
                 end) (setPracticalData d (state w)))
             (trace w ++
              [Requested p CLINICAL; Settled r;
               Recorded i (if succeeded r then Completed else Failed)]
              ++ (if succeeded r then [Cooldown 6000] else []))
             b')
    end.
Proof.
  intros Hp. cbn [practical_loop]. rewrite Hp. run_app.
  destruct (mark_loading i _) as [d|e]; [|done]. cbn [state trace service].
  destruct (generateRealisticDentalImage _ _ _) as [[img|e] b']; cbn [succeeded].
  - destruct (produced img); run_app; rewrite <- !app_assoc; reflexivity.
  - run_app; rewrite <- !app_assoc; reflexivity.
Qed.

(** A step without a prompt is passed over. *)
Lemma practical_loop_skip (st : PracticalStep) (rest : list PracticalStep)
    (i : nat) (w : AppWorld B) :
  Js.nonempty (visualPrompt st) = None ->
  practical_loop (st :: rest) i w = practical_loop rest (S i) w.
Proof. intros Hp. cbn [practical_loop]. now rewrite Hp. Qed.

(** One iteration of the simulation loop. *)
Lemma simulation_loop_step (p : string) (type : ImageType) (key : ImageKey)
    (rest : list (string * ImageType * ImageKey)) (w : AppWorld B) :
  simulation_loop ((p, type, key) :: rest) w =
    let (r, b') := generateRealisticDentalImage p type (service w) in
    simulation_loop rest
      (mkAppWorld
         (match r with
          | Resolved img =>
              match Js.nonempty img with
              | Some u => updateSimulationData (store_image key u) (state w)
              | None => state w
              end
          | Rejected _ => state w
          end)
         (trace w ++
          [Requested p type; Settled r]
          ++ match r with
             | Resolved img =>
                 match Js.nonempty img with
                 | Some _ => [Stored key; Cooldown 6000]
                 | None => [Cooldown 6000]
                 end
             | Rejected _ => []
             end)
         b').
Proof.
  cbn [simulation_loop]. run_app.
  destruct (generateRealisticDentalImage _ _ _) as [[img|e] b'].
  - destruct (Js.nonempty img); run_app; rewrite <- !app_assoc; reflexivity.
  - run_app; rewrite <- !app_assoc; reflexivity.
Qed.



End Loops.

(** C1, at a failing input. In the simulation loop a sub-request that
    returns no image is still followed by the wait of 6000 ms, unlike in
    the practical and gallery loops. *)
Theorem simulation_cooldown_after_failed_image {B : Type} `{Service B}
    (p : string) (type : ImageType) (key : ImageKey)
    (rest : list (string * ImageType * ImageKey)) (w : AppWorld B) (b' : B) :
  generateRealisticDentalImage p type (service w) = (Resolved None, b') ->
  simulation_loop ((p, type, key) :: rest) w =
    simulation_loop rest
      (mkAppWorld (state w)
         (trace w ++ [Requested p type; Settled (Resolved None); Cooldown 6000]) b').
Proof.
  intros Hnone. now rewrite simulation_loop_step, Hnone.
Qed.

(** The radiological sub-request of the sample service returns no
    image and the loop still waits. *)
Lemma simulation_cooldown_after_failed_image_witness :
  simulation_loop (H := failing_service) [("bad", RADIOLOGY, key_radiologyUrl)]
    (sample_world simulation) =
    (Resolved tt,
     mkAppWorld (sample_state simulation)
       [Requested "bad" RADIOLOGY; Settled (Resolved None); Cooldown 6000] 1%nat).
Proof.
  exact (simulation_cooldown_after_failed_image (H := failing_service)
           "bad" RADIOLOGY key_radiologyUrl [] (sample_world simulation) 1%nat eq_refl).
Defined.

Section Isolation.

Context {B : Type} `{Service B}.

Lemma succeeded_true (r : Result (option string)) :
  succeeded r = true -> exists img, r = Resolved img /\ produced img = true.
Proof. destruct r as [img|e]; [eauto|done]. Qed.

(** The statuses the gallery loop leaves for three items of which the
    second fails, and its log. *)
Lemma gallery_three_items (it1 it2 it3 : GalleryItem) (w : AppWorld B) :
  always_succeeds (prompt it1) ->
  always_fails (prompt it2) ->
  always_succeeds (prompt it3) ->
  galleryItems (state w) = [it1; it2; it3] ->
  exists w' r1 r2 r3,
    gallery_loop [it1; it2; it3] 0 w = (Resolved tt, w') /\
    status <$> galleryItems (state w') = [Completed; Failed; Completed] /\
    trace w' = trace w ++
      [Requested (prompt it1) CLINICAL; Settled r1; Recorded 0 Completed; Cooldown 6000;
       Requested (prompt it2) CLINICAL; Settled r2; Recorded 1 Failed;
       Requested (prompt it3) CLINICAL; Settled r3; Recorded 2 Completed; Cooldown 6000].
Proof.
  intros Hs1 Hf2 Hs3 Hitems.
  rewrite gallery_loop_step.
  specialize (Hs1 (service w)).
  destruct (generateRealisticDentalImage (prompt it1) CLINICAL (service w)) as [r1 b1].
  cbn [fst] in Hs1. rewrite Hs1.
  apply succeeded_true in Hs1 as (img1 & -> & Hp1).
  rewrite gallery_loop_step. cbn [state trace service].
  specialize (Hf2 b1).
  destruct (generateRealisticDentalImage (prompt it2) CLINICAL b1) as [r2 b2].
  cbn [fst] in Hf2. rewrite Hf2.
  rewrite gallery_loop_step. cbn [state trace service].
  specialize (Hs3 b2).
  destruct (generateRealisticDentalImage (prompt it3) CLINICAL b2) as [r3 b3].
  cbn [fst] in Hs3. rewrite Hs3.
  apply succeeded_true in Hs3 as (img3 & -> & Hp3).
  eexists _, (Resolved img1), r2, (Resolved img3).
  split; [reflexivity|]. cbn [state trace]. split.
  - cbn [galleryItems updateGalleryItems]. rewrite Hitems.
    destruct r2 as [img2|e2]; cbn [succeeded] in Hf2;
      cbn; rewrite ?Hp1, ?Hf2, ?Hp3; reflexivity.
  - rewrite <- !app_assoc. reflexivity.
Qed.

Lemma element_lt {A} (arr : list (option A)) (i : nat) (x : A) :
  element arr i = Some x -> (i < length arr)%nat.
Proof.
  unfold element. destruct (arr !! i) as [o|] eqn:Hl; [|done].
  intros _. now apply lookup_lt_Some in Hl.
Qed.

Lemma array_set_lt {A} (arr : list (option A)) (i : nat) (x : A) :
  (i < length arr)%nat -> array_set i x arr = <[i := Some x]> arr.
Proof.
  intros Hlt. unfold array_set.
  now destruct (Nat.ltb_spec i (length arr)); [|lia].
Qed.

Lemma element_array_set {A} (arr : list (option A)) (i : nat) (x : A) :
  (i < length arr)%nat -> element (array_set i x arr) i = Some x.
Proof.
  intros Hlt. rewrite array_set_lt by done. unfold element.
  now rewrite list_lookup_insert_eq.
Qed.

Lemma array_set_twice {A} (arr : list (option A)) (i : nat) (x y : A) :
  (i < length arr)%nat -> array_set i x (array_set i y arr) = array_set i x arr.
Proof.
  intros Hlt. rewrite (array_set_lt arr i y) by done.
  rewrite !array_set_lt by (rewrite ?length_insert; done).
  apply list_insert_insert_eq.
Qed.

(** Marking a step that is there as loading never throws, and the
    outcome written next replaces whatever the marking wrote. *)
Lemma mark_loading_resolved (c : ClinicalData) (steps : list (option PracticalStep))
    (i : nat) (st : PracticalStep) :
  practicalProtocol c = Some steps ->
  element steps i = Some st ->
  exists d,
    mark_loading i (Some c) = Resolved d /\
    (forall img,
       step_outcome i img d =
         Some (with_protocol c
                 (array_set i
                    (with_image st (Js.nonempty img)
                       (if produced img then Completed else Failed)) steps))) /\
    step_failed i d = Some (with_protocol c (array_set i (with_status st Failed) steps)).
Proof.
  intros Hprotocol Hel. pose proof (element_lt _ _ _ Hel) as Hlt.
  unfold mark_loading. cbn [from_option]. rewrite Hprotocol, Hel.
  assert (Hsame : exists d,
            Resolved (Some (with_protocol c steps)) = Resolved d /\
            (forall img,
               step_outcome i img d =
                 Some (with_protocol c
                         (array_set i
                            (with_image st (Js.nonempty img)
                               (if produced img then Completed else Failed)) steps))) /\
            step_failed i d
              = Some (with_protocol c (array_set i (with_status st Failed) steps))).
  { eexists. split; [reflexivity|].
    unfold step_outcome, step_failed.
    cbn [from_option practicalProtocol with_protocol]. now rewrite Hel. }
  destruct (imageStatus st) as [[| | |]|]; try exact Hsame.
  eexists. split; [reflexivity|].
  unfold step_outcome, step_failed.
  cbn [from_option practicalProtocol with_protocol].
  rewrite element_array_set by done.
  split; [intros img|]; rewrite array_set_twice by done; reflexivity.
Qed.

Lemma practicalData_update (f : option ClinicalData -> option ClinicalData)
    (d : option ClinicalData) (s : AppState) :
  practicalData (updatePracticalData f (setPracticalData d s)) = f d.
Proof. reflexivity. Qed.

(** The same for the practical loop over three steps with prompts. *)
Lemma practical_three_steps (st1 st2 st3 : PracticalStep) (p1 p2 p3 : string)
    (c : ClinicalData) (w : AppWorld B) :
  Js.nonempty (visualPrompt st1) = Some p1 ->
  Js.nonempty (visualPrompt st2) = Some p2 ->
  Js.nonempty (visualPrompt st3) = Some p3 ->
  always_succeeds p1 ->
  always_fails p2 ->
  always_succeeds p3 ->
  practicalData (state w) = Some c ->
  practicalProtocol c = Some [Some st1; Some st2; Some st3] ->
  exists w' c' steps' r1 r2 r3,
    practical_loop [st1; st2; st3] 0 w = (Resolved tt, w') /\
    practicalData (state w') = Some c' /\
    practicalProtocol c' = Some steps' /\
    (fun st => st ≫= imageStatus) <$> steps'
      = [Some Completed; Some Failed; Some Completed] /\
    trace w' = trace w ++
      [Requested p1 CLINICAL; Settled r1; Recorded 0 Completed; Cooldown 6000;
       Requested p2 CLINICAL; Settled r2; Recorded 1 Failed;
       Requested p3 CLINICAL; Settled r3; Recorded 2 Completed; Cooldown 6000].
Proof.
  intros Hv1 Hv2 Hv3 Hs1 Hf2 Hs3 Hdata Hprotocol.
  (* first step *)
  rewrite (practical_loop_step st1 _ 0 p1 w Hv1), Hdata.
  destruct (mark_loading_resolved c _ 0 st1 Hprotocol eq_refl)
    as (d1 & -> & Ho1 & _).
  specialize (Hs1 (service w)).
  destruct (generateRealisticDentalImage p1 CLINICAL (service w)) as [r1 b1].
  cbn [fst] in Hs1. rewrite Hs1.
  apply succeeded_true in Hs1 as (img1 & -> & Hp1).
  (* second step *)
  rewrite (practical_loop_step st2 _ 1 p2 _ Hv2).
  cbn [state trace service]. rewrite practicalData_update, Ho1, Hp1.
  match goal with
  | |- context [mark_loading 1 (Some ?c1)] =>
      destruct (mark_loading_resolved c1 _ 1 st2 eq_refl eq_refl)
        as (d2 & -> & Ho2 & Hfail2)
  end.
  specialize (Hf2 b1).
  destruct (generateRealisticDentalImage p2 CLINICAL b1) as [r2 b2].
  cbn [fst] in Hf2. rewrite Hf2.
  (* third step *)
  rewrite (practical_loop_step st3 _ 2 p3 _ Hv3).
  cbn [state trace service]. rewrite practicalData_update.
  assert (Hsecond :
    match r2 with
    | Resolved img => step_outcome 1 img
    | Rejected _ => step_failed 1
    end d2 = Some (with_protocol c
                     [Some (with_image st1 (Js.nonempty img1) Completed);
                      Some (with_image st2
                              match r2 with
                              | Resolved img => Js.nonempty img
                              | Rejected _ => imageUrl st2
                              end Failed);
                      Some st3])).
  { destruct r2 as [img2|e2]; cbn [succeeded] in Hf2.
    - rewrite Ho2, Hf2. reflexivity.
    - rewrite Hfail2. reflexivity. }
  rewrite Hsecond.
  match goal with
  | |- context [mark_loading 2 (Some ?c2)] =>
      destruct (mark_loading_resolved c2 _ 2 st3 eq_refl eq_refl)
        as (d3 & -> & Ho3 & _)
  end.
  specialize (Hs3 b2).
  destruct (generateRealisticDentalImage p3 CLINICAL b2) as [r3 b3].
  cbn [fst] in Hs3. rewrite Hs3.
  apply succeeded_true in Hs3 as (img3 & -> & Hp3).
  eexists _, _, _, (Resolved img1), r2, (Resolved img3).
  split; [reflexivity|]. cbn [state trace].
  rewrite practicalData_update, Ho3, Hp3.
  split; [reflexivity|]. split; [reflexivity|].
  split; [reflexivity|]. rewrite <- !app_assoc. reflexivity.
Qed.

End Isolation.

(** C6. In a batch of three sub-requests of which the second always
    fails and the others always succeed, both detached loops run to the
    end: the statuses are completed, failed, completed in array order,
    only the failed item is marked failed, and the third sub-request is
    requested after the outcome of the second is recorded. *)
Theorem failed_item_is_isolated {B : Type} `{Service B}
    (it1 it2 it3 : GalleryItem) (st1 st2 st3 : PracticalStep) (p1 p2 p3 : string)
    (c : ClinicalData) (w : AppWorld B) :
  prompt it1 = p1 -> prompt it2 = p2 -> prompt it3 = p3 ->
  Js.nonempty (visualPrompt st1) = Some p1 ->
  Js.nonempty (visualPrompt st2) = Some p2 ->
  Js.nonempty (visualPrompt st3) = Some p3 ->
  always_succeeds p1 ->
  always_fails p2 ->
  always_succeeds p3 ->
  galleryItems (state w) = [it1; it2; it3] ->
  practicalData (state w) = Some c ->
  practicalProtocol c = Some [Some st1; Some st2; Some st3] ->
  (exists w' r1 r2 r3,
     run_background (GalleryImages [it1; it2; it3]) w = (Resolved tt, w') /\
     status <$> galleryItems (state w') = [Completed; Failed; Completed] /\
     trace w' = trace w ++
       [Requested p1 CLINICAL; Settled r1; Recorded 0 Completed; Cooldown 6000;
        Requested p2 CLINICAL; Settled r2; Recorded 1 Failed;
        Requested p3 CLINICAL; Settled r3; Recorded 2 Completed; Cooldown 6000]) /\
  (exists w' c' steps' r1 r2 r3,
     run_background (PracticalImages [st1; st2; st3]) w = (Resolved tt, w') /\
     practicalData (state w') = Some c' /\
     practicalProtocol c' = Some steps' /\
     (fun st => st ≫= imageStatus) <$> steps'
       = [Some Completed; Some Failed; Some Completed] /\
     trace w' = trace w ++
       [Requested p1 CLINICAL; Settled r1; Recorded 0 Completed; Cooldown 6000;
        Requested p2 CLINICAL; Settled r2; Recorded 1 Failed;
        Requested p3 CLINICAL; Settled r3; Recorded 2 Completed; Cooldown 6000]).
Proof.
  intros <- <- <- Hv1 Hv2 Hv3 Hs1 Hf2 Hs3 Hitems Hdata Hprotocol. split.
  - now apply gallery_three_items.
  - now apply (practical_three_steps st1 st2 st3 _ _ _ c w).
Qed.

(** The sample service fails for the second prompt only. *)
Lemma failed_item_is_isolated_witness :
  (exists w' r1 r2 r3,
     run_background (H := failing_service)
       (GalleryImages [sample_item 0 "a"; sample_item 1 "bad"; sample_item 2 "c"])
       sample_batch_world = (Resolved tt, w') /\
     status <$> galleryItems (state w') = [Completed; Failed; Completed] /\
     trace w' = trace sample_batch_world ++
       [Requested "a" CLINICAL; Settled r1; Recorded 0 Completed; Cooldown 6000;
        Requested "bad" CLINICAL; Settled r2; Recorded 1 Failed;
        Requested "c" CLINICAL; Settled r3; Recorded 2 Completed; Cooldown 6000]) /\
  (exists w' c' steps' r1 r2 r3,
     run_background (H := failing_service)
       (PracticalImages [sample_step "a"; sample_step "bad"; sample_step "c"])
       sample_batch_world = (Resolved tt, w') /\
     practicalData (state w') = Some c' /\
     practicalProtocol c' = Some steps' /\
     (fun st => st ≫= imageStatus) <$> steps'
       = [Some Completed; Some Failed; Some Completed] /\
     trace w' = trace sample_batch_world ++
       [Requested "a" CLINICAL; Settled r1; Recorded 0 Completed; Cooldown 6000;
        Requested "bad" CLINICAL; Settled r2; Recorded 1 Failed;
        Requested "c" CLINICAL; Settled r3; Recorded 2 Completed; Cooldown 6000]).
Proof.
  apply (failed_item_is_isolated (H := failing_service)
           (sample_item 0 "a") (sample_item 1 "bad") (sample_item 2 "c")
           (sample_step "a") (sample_step "bad") (sample_step "c")
           "a" "bad" "c" sample_batch_protocol sample_batch_world);
    try reflexivity; intros b; reflexivity.
Defined.

Section PrimaryFailure.

Context {B : Type} `{Service B}.

(** What the [catch] block leaves: a status message, and nothing else of
    the workspaces changed. *)
Lemma handle_error_spec (e : JsError) (w : AppWorld B) :
  exists st,
    handle_error e w = (Resolved None, mkAppWorld st (trace w) (service w)) /\
    (exists msg, errorStatus st = Some msg) /\
    simulationData st = simulationData (state w) /\
    practicalData st = practicalData (state w) /\
    galleryItems st = galleryItems (state w) /\
    quizData st = quizData (state w).
Proof.
  unfold handle_error.
  destruct (_ || _); [|destruct (Js.includes _ "API_KEY")]; run_app;
    (eexists; split; [reflexivity|]); cbn; eauto 10.
Qed.

(** The handler when its primary task rejects, given what the branch
    did to the state before the task was awaited. *)
Lemma finally_after_error (tab : Tab) (e : JsError) (w : AppWorld B) :
  exists st,
    finally_block tab (handle_error e w).2 = mkAppWorld st (trace w) (service w) /\
    (handle_error e w).1 = Resolved None /\
    (exists msg, errorStatus st = Some msg) /\
    simulationData st = simulationData (state w) /\
    practicalData st = practicalData (state w) /\
    galleryItems st = galleryItems (state w) /\
    quizData st = quizData (state w).
Proof.
  destruct (handle_error_spec e w) as (st & -> & (msg & Hmsg) & Hs & Hp & Hg & Hq).
  unfold finally_block. cbn [snd fst state trace service].
  eexists. split; [reflexivity|]. split; [reflexivity|].
  destruct tab; cbn; rewrite ?Hmsg; eauto 10.
Qed.

End PrimaryFailure.

(** C2, as stated, fails in the gallery workspace: the handler empties
    the items before it awaits the research task, so after a rejection
    the items published earlier are gone. *)
Lemma gallery_failure_clears_items :
  accepts_click (sample_state gallery) = true /\
  primary_rejects (H := failing_service) (sample_state gallery) 0%nat
    (new_Error "backend down") 1%nat /\
  galleryItems (sample_state gallery)
    = [mkItem 0 "old prompt" (Some "old.png") Completed None] /\
  galleryItems (state (click (H := failing_service) (sample_world gallery)).2) = [].
Proof. repeat split. Qed.

(** C2, amended. When the primary task of the active workspace rejects,
    the handler surfaces a status message, starts no background loop and
    leaves the simulation and the practical content as they were; the
    gallery items and the quiz data of the other workspaces are
    untouched too, but those of the active workspace were cleared when
    the request started and stay cleared. *)
Theorem primary_failure_keeps_or_clears_content {B : Type} `{Service B}
    (w : AppWorld B) (e : JsError) (b' : B) :
  accepts_click (state w) = true ->
  primary_rejects (state w) (service w) e b' ->
  exists st msg,
    click w = (Resolved None, mkAppWorld st (trace w) b') /\
    errorStatus st = Some msg /\
    simulationData st = simulationData (state w) /\
    practicalData st = practicalData (state w) /\
    galleryItems st =
      match activeTab (state w) with
      | gallery => []
      | _ => galleryItems (state w)
      end /\
    quizData st =
      match activeTab (state w) with
      | quiz => None
      | _ => quizData (state w)
      end.
Proof.
  intros Hacc Hrej. unfold click, handleConvert.
  unfold accepts_click in Hacc. apply andb_prop in Hacc as [Hkey Hguard].
  apply negb_true_iff in Hkey, Hguard. rewrite Hkey, Hguard.
  unfold primary_rejects in Hrej.
  set (s := state w) in *.
  assert (Hfinish : forall (w1 : AppWorld B),
            trace w1 = trace w -> service w1 = b' ->
            exists st msg,
              (let (r, w2) := handle_error e w1 in (r, finally_block (activeTab s) w2))
                = (Resolved None, mkAppWorld st (trace w) b') /\
              errorStatus st = Some msg /\
              simulationData st = simulationData (state w1) /\
              practicalData st = practicalData (state w1) /\
              galleryItems st = galleryItems (state w1) /\
              quizData st = quizData (state w1)).
  { intros w1 Htr Hsv.
    destruct (finally_after_error (activeTab s) e w1)
      as (st & Hfin & Hres & (msg & Hmsg) & Hrest).
    destruct (handle_error e w1) as [r w2]. cbn [fst snd] in Hfin, Hres.
    subst r. rewrite Hfin, Htr, Hsv. now exists st, msg. }
  run_app.
  destruct (activeTab s) eqn:Htab.
  - unfold simulation_branch.
    destruct (Js.nonempty (uploadedImage s)) as [image|]; run_app; rewrite Hrej;
      match goal with
      | |- context [handle_error e ?w1] =>
          destruct (Hfinish w1 eq_refl eq_refl) as (st & msg & -> & Hm & Hrest)
      end; now exists st, msg.
  - destruct Hrej as [Himg Hrej]. unfold practical_branch. rewrite Himg.
    run_app. rewrite Hrej.
    match goal with
    | |- context [handle_error e ?w1] =>
        destruct (Hfinish w1 eq_refl eq_refl) as (st & msg & -> & Hm & Hrest)
    end. now exists st, msg.
  - unfold gallery_branch. run_app. rewrite Hrej.
    match goal with
    | |- context [handle_error e ?w1] =>
        destruct (Hfinish w1 eq_refl eq_refl) as (st & msg & -> & Hm & Hrest)
    end. now exists st, msg.
  - unfold quiz_branch. run_app. rewrite Hrej.
    match goal with
    | |- context [handle_error e ?w1] =>
        destruct (Hfinish w1 eq_refl eq_refl) as (st & msg & -> & Hm & Hrest)
    end. now exists st, msg.
Qed.

(** A rejected practical request leaves every workspace as it was. *)
Lemma primary_failure_keeps_or_clears_content_witness :
  exists st msg,
    click (H := failing_service) (sample_world practical)
      = (Resolved None, mkAppWorld st [] 1%nat) /\
    errorStatus st = Some msg /\
    simulationData st = simulationData (sample_state practical) /\
    practicalData st = practicalData (sample_state practical) /\
    galleryItems st = galleryItems (sample_state practical) /\
    quizData st = quizData (sample_state practical).
Proof.
  apply (primary_failure_keeps_or_clears_content (H := failing_service)
           (sample_world practical) (new_Error "backend down") 1%nat).
  - reflexivity.
  - split; reflexivity.
Defined.

End AppProperties.

(** * Further properties of the service *)

(** ** The three quota tests *)

(** The quota tests are nested: what the fallback takes for a quota
    error, the retry loop takes for one too, and what the retry loop
    takes for one is rate limited for [isRetryableError].  So the long
    waits are only ever spent on rate-limited errors. *)
Theorem quota_tests_nested (error : JsError) :
  (fallback_isQuota error = true -> retry_isQuota error = true) /\
  (retry_isQuota error = true -> classify error = Some RateLimited).
Proof.
  split.
  - unfold fallback_isQuota, retry_isQuota.
    destruct (message_of error) as [m|]; [|done]. cbn [Js.nonempty].
    destruct (String.eqb_spec m "") as [->|_]; [done|]. cbn [from_option id].
    intros [H429%includes_lower | Hquota]%orb_prop.
    + change (Js.toLowerCase "429") with "429" in H429.
      rewrite H429. now rewrite orb_true_r.
    + now rewrite Hquota.
  - unfold retry_isQuota, classify, error_text.
    destruct error as [|t|o]; try done. cbn [message_of inner_message_of].
    destruct (Js.nonempty (err_message o)) as [m|]; cbn [from_option id].
    + intros Hq. apply orb_prop in Hq as [Hq|Hstatus].
      * assert (Hquota : quota_test (status_of (ErrObject o)) (Js.toLowerCase m) = true).
        { unfold quota_test.
          apply orb_prop in Hq as [Hq|Hres]; [apply orb_prop in Hq as [Hq|Hq]|];
            rewrite ?Hq, ?Hres, ?orb_true_r; reflexivity. }
        now rewrite Hquota.
      * assert (Hquota : quota_test (status_of (ErrObject o)) (Js.toLowerCase m) = true).
        { unfold quota_test, status_of.
          destruct (err_status o) as [|n|t]; try done. cbn in Hstatus.
          apply Z.eqb_eq in Hstatus as ->. reflexivity. }
        now rewrite Hquota.
    + change (Js.toLowerCase "") with "". cbn [Js.includes Js.startsWith orb].
      intros Hstatus.
      assert (Hquota : forall msg, quota_test (status_of (ErrObject o)) msg = true).
      { intros msg. unfold quota_test, status_of.
        destruct (err_status o) as [|n|t]; try done. cbn in Hstatus.
        apply Z.eqb_eq in Hstatus as ->. reflexivity. }
      destruct (Js.nonempty _); now rewrite Hquota.
Qed.

(** A message that names the quota passes all three tests. *)
Lemma quota_tests_nested_witness :
  retry_isQuota (new_Error "Quota exceeded") = true /\
  classify (new_Error "Quota exceeded") = Some RateLimited.
Proof.
  pose proof (quota_tests_nested (new_Error "Quota exceeded")) as [H1 H2].
  split; [exact (H1 eq_refl) | exact (H2 (H1 eq_refl))].
Defined.

(** ** The retry loop in general *)

Lemma pow2_pos (i : nat) : (0 < pow2 i)%Q.
Proof.
  unfold pow2. change 0%Q with (inject_Z 0). rewrite <- Zlt_Qlt.
  apply Z.pow_pos_nonneg; lia.
Qed.

Lemma backoff_window (random : nat -> Q) (k i : nat) (isQuota : bool) :
  (0 <= random k < 1)%Q ->
  (2000 * pow2 i <= (if isQuota then 8000 else 2000) * pow2 i + random k * 1000
   < 8000 * pow2 i + 1000)%Q.
Proof.
  intros [Hlo Hhi]. pose proof (pow2_pos i) as Hp.
  destruct isQuota; split; lra.
Qed.

Lemma attempts_of_attempt (i : nat) (evs : list Event) :
  attempts_of (EvAttempt i :: evs) = i :: attempts_of evs.
Proof. reflexivity. Qed.

Lemma attempts_of_delay (d : Q) (evs : list Event) :
  attempts_of (EvDelay d :: evs) = attempts_of evs.
Proof. reflexivity. Qed.

Lemma waits_of_attempt (i : nat) (evs : list Event) :
  waits_of (EvAttempt i :: evs) = waits_of evs.
Proof. reflexivity. Qed.

Lemma waits_of_delay (d : Q) (evs : list Event) :
  waits_of (EvDelay d :: evs) = d :: waits_of evs.
Proof. reflexivity. Qed.

Ltac count_events :=
  rewrite ?attempts_of_attempt, ?attempts_of_delay, ?waits_of_attempt,
    ?waits_of_delay; cbn [length seq].





(** The loop when every attempt fails with a retryable error. *)
Lemma withRetry_loop_exhausts {N T} (random : nat -> Q)
    (f : nat -> N -> Result T * N) (retries : nat) (retryOnQuota : bool) :
  (forall i n, exists e n',
     f i n = (Rejected e, n') /\ isRetryableError e retryOnQuota = Resolved true) ->
  forall fuel i lastError (w : World N),
    (0 < fuel)%nat -> (fuel + i = retries)%nat ->
    exists e w' evs,
      withRetry_loop random (fun j => lift_net (f j)) retries retryOnQuota
        fuel i lastError w = (Rejected e, w') /\
      isRetryableError e retryOnQuota = Resolved true /\
      log w' = log w ++ evs /\
      attempts_of evs = seq i fuel /\
      length (waits_of evs) = (fuel - 1)%nat /\
      draws w' = (draws w + (fuel - 1))%nat.
Proof.
  intros Hf. induction fuel as [|fuel IH]; intros i lastError w Hpos Hsum; [lia|].
  rewrite withRetry_loop_step. unfold lift_net at 1. cbn [net log draws].
  destruct (Hf i (net w)) as (e & n' & -> & Hretry). rewrite Hretry.
  destruct (Z.ltb_spec (Z.of_nat i) (Z.of_nat retries - 1)).
  - match goal with
    | |- context [withRetry_loop _ _ _ _ fuel (S i) e ?w2] =>
        destruct (IH (S i) e w2 ltac:(lia) ltac:(lia))
          as (e' & w' & evs & -> & Hretry' & Hlog & Hatt & Hwaits & Hdraws)
    end.
    cbn [log draws] in Hlog, Hdraws.
    eexists e', w', (EvAttempt i :: EvDelay _ :: evs).
    split; [reflexivity|]. split; [done|].
    split; [rewrite Hlog, <- !app_assoc; reflexivity|].
    count_events. rewrite Hatt, Hwaits, Hdraws. repeat split; lia.
  - assert (fuel = 0)%nat as -> by lia.
    eexists e, _, [EvAttempt i]. cbn [log draws]. repeat split; try done; lia.
Qed.

(** When every attempt fails with a retryable error, [withRetry] uses its
    whole budget: attempts [0 .. retries - 1], one wait and one random
    draw between two attempts, and the rejection is a retryable error of
    the attempt function. *)
Theorem withRetry_exhausts_budget {N T} (random : nat -> Q)
    (f : nat -> N -> Result T * N) (retries : nat) (retryOnQuota : bool)
    (w : World N) :
  (0 < retries)%nat ->
  (forall i n, exists e n',
     f i n = (Rejected e, n') /\ isRetryableError e retryOnQuota = Resolved true) ->
  exists e w' evs,
    withRetry random (fun j => lift_net (f j)) retries retryOnQuota w
      = (Rejected e, w') /\
    isRetryableError e retryOnQuota = Resolved true /\
    log w' = log w ++ evs /\
    attempts_of evs = seq 0 retries /\
    length (waits_of evs) = (retries - 1)%nat /\
    draws w' = (draws w + (retries - 1))%nat.
Proof.
  intros Hpos Hf.
  now apply (withRetry_loop_exhausts random f retries retryOnQuota Hf
               retries 0 ErrUndefined w).
Qed.

(** A backend that is always unreachable, under a budget of five. *)
Lemma withRetry_exhausts_budget_witness :
  exists e w' evs,
    withRetry (fun _ => 0%Q)
      (fun _ => lift_net (fun n : nat => (@Rejected string (new_Error "Failed to fetch"), S n)))
      5 true fresh_world = (Rejected e, w') /\
    isRetryableError e true = Resolved true /\
    log w' = log fresh_world ++ evs /\
    attempts_of evs = seq 0 5 /\
    length (waits_of evs) = (5 - 1)%nat /\
    draws w' = (draws fresh_world + (5 - 1))%nat.
Proof.
  apply (withRetry_exhausts_budget (fun _ => 0%Q)
           (fun _ n => (Rejected (new_Error "Failed to fetch"), S n)) 5 true fresh_world).
  - lia.
  - intros i n. eexists _, _. split; reflexivity.
Defined.

(** The loop when attempts [i .. k - 1] fail with a retryable error and
    attempt [k] succeeds. *)
Lemma withRetry_loop_recovers {N T} (random : nat -> Q)
    (f : nat -> N -> Result T * N) (retries : nat) (retryOnQuota : bool) (k : nat) :
  (forall i n, (i < k)%nat -> exists e n',
     f i n = (Rejected e, n') /\ isRetryableError e retryOnQuota = Resolved true) ->
  (forall n, exists v n', f k n = (Resolved v, n')) ->
  forall fuel i lastError (w : World N),
    (i <= k)%nat -> (k < retries)%nat -> (fuel + i = retries)%nat ->
    exists v w' evs,
      withRetry_loop random (fun j => lift_net (f j)) retries retryOnQuota
        fuel i lastError w = (Resolved v, w') /\
      (exists n, f k n = (Resolved v, net w')) /\
      log w' = log w ++ evs /\
      attempts_of evs = seq i (S k - i) /\
      length (waits_of evs) = (k - i)%nat.
Proof.
  intros Hfail Hok. induction fuel as [|fuel IH]; intros i lastError w Hik Hk Hsum;
    [lia|].
  rewrite withRetry_loop_step. unfold lift_net at 1. cbn [net log draws].
  destruct (decide (i = k)) as [->|Hne].
  - destruct (Hok (net w)) as (v & n' & Hv). rewrite Hv.
    eexists v, _, [EvAttempt k]. cbn [log net].
    split; [reflexivity|]. split; [now exists (net w)|]. split; [done|].
    count_events. replace (S k - k)%nat with 1%nat by lia.
    replace (k - k)%nat with 0%nat by lia. done.
  - destruct (Hfail i (net w) ltac:(lia)) as (e & n' & -> & ->).
    destruct (Z.ltb_spec (Z.of_nat i) (Z.of_nat retries - 1)); [|lia].
    match goal with
    | |- context [withRetry_loop _ _ _ _ fuel (S i) e ?w2] =>
        destruct (IH (S i) e w2 ltac:(lia) ltac:(lia) ltac:(lia))
          as (v & w' & evs & -> & Hv & Hlog & Hatt & Hwaits)
    end.
    cbn [log] in Hlog.
    eexists v, w', (EvAttempt i :: EvDelay _ :: evs).
    split; [reflexivity|]. split; [done|].
    split; [rewrite Hlog, <- !app_assoc; reflexivity|].
    count_events. rewrite Hatt, Hwaits.
    replace (S k - i)%nat with (S (S k - S i)) by lia. cbn [seq].
    split; [done|lia].
Qed.

(** When the first [k] attempts fail with a retryable error and attempt
    [k] succeeds within the budget, [withRetry] resolves with the value
    of attempt [k] after exactly [k + 1] attempts and [k] waits. *)
Theorem withRetry_recovers {N T} (random : nat -> Q)
    (f : nat -> N -> Result T * N) (retries : nat) (retryOnQuota : bool) (k : nat)
    (w : World N) :
  (k < retries)%nat ->
  (forall i n, (i < k)%nat -> exists e n',
     f i n = (Rejected e, n') /\ isRetryableError e retryOnQuota = Resolved true) ->
  (forall n, exists v n', f k n = (Resolved v, n')) ->
  exists v w' evs,
    withRetry random (fun j => lift_net (f j)) retries retryOnQuota w
      = (Resolved v, w') /\
    (exists n, f k n = (Resolved v, net w')) /\
    log w' = log w ++ evs /\
    attempts_of evs = seq 0 (S k) /\
    length (waits_of evs) = k.
Proof.
  intros Hk Hfail Hok.
  destruct (withRetry_loop_recovers random f retries retryOnQuota k Hfail Hok
              retries 0 ErrUndefined w ltac:(lia) Hk ltac:(lia))
    as (v & w' & evs & Hrun & Hv & Hlog & Hatt & Hwaits).
  exists v, w', evs. rewrite Nat.sub_0_r in Hatt, Hwaits. done.
Qed.

(** A backend that is unreachable twice and then answers. *)
Lemma withRetry_recovers_witness :
  exists v w' evs,
    withRetry (fun _ => 0%Q)
      (fun j => lift_net (fun n : nat =>
         (if (j <? 2)%nat then Rejected (new_Error "Failed to fetch")
          else Resolved j, S n)))
      3 true fresh_world = (Resolved v, w') /\
    (exists n,
       (if (2 <? 2)%nat then Rejected (new_Error "Failed to fetch")
        else Resolved 2%nat, S n) = (Resolved v, net w')) /\
    log w' = log fresh_world ++ evs /\
    attempts_of evs = seq 0 3 /\
    length (waits_of evs) = 2%nat.
Proof.
  apply (withRetry_recovers (fun _ => 0%Q)
           (fun j n => (if (j <? 2)%nat then Rejected (new_Error "Failed to fetch")
                        else Resolved j, S n)) 3 true 2 fresh_world).
  - lia.
  - intros i n Hi. eexists _, _.
    destruct (Nat.ltb_spec i 2); [|lia]. split; reflexivity.
  - intros n. eexists _, _. reflexivity.
Defined.

(** With [retryOnQuota] off, a rate-limited failure of the first attempt
    ends [withRetry] at once: the error is rethrown after one attempt,
    without a wait and without a random draw. *)
Theorem withRetry_quota_not_retried {N T} (random : nat -> Q)
    (f : nat -> N -> Result T * N) (retries : nat) (w : World N)
    (e : JsError) (n' : N) :
  (0 < retries)%nat ->
  f 0%nat (net w) = (Rejected e, n') ->
  classify e = Some RateLimited ->
  withRetry random (fun j => lift_net (f j)) retries false w =
    (Rejected e, mkWorld (log w ++ [EvAttempt 0]) (draws w) n').
Proof.
  intros Hpos Hf Hkind. unfold withRetry.
  destruct retries as [|fuel]; [lia|].
  rewrite withRetry_loop_step. unfold lift_net. cbn [net log draws]. rewrite Hf.
  now rewrite (isRetryableError_classify e false RateLimited Hkind).
Qed.

Lemma withRetry_quota_not_retried_witness :
  withRetry (fun _ => 0%Q)
    (fun _ => lift_net (fun n : nat => (@Rejected string quota_by_status, S n)))
    3 false fresh_world =
  (Rejected quota_by_status,
   mkWorld (log fresh_world ++ [EvAttempt 0]) (draws fresh_world) (S (net fresh_world))).
Proof.
  apply (withRetry_quota_not_retried (fun _ => 0%Q)
           (fun _ n => (Rejected quota_by_status, S n)) 3 fresh_world).
  - lia.
  - reflexivity.
  - reflexivity.
Defined.

(** ** The model fallback in general *)

Lemma models_tried_app (evs evs' : list Event) :
  models_tried (evs ++ evs') = models_tried evs ++ models_tried evs'.
Proof. apply omap_app. Qed.

Lemma waits_of_app (evs evs' : list Event) :
  waits_of (evs ++ evs') = waits_of evs ++ waits_of evs'.
Proof. apply omap_app. Qed.

Lemma indexOf_NoDup (pre : list string) (model : string) (rest : list string) :
  NoDup (pre ++ model :: rest) ->
  indexOf (pre ++ model :: rest) model = Z.of_nat (length pre).
Proof.
  induction pre as [|m pre IH]; cbn [app indexOf length]; intros Hnd.
  - now rewrite String.eqb_refl.
  - apply NoDup_cons in Hnd as [Hm Hnd].
    destruct (String.eqb_spec m model) as [->|_].
    + exfalso. apply Hm. apply elem_of_app. right. apply elem_of_cons. now left.
    + rewrite (IH Hnd). destruct (Z.eqb_spec (Z.of_nat (length pre)) (-1)); lia.
Qed.

(** The loop over models that fail up to the first one that answers. *)
Lemma fallback_loop_first_success {N T} (operation : string -> string -> M N T)
    (models : list string) (apiKey model : string) (rest : list string) :
  (forall m w, exists evs,
     log (operation m apiKey w).2 = log w ++ evs /\ models_tried evs = []) ->
  (forall w, exists v w', operation model apiKey w = (Resolved v, w')) ->
  forall pre lastError (w : World N),
    (forall m w, m ∈ pre -> exists e w',
       operation m apiKey w = (Rejected e, w') /\ e <> ErrUndefined) ->
    exists v w' evs,
      fallback_loop operation models apiKey (pre ++ model :: rest) lastError w
        = (Resolved v, w') /\
      log w' = log w ++ evs /\
      models_tried evs = pre ++ [model].
Proof.
  intros Hlocal Hok. induction pre as [|m pre IH]; intros lastError w Hfail;
    cbn [app]; rewrite fallback_loop_step.
  - set (w0 := mkWorld (log w ++ [EvModel model]) (draws w) (net w)).
    destruct (Hlocal model w0) as (evs & Hlog & Hevs).
    destruct (Hok w0) as (v & w' & Hv). rewrite Hv in Hlog |- *. cbn [snd] in Hlog.
    exists v, w', (EvModel model :: evs). split; [done|].
    split; [rewrite Hlog; subst w0; cbn [log]; now rewrite <- app_assoc|].
    change (EvModel model :: evs) with ([EvModel model] ++ evs).
    now rewrite models_tried_app, Hevs.
  - set (w0 := mkWorld (log w ++ [EvModel m]) (draws w) (net w)).
    destruct (Hlocal m w0) as (evs & Hlog & Hevs).
    destruct (Hfail m w0 ltac:(apply elem_of_cons; now left)) as (e & w1 & He & Hne).
    rewrite He in Hlog |- *. cbn [snd] in Hlog. subst w0. cbn [log] in Hlog.
    assert (Hrest : forall m' w, m' ∈ pre -> exists e w',
              operation m' apiKey w = (Rejected e, w') /\ e <> ErrUndefined).
    { intros m' w2 Hin. apply Hfail. apply elem_of_cons. now right. }
    destruct e as [|t|o]; [done| |];
      destruct (indexOf models m <? _)%Z;
      match goal with
      | |- context [fallback_loop _ _ _ _ ?err ?w2] =>
          destruct (IH err w2 Hrest) as (v & w' & evs' & -> & Hlog' & Hevs')
      end;
      cbn [log] in Hlog'; rewrite Hlog in Hlog';
      eexists v, w', _; (split; [reflexivity|]);
      (split; [rewrite Hlog', <- !app_assoc; reflexivity|]);
      rewrite ?models_tried_app, Hevs, Hevs'; reflexivity.
Qed.

(** The first model that answers wins: with a usable credential, when
    the models before [model] fail and [model] answers, the fallback
    resolves, the models tried are exactly those up to [model], and no
    later model is called. *)
Theorem withModelFallback_first_success {N T} (API_KEY : option string)
    (operation : string -> string -> M N T) (apiKey model : string)
    (pre rest : list string) (w : World N) :
  usable_key API_KEY = Some apiKey ->
  (forall m w, exists evs,
     log (operation m apiKey w).2 = log w ++ evs /\ models_tried evs = []) ->
  (forall m w, m ∈ pre -> exists e w',
     operation m apiKey w = (Rejected e, w') /\ e <> ErrUndefined) ->
  (forall w, exists v w', operation model apiKey w = (Resolved v, w')) ->
  exists v w' evs,
    withModelFallback API_KEY operation (pre ++ model :: rest) w = (Resolved v, w') /\
    log w' = log w ++ evs /\
    models_tried evs = pre ++ [model].
Proof.
  intros Hkey Hlocal Hfail Hok. rewrite withModelFallback_check, Hkey.
  destruct (fallback_loop_first_success operation (pre ++ model :: rest) apiKey
              model rest Hlocal Hok pre ErrUndefined
              (mkWorld (log w ++ [EvGetApiKey]) (draws w) (net w)) Hfail)
    as (v & w' & evs & -> & Hlog & Hevs).
  cbn [log] in Hlog. exists v, w', (EvGetApiKey :: evs).
  split; [done|]. split; [now rewrite Hlog, <- app_assoc|].
  exact Hevs.
Qed.

Lemma sample_operation_local (m : string) (w : World nat) :
  exists evs,
    log (withRetry (fun _ => 0%Q) (fun i => lift_net (sample_backend m i)) 3 true w).2
      = log w ++ evs /\ models_tried evs = [].
Proof.
  unfold sample_backend. destruct (String.eqb m "A").
  - eexists. split; [reflexivity|reflexivity].
  - eexists. split; [reflexivity|reflexivity].
Qed.

(** The sample backend: the model A fails, the model B answers and the
    model C is never called. *)
Lemma withModelFallback_first_success_witness :
  exists v w' evs,
    withModelFallback (Some "key")
      (fun m _ => withRetry (fun _ => 0%Q) (fun i => lift_net (sample_backend m i)) 3 true)
      (["A"] ++ "B" :: ["C"]) fresh_world = (Resolved v, w') /\
    log w' = log fresh_world ++ evs /\
    models_tried evs = ["A"] ++ ["B"].
Proof.
  apply (withModelFallback_first_success (Some "key")
           (fun m _ => withRetry (fun _ => 0%Q)
                         (fun i => lift_net (sample_backend m i)) 3 true)
           "key" "B" ["A"] ["C"] fresh_world).
  - reflexivity.
  - intros m w. apply sample_operation_local.
  - intros m w Hin. apply list_elem_of_singleton in Hin as ->.
    eexists _, _. split; [reflexivity|discriminate].
  - intros w. eexists _, _. reflexivity.
Defined.

(** The loop over models that all fail. *)
Lemma fallback_loop_all_fail {N T} (operation : string -> string -> M N T)
    (models : list string) (apiKey : string) (err : string -> JsError) :
  (forall m w, exists evs,
     log (operation m apiKey w).2 = log w ++ evs /\ models_tried evs = []) ->
  (forall m w, exists w', operation m apiKey w = (Rejected (err m), w')) ->
  (forall m, err m <> ErrUndefined) ->
  forall rest lastError (w : World N),
    exists w' evs,
      fallback_loop operation models apiKey rest lastError w
        = (Rejected (from_option err lastError (last rest)), w') /\
      log w' = log w ++ evs /\
      models_tried evs = rest.
Proof.
  intros Hlocal Hfail Herr. induction rest as [|m rest IH]; intros lastError w.
  - exists w, []. cbn. now rewrite app_nil_r.
  - rewrite fallback_loop_step.
    set (w0 := mkWorld (log w ++ [EvModel m]) (draws w) (net w)).
    destruct (Hlocal m w0) as (evs & Hlog & Hevs).
    destruct (Hfail m w0) as (w1 & He).
    rewrite He in Hlog |- *. cbn [snd] in Hlog. subst w0. cbn [log] in Hlog.
    assert (Hlast : from_option err lastError (last (m :: rest))
                    = from_option err (err m) (last rest)).
    { rewrite last_cons. now destruct (last rest). }
    rewrite Hlast. pose proof (Herr m) as Hne.
    destruct (err m) as [|t|o] eqn:Hem; [done| |];
      destruct (indexOf models m <? _)%Z;
      match goal with
      | |- context [fallback_loop _ _ _ _ ?e ?w2] =>
          destruct (IH e w2) as (w' & evs' & -> & Hlog' & Hevs')
      end;
      cbn [log] in Hlog'; rewrite Hlog in Hlog';
      eexists w', _; (split; [reflexivity|]);
      (split; [rewrite Hlog', <- !app_assoc; reflexivity|]);
      rewrite ?models_tried_app, Hevs, Hevs'; reflexivity.
Qed.

(** When every model fails, the fallback tries every model once, in the
    order of the list, and rejects with the error of the last model. *)
Theorem withModelFallback_all_fail {N T} (API_KEY : option string)
    (operation : string -> string -> M N T) (apiKey : string)
    (models : list string) (final : string) (err : string -> JsError) (w : World N) :
  usable_key API_KEY = Some apiKey ->
  last models = Some final ->
  (forall m w, exists evs,
     log (operation m apiKey w).2 = log w ++ evs /\ models_tried evs = []) ->
  (forall m w, exists w', operation m apiKey w = (Rejected (err m), w')) ->
  (forall m, err m <> ErrUndefined) ->
  exists w' evs,
    withModelFallback API_KEY operation models w = (Rejected (err final), w') /\
    log w' = log w ++ evs /\
    models_tried evs = models.
Proof.
  intros Hkey Hfinal Hlocal Hfail Herr. rewrite withModelFallback_check, Hkey.
  destruct (fallback_loop_all_fail operation models apiKey err Hlocal Hfail Herr
              models ErrUndefined (mkWorld (log w ++ [EvGetApiKey]) (draws w) (net w)))
    as (w' & evs & -> & Hlog & Hevs).
  rewrite Hfinal. cbn [from_option log] in *.
  exists w', (EvGetApiKey :: evs).
  split; [done|]. split; [now rewrite Hlog, <- app_assoc|]. exact Hevs.
Qed.

(** Three models that each fail with an error naming the model. *)
Lemma withModelFallback_all_fail_witness :
  exists w' evs,
    withModelFallback (Some "key")
      (fun m _ => lift_net (fun n : nat => (@Rejected string (new_Error ("no " +:+ m)), S n)))
      ["A"; "B"; "C"] fresh_world = (Rejected (new_Error ("no " +:+ "C")), w') /\
    log w' = log fresh_world ++ evs /\
    models_tried evs = ["A"; "B"; "C"].
Proof.
  apply (withModelFallback_all_fail (Some "key")
           (fun m _ => lift_net (fun n : nat => (@Rejected string (new_Error ("no " +:+ m)), S n)))
           "key" ["A"; "B"; "C"] "C" (fun m => new_Error ("no " +:+ m)) fresh_world).
  - reflexivity.
  - reflexivity.
  - intros m w. exists []. split; [now rewrite app_nil_r|reflexivity].
  - intros m w. eexists. reflexivity.
  - intros m. discriminate.
Defined.

(** The waits of the loop over models that all fail, when no model
    occurs twice. *)
Lemma fallback_loop_cooldowns {N T} (f : string -> string -> N -> Result T * N)
    (apiKey : string) (err : string -> JsError) :
  (forall m n, exists n', f m apiKey n = (Rejected (err m), n')) ->
  (forall m, err m <> ErrUndefined) ->
  forall rest tried lastError (w : World N),
    NoDup (tried ++ rest) ->
    exists w' evs,
      (fallback_loop (fun m k => lift_net (f m k)) (tried ++ rest) apiKey rest
         lastError w).2 = w' /\
      log w' = log w ++ evs /\
      waits_of evs = map (fun m => cooldown_after (err m)) (removelast rest).
Proof.
  intros Hfail Herr. induction rest as [|m rest IH]; intros tried lastError w Hnd.
  - exists w, []. cbn. now rewrite app_nil_r.
  - rewrite fallback_loop_step. unfold lift_net at 1. cbn [net log draws].
    destruct (Hfail m (net w)) as (n' & ->).
    rewrite (indexOf_NoDup tried m rest Hnd).
    pose proof (Herr m) as Hne.
    destruct rest as [|m' rest'].
    + destruct (Z.ltb_spec (Z.of_nat (length tried))
                  (Z.of_nat (length (tried ++ [m])) - 1));
        [rewrite length_app in *; cbn [length] in *; lia|].
      destruct (err m) as [|t|o]; [done| |];
        (eexists _, [EvModel m]; cbn [fallback_loop snd log];
         split; [reflexivity|]; split; reflexivity).
    + destruct (Z.ltb_spec (Z.of_nat (length tried))
                  (Z.of_nat (length (tried ++ m :: m' :: rest')) - 1));
        [|rewrite length_app in *; cbn [length] in *; lia].
      assert (Hnd' : NoDup ((tried ++ [m]) ++ m' :: rest'))
        by now rewrite <- app_assoc.
      assert (Hmodels : tried ++ m :: m' :: rest' = (tried ++ [m]) ++ m' :: rest')
        by now rewrite <- app_assoc.
      rewrite Hmodels.
      destruct (err m) as [|t|o] eqn:Hem; [done| |];
        match goal with
        | |- context [fallback_loop _ _ _ _ ?e ?w2] =>
            destruct (IH (tried ++ [m]) e w2 Hnd') as (w' & evs & Hrun & Hlog & Hwaits)
        end;
        cbn [log] in Hlog;
        (eexists w', (EvModel m :: EvDelay _ :: evs); split; [exact Hrun|];
         split; [rewrite Hlog, <- !app_assoc; reflexivity|]);
        change (waits_of (EvModel m :: EvDelay ?d :: evs)) with (d :: waits_of evs);
        rewrite Hwaits; cbn [removelast map]; unfold cooldown_after at 2;
        rewrite Hem; reflexivity.
Qed.

(** When every model fails and no model is listed twice, the fallback
    waits once after every model but the last, 8000 ms after an error
    its own quota test accepts and 1000 ms after any other. *)
Theorem withModelFallback_cooldown_schedule {N T} (API_KEY : option string)
    (f : string -> string -> N -> Result T * N) (apiKey : string)
    (models : list string) (err : string -> JsError) (w : World N) :
  usable_key API_KEY = Some apiKey ->
  NoDup models ->
  (forall m n, exists n', f m apiKey n = (Rejected (err m), n')) ->
  (forall m, err m <> ErrUndefined) ->
  exists evs,
    log (withModelFallback API_KEY (fun m k => lift_net (f m k)) models w).2
      = log w ++ evs /\
    waits_of evs = map (fun m => cooldown_after (err m)) (removelast models).
Proof.
  intros Hkey Hnd Hfail Herr. rewrite withModelFallback_check, Hkey.
  destruct (fallback_loop_cooldowns f apiKey err Hfail Herr models [] ErrUndefined
              (mkWorld (log w ++ [EvGetApiKey]) (draws w) (net w)) Hnd)
    as (w' & evs & Hrun & Hlog & Hwaits).
  cbn [app log] in *. rewrite Hrun.
  exists (EvGetApiKey :: evs). split; [now rewrite Hlog, <- app_assoc|]. exact Hwaits.
Qed.

(** Three models: a quota error named in the message, a quota error
    known by its status only, and a plain error. *)
Lemma withModelFallback_cooldown_schedule_witness :
  exists evs,
    log (withModelFallback (Some "key")
           (fun m _ => lift_net (fun n : nat =>
              (@Rejected string
                 (if String.eqb m "A" then new_Error "Quota exceeded"
                  else quota_by_status), S n)))
           ["A"; "B"; "C"] fresh_world).2 = log fresh_world ++ evs /\
    waits_of evs =
      map (fun m => cooldown_after
                      (if String.eqb m "A" then new_Error "Quota exceeded"
                       else quota_by_status))
          (removelast ["A"; "B"; "C"]).
Proof.
  apply (withModelFallback_cooldown_schedule (Some "key")
           (fun m _ n => (Rejected (if String.eqb m "A" then new_Error "Quota exceeded"
                                    else quota_by_status), S n))
           "key" ["A"; "B"; "C"]
           (fun m => if String.eqb m "A" then new_Error "Quota exceeded"
                     else quota_by_status) fresh_world).
  - reflexivity.
  - repeat (apply NoDup_cons; split;
            [rewrite ?elem_of_cons, elem_of_nil; intros H;
             repeat (destruct H as [H|H]; [discriminate|]); exact H|]).
    apply NoDup_nil. exact I.
  - intros m n. eexists. reflexivity.
  - intros m. destruct (String.eqb m "A"); discriminate.
Defined.

(** With a budget of zero [withRetry] throws its unset [lastError]; the
    [catch] of the fallback then reads [error.message] of [undefined],
    so the fallback rejects with a [TypeError] after the first model,
    without a cooldown and without trying the next one.  With no model
    at all the fallback throws its own unset [lastError]. *)
Theorem withModelFallback_degenerate {N T} (random : nat -> Q)
    (API_KEY : option string) (apiKey : string)
    (fn : string -> string -> nat -> M N T) (retryOnQuota : bool)
    (model : string) (rest : list string) (w : World N) :
  usable_key API_KEY = Some apiKey ->
  withModelFallback API_KEY
    (fun m k => withRetry random (fn m k) 0 retryOnQuota) (model :: rest) w =
    (Rejected TypeError_undefined,
     mkWorld (log w ++ [EvGetApiKey; EvModel model]) (draws w) (net w)) /\
  withModelFallback API_KEY
    (fun m k => withRetry random (fn m k) 3 retryOnQuota) [] w =
    (Rejected ErrUndefined, mkWorld (log w ++ [EvGetApiKey]) (draws w) (net w)).
Proof.
  intros Hkey. rewrite !withModelFallback_check, Hkey. split; [|reflexivity].
  rewrite fallback_loop_step. unfold withRetry. cbn [withRetry_loop]. unfold throw.
  cbn [log draws net]. now rewrite <- app_assoc.
Qed.

Lemma withModelFallback_degenerate_witness :
  withModelFallback (Some "key")
    (fun m k => withRetry (fun _ => 0%Q) (fun i => lift_net (sample_backend m i)) 0 true)
    ("B" :: ["C"]) fresh_world =
    (Rejected TypeError_undefined,
     mkWorld (log fresh_world ++ [EvGetApiKey; EvModel "B"]) (draws fresh_world)
       (net fresh_world)) /\
  withModelFallback (Some "key")
    (fun m k => withRetry (fun _ => 0%Q) (fun i => lift_net (sample_backend m i)) 3 true)
    [] fresh_world =
    (Rejected ErrUndefined,
     mkWorld (log fresh_world ++ [EvGetApiKey]) (draws fresh_world) (net fresh_world)).
Proof.
  apply (withModelFallback_degenerate (fun _ => 0%Q) (Some "key") "key"
           (fun m k i => lift_net (sample_backend m i)) true "B" ["C"] fresh_world).
  reflexivity.
Defined.

(** ** The tasks *)

(** [generateRealisticDentalImage] never rejects: it resolves with
    [null] or with a PNG data URL, and the payload of the URL is the
    inline data of the first part that has some in a response of the
    backend. *)
Theorem generateRealisticDentalImage_total {N} (random : nat -> Q)
    (API_KEY : option string)
    (generateContent : Request -> N -> Result Response * N)
    (prompt : string) (type : ImageType) (w : World N) :
  exists r w',
    generateRealisticDentalImage random API_KEY generateContent prompt type w
      = (Resolved r, w') /\
    (r = None \/
     exists data request n response n',
       r = Some ("data:image/png;base64," +:+ data) /\
       generateContent request n = (Resolved response, n') /\
       first_inline (from_option id [] (parts response)) = Some data).
Proof.
  unfold generateRealisticDentalImage. unfold try_catch at 1. unfold bind at 1.
  destruct (withModelFallback _ _ _ w) as [[url|e] w1] eqn:Hrun.
  2:{ eexists None, _. split; [reflexivity|]. now left. }
  eexists (Some url), _. split; [reflexivity|]. right.
  rewrite withModelFallback_check in Hrun.
  destruct (usable_key API_KEY) as [k|]; [|done].
  apply fallback_loop_resolved in Hrun as (model & w2 & Hrun).
  apply withRetry_loop_resolved in Hrun as (j & w3 & Hrun).
  unfold image_attempt in Hrun. unfold bind, lift_net in Hrun.
  destruct (generateContent _ (net w3)) as [[response|e] n'] eqn:Hresp; [|done].
  destruct (first_inline _) as [data|] eqn:Hdata; [|done].
  injection Hrun as <- _.
  eexists data, _, (net w3), response, n'. split; [reflexivity|]. split; [exact Hresp|exact Hdata].
Qed.

Lemma parse_errors_fatal :
  classify (new_Error empty_response_message) = Some Fatal /\
  classify (new_Error parse_failure_message) = Some Fatal /\
  fallback_isQuota (new_Error empty_response_message) = false /\
  fallback_isQuota (new_Error parse_failure_message) = false.
Proof. vm_compute. done. Qed.

(** An attempt whose response cannot be read rejects with one of the two
    errors of [parseAIResponse]. *)
Lemma json_attempt_unparsed {N} (JSON_parse : string -> option Json)
    (generateContent : Request -> N -> Result Response * N) (request : Request)
    (w : World N) :
  (forall r n, exists resp n',
     generateContent r n = (Resolved resp, n') /\
     forall v, parseAIResponse JSON_parse (text resp) <> Resolved v) ->
  exists e n',
    json_attempt JSON_parse generateContent request w
      = (Rejected e, mkWorld (log w) (draws w) n') /\
    (e = new_Error empty_response_message \/ e = new_Error parse_failure_message).
Proof.
  intros Hbackend. destruct (Hbackend request (net w)) as (resp & n' & Hresp & Hparse).
  unfold json_attempt, bind, lift_net, settle. rewrite Hresp.
  unfold parseAIResponse in *.
  destruct (Js.nonempty (text resp)) as [t|].
  - destruct (JSON_parse (json_slice t)) as [v|]; [now destruct (Hparse v)|].
    exists (new_Error parse_failure_message), n'. split; [done|now right].
  - exists (new_Error empty_response_message), n'. split; [done|now left].
Qed.

(** A text task, whatever request it builds, over a backend whose
    answers cannot be read. *)
Lemma json_task_unparsed {N} (random : nat -> Q) (API_KEY : option string)
    (apiKey : string) (JSON_parse : string -> option Json)
    (generateContent : Request -> N -> Result Response * N)
    (request : string -> string -> Request) (w : World N) :
  usable_key API_KEY = Some apiKey ->
  (forall r n, exists resp n',
     generateContent r n = (Resolved resp, n') /\
     forall v, parseAIResponse JSON_parse (text resp) <> Resolved v) ->
  rejects_unparsed
    (withModelFallback API_KEY
       (fun modelName key =>
          withRetry random
            (fun _ => json_attempt JSON_parse generateContent (request modelName key))
            3 true)
       default_models) w.
Proof.
  intros Hkey Hbackend. unfold rejects_unparsed.
  destruct parse_errors_fatal as (Hf1 & Hf2 & Hq1 & Hq2).
  rewrite withModelFallback_check, Hkey. unfold default_models.
  rewrite fallback_loop_step. cbn [log draws net].
  match goal with
  | |- context [withRetry _ (fun _ => json_attempt _ _ ?r) _ _ ?w0] =>
      destruct (json_attempt_unparsed JSON_parse generateContent r
                  (mkWorld (log w0 ++ [EvAttempt 0]) (draws w0) (net w0)) Hbackend)
        as (e1 & n1 & Hrun1 & He1);
      rewrite (withRetry_fatal_first random _ 3 true w0 _ e1 ltac:(lia) Hrun1
                 ltac:(destruct He1 as [->| ->]; assumption))
  end.
  cbn [log draws net].
  change (indexOf _ "gemini-2.5-flash" <? _)%Z with true.
  assert (Hcool : fallback_isQuota e1 = false) by (destruct He1 as [->| ->]; assumption).
  assert (He1' : exists o, e1 = ErrObject o)
    by (destruct He1 as [->| ->]; eexists; reflexivity).
  destruct He1' as (o1 & ->). cbn iota. rewrite Hcool.
  rewrite fallback_loop_step. cbn [log draws net].
  match goal with
  | |- context [withRetry _ (fun _ => json_attempt _ _ ?r) _ _ ?w0] =>
      destruct (json_attempt_unparsed JSON_parse generateContent r
                  (mkWorld (log w0 ++ [EvAttempt 0]) (draws w0) (net w0)) Hbackend)
        as (e2 & n2 & Hrun2 & He2);
      rewrite (withRetry_fatal_first random _ 3 true w0 _ e2 ltac:(lia) Hrun2
                 ltac:(destruct He2 as [->| ->]; assumption))
  end.
  cbn [log draws net].
  change (indexOf _ "gemini-3-flash-preview" <? _)%Z with false.
  assert (He2' : exists o, e2 = ErrObject o)
    by (destruct He2 as [->| ->]; eexists; reflexivity).
  destruct He2' as (o2 & ->). cbn iota. cbn [fallback_loop]. unfold throw.
  eexists _, _. split; [reflexivity|]. split; [exact He2|].
  cbn [log draws]. split; [|reflexivity].
  now rewrite <- !app_assoc.
Qed.

(** When the backend's answers cannot be read as JSON, each of the
    three text tasks gives up without a retry: one attempt on each of
    the two models, one cooldown of 1000 ms between them, and the
    rejection is the error of [parseAIResponse]. *)
Theorem text_tasks_reject_unparsed {N} (random : nat -> Q) (API_KEY : option string)
    (apiKey : string) (JSON_parse : string -> option Json)
    (generateContent : Request -> N -> Result Response * N)
    (topic : string) (language : App.Language) (count : Z)
    (difficulty : App.Difficulty) (w : World N) :
  usable_key API_KEY = Some apiKey ->
  (forall r n, exists resp n',
     generateContent r n = (Resolved resp, n') /\
     forall v, parseAIResponse JSON_parse (text resp) <> Resolved v) ->
  rejects_unparsed
    (generateSimulationContent random API_KEY JSON_parse generateContent topic) w /\
  rejects_unparsed
    (generatePracticalContent random API_KEY JSON_parse generateContent topic) w /\
  rejects_unparsed
    (generateQuizContent random API_KEY JSON_parse generateContent topic language
       count difficulty) w.
Proof.
  intros Hkey Hbackend. repeat split.
  - apply (json_task_unparsed random API_KEY apiKey JSON_parse generateContent
             (simulation_request topic) w Hkey Hbackend).
  - apply (json_task_unparsed random API_KEY apiKey JSON_parse generateContent
             (practical_request topic) w Hkey Hbackend).
  - apply (json_task_unparsed random API_KEY apiKey JSON_parse generateContent
             (quiz_request topic language count difficulty) w Hkey Hbackend).
Qed.

(** A backend that answers in prose. *)
Lemma text_tasks_reject_unparsed_witness :
  rejects_unparsed
    (generateSimulationContent (fun _ => 0%Q) (Some "key") JSON_parse_fragment
       prose_backend "caries") fresh_world /\
  rejects_unparsed
    (generatePracticalContent (fun _ => 0%Q) (Some "key") JSON_parse_fragment
       prose_backend "caries") fresh_world /\
  rejects_unparsed
    (generateQuizContent (fun _ => 0%Q) (Some "key") JSON_parse_fragment
       prose_backend "caries" App.en 5 App.Easy) fresh_world.
Proof.
  apply (text_tasks_reject_unparsed (fun _ => 0%Q) (Some "key") "key"
           JSON_parse_fragment prose_backend "caries" App.en 5 App.Easy fresh_world).
  - reflexivity.
  - intros r n. eexists _, _. split; [reflexivity|].
    intros v. vm_compute. discriminate.
Defined.

(** ** The payload of an uploaded image *)

Lemma after_first_comma_free (s : string) :
  comma_free s = true -> after_first "," s = None.
Proof.
  induction s as [|c r IH]; [done|]. cbn [comma_free all_chars after_first].
  intros [Hc Hr]%andb_true_iff. apply negb_true_iff in Hc. rewrite Hc. now apply IH.
Qed.

Lemma before_first_comma_free (s : string) :
  comma_free s = true -> before_first "," s = s.
Proof.
  induction s as [|c r IH]; [done|]. cbn [comma_free all_chars before_first].
  intros [Hc Hr]%andb_true_iff. apply negb_true_iff in Hc. rewrite Hc.
  f_equal. now apply IH.
Qed.

(** [base64Data] undoes the data URL that [generateRealisticDentalImage]
    builds: it returns the payload, and the whole URL when the payload
    is empty; a string without a comma, such as bare base64, passes
    through unchanged. *)
Theorem base64Data_of_data_url (data : string) :
  comma_free data = true ->
  base64Data ("data:image/png;base64," +:+ data) =
    (if String.eqb data "" then "data:image/png;base64," else data) /\
  base64Data data = data.
Proof.
  intros Hdata. split.
  - unfold base64Data, second_segment.
    change (after_first "," ("data:image/png;base64," +:+ data)) with (Some data).
    cbv beta iota. rewrite (before_first_comma_free data Hdata). unfold Js.nonempty.
    destruct (String.eqb_spec data "") as [->|_]; reflexivity.
  - unfold base64Data, second_segment.
    now rewrite (after_first_comma_free data Hdata).
Qed.

Lemma base64Data_of_data_url_witness :
  base64Data ("data:image/png;base64," +:+ "iVBORw0KGgo=") =
    (if String.eqb "iVBORw0KGgo=" "" then "data:image/png;base64," else "iVBORw0KGgo=") /\
  base64Data "iVBORw0KGgo=" = "iVBORw0KGgo=".
Proof.
  apply (base64Data_of_data_url "iVBORw0KGgo="). reflexivity.
Defined.

(** ** The connection check *)

(** [checkApiConnection] reads the credential once and is weaker than
    the check of the tasks: a credential the tasks accept always passes
    it, and it also passes exactly the credentials the tasks reject that
    are the text [undefined] or non-empty and made only of the white
    space [trim] removes. *)
Theorem checkApiConnection_weaker_than_key_check {N} (API_KEY : option string)
    (w : World N) :
  exists connected,
    checkApiConnection API_KEY w =
      (Resolved connected, mkWorld (log w ++ [EvGetApiKey]) (draws w) (net w)) /\
    (usable_key API_KEY <> None -> connected = true) /\
    (connected = true /\ usable_key API_KEY = None <->
     exists k, API_KEY = Some k /\ k <> "" /\
               (k = "undefined" \/ all_space k)).
Proof.
  unfold checkApiConnection. run_async. eexists. split; [reflexivity|].
  destruct API_KEY as [k|]; cbn [Js.nonempty usable_key].
  2:{ split; [done|]. split; [now intros [? _]|now intros (k & ? & _)]. }
  destruct (String.eqb_spec k "") as [->|Hne]; cbn [orb].
  { split; [done|]. split; [now intros [? _]|]. intros (k & [= <-] & Hk & _). done. }
  split; [done|].
  destruct (String.eqb_spec k "undefined") as [->|Hundef]; cbn [orb].
  { split; [|done]. intros _. exists "undefined". split; [done|]. split; [done|now left]. }
  destruct (String.eqb_spec (Js.trim k) "") as [Htrim|Htrim].
  - split; [|done]. intros _. exists k. split; [done|]. split; [done|].
    right. now apply trim_empty.
  - split; [now intros [_ ?]|]. intros (k' & [= <-] & _ & [->|Hsp]); [done|].
    now apply trim_empty in Hsp.
Qed.

(** ** Answers without braces *)

Lemma strip_fences_backquote_free (s : string) :
  backquote_free s = true -> strip_fences s = s.
Proof.
  unfold strip_fences. induction s as [|c r IH]; [done|].
  cbn [backquote_free all_chars]. intros [Hc Hr]%andb_true_iff.
  cbn [strip_fences_from]. rewrite fence_at_zero.
  - f_equal. now apply IH.
  - unfold fence. cbn [Js.startsWith]. apply negb_true_iff in Hc.
    rewrite Ascii.eqb_sym, Hc. reflexivity.
Qed.

Lemma trimStart_all_chars (P : ascii -> bool) (s : string) :
  all_chars P s = true -> all_chars P (Js.trimStart s) = true.
Proof.
  remember (String.length s) as n eqn:Hn. revert s Hn.
  induction n as [n IH] using lt_wf_ind. intros s -> Hall.
  destruct (trimStart_cases s) as [Hsame|(ws & t & Hin & -> & Htrim & Hlt)].
  - now rewrite Hsame.
  - rewrite Htrim. rewrite all_chars_app in Hall.
    apply andb_prop in Hall as [_ Ht]. now apply (IH _ Hlt).
Qed.

(** An answer with no brace never takes the slice: what reaches
    [JSON.parse] is the text with the fences removed and trimmed, and
    for an answer with no backquote either, simply the trimmed text. *)
Theorem parseAIResponse_without_braces (JSON_parse : string -> option Json)
    (s : string) :
  s <> "" ->
  brace_free s = true ->
  parseAIResponse JSON_parse (Some s) =
    match JSON_parse (Js.trim (strip_fences s)) with
    | Some v => Resolved v
    | None => Rejected (new_Error parse_failure_message)
    end /\
  (backquote_free s = true -> json_slice s = Js.trim s).
Proof.
  intros Hne Hbrace.
  assert (Hslice : json_slice s = Js.trim (strip_fences s)).
  { unfold json_slice.
    rewrite (lastIndexOf_none (Js.trim (strip_fences s))).
    - now rewrite andb_false_r.
    - unfold Js.trim. apply trimEnd_all_chars, trimStart_all_chars.
      apply (strip_fences_brace_free s Hbrace 0%nat). }
  split.
  - unfold parseAIResponse, Js.nonempty.
    destruct (String.eqb_spec s "") as [->|_]; [done|]. now rewrite Hslice.
  - intros Hbq. now rewrite Hslice, (strip_fences_backquote_free s Hbq).
Qed.

(** A bare array inside a fenced block. *)
Lemma parseAIResponse_without_braces_witness :
  parseAIResponse JSON_parse_fragment (Some (fence_json +:+ LF +:+ "[1]" +:+ LF +:+ fence)) =
    match JSON_parse_fragment
            (Js.trim (strip_fences (fence_json +:+ LF +:+ "[1]" +:+ LF +:+ fence))) with
    | Some v => Resolved v
    | None => Rejected (new_Error parse_failure_message)
    end /\
  (backquote_free (fence_json +:+ LF +:+ "[1]" +:+ LF +:+ fence) = true ->
   json_slice (fence_json +:+ LF +:+ "[1]" +:+ LF +:+ fence)
     = Js.trim (fence_json +:+ LF +:+ "[1]" +:+ LF +:+ fence)).
Proof.
  apply (parseAIResponse_without_braces JSON_parse_fragment
           (fence_json +:+ LF +:+ "[1]" +:+ LF +:+ fence)).
  - discriminate.
  - reflexivity.
Defined.

(** ** The waits of an exhausted retry *)

(** The waits of the loop when every attempt fails with a retryable
    error of the same kind. *)
Lemma withRetry_loop_schedule {N T} (random : nat -> Q)
    (f : nat -> N -> Result T * N) (retries : nat) (retryOnQuota isQuota : bool) :
  (forall i n, exists e n',
     f i n = (Rejected e, n') /\
     isRetryableError e retryOnQuota = Resolved true /\
     retry_isQuota e = isQuota) ->
  forall fuel i lastError (w : World N),
    (0 < fuel)%nat -> (fuel + i = retries)%nat ->
    exists evs,
      log (withRetry_loop random (fun j => lift_net (f j)) retries retryOnQuota
             fuel i lastError w).2 = log w ++ evs /\
      waits_of evs =
        (fun k => (if isQuota then 8000 else 2000) * pow2 (i + k)
                  + random (draws w + k)%nat * 1000)%Q
        <$> seq 0 (fuel - 1).
Proof.
  intros Hf. induction fuel as [|fuel IH]; intros i lastError w Hpos Hsum; [lia|].
  rewrite withRetry_loop_step. unfold lift_net at 1. cbn [net log draws].
  destruct (Hf i (net w)) as (e & n' & -> & -> & Hq). rewrite Hq.
  destruct (Z.ltb_spec (Z.of_nat i) (Z.of_nat retries - 1)).
  - match goal with
    | |- context [withRetry_loop _ _ _ _ fuel (S i) e ?w2] =>
        destruct (IH (S i) e w2 ltac:(lia) ltac:(lia)) as (evs & Hlog & Hwaits)
    end.
    rewrite Hlog. cbn [log draws] in Hwaits |- *.
    eexists (EvAttempt i :: EvDelay _ :: evs).
    split; [rewrite <- !app_assoc; reflexivity|].
    count_events. rewrite Hwaits.
    replace (S fuel - 1)%nat with (S (fuel - 1)) by lia.
    cbn [seq fmap list_fmap]. rewrite !Nat.add_0_r. f_equal.
    rewrite <- fmap_S_seq, <- list_fmap_compose.
    apply list_fmap_ext. intros _ k _. cbn.
    now rewrite !Nat.add_succ_r.
  - assert (fuel = 0)%nat as -> by lia.
    exists [EvAttempt i]. cbn [snd log]. split; reflexivity.
Qed.

(** When every attempt fails with a retryable error, the wait after
    attempt [k] is the base delay doubled [k] times plus the [k]-th
    random draw of the run times 1000, and the base is 8000 ms when the
    inline quota test of [withRetry] accepts the errors and 2000 ms
    when it does not. *)
Theorem withRetry_wait_schedule {N T} (random : nat -> Q)
    (f : nat -> N -> Result T * N) (retries : nat) (retryOnQuota isQuota : bool)
    (w : World N) :
  (0 < retries)%nat ->
  (forall i n, exists e n',
     f i n = (Rejected e, n') /\
     isRetryableError e retryOnQuota = Resolved true /\
     retry_isQuota e = isQuota) ->
  exists evs,
    log (withRetry random (fun j => lift_net (f j)) retries retryOnQuota w).2
      = log w ++ evs /\
    waits_of evs =
      (fun k => (if isQuota then 8000 else 2000) * pow2 k
                + random (draws w + k)%nat * 1000)%Q
      <$> seq 0 (retries - 1).
Proof.
  intros Hpos Hf.
  apply (withRetry_loop_schedule random f retries retryOnQuota isQuota Hf
           retries 0 ErrUndefined w Hpos). lia.
Qed.

(** Quota errors under the budget of three: 8000 and 16000 ms plus
    jitter. *)
Lemma withRetry_wait_schedule_witness :
  exists evs,
    log (withRetry (fun k => (Z.of_nat k # 10)%Q)
           (fun _ => lift_net (fun n : nat =>
              (@Rejected string (new_Error "Quota exceeded"), S n)))
           3 true fresh_world).2 = log fresh_world ++ evs /\
    waits_of evs =
      (fun k => (if true then 8000 else 2000) * pow2 k
                + (Z.of_nat (draws fresh_world + k) # 10) * 1000)%Q
      <$> seq 0 (3 - 1).
Proof.
  apply (withRetry_wait_schedule (fun k => (Z.of_nat k # 10)%Q)
           (fun _ n => (Rejected (new_Error "Quota exceeded"), S n)) 3 true true
           fresh_world).
  - lia.
  - intros i n. eexists _, _. split; [reflexivity|]. split; reflexivity.
Defined.

(** A run of the research task on the prose backend. *)
Lemma research_result_has_three_prompts_witness :
  length (prompts (mkResearch [] (synthesized_prompts "pulp necrosis"))) = 3%nat.
Proof.
  eapply (research_result_has_three_prompts (fun _ => 0%Q) (Some "key")
            JSON_parse_fragment prose_backend "pulp necrosis" fresh_world).
  vm_compute. reflexivity.
Defined.

(** ** The budget of a task *)

Lemma total_wait_app (evs evs' : list Event) :
  (total_wait (evs ++ evs') == total_wait evs + total_wait evs')%Q.
Proof.
  unfold total_wait. rewrite waits_of_app.
  induction (waits_of evs) as [|d ds IH]; cbn [app foldr]; [lra|].
  rewrite IH. lra.
Qed.

Lemma wait_budget_nonneg (fuel : nat) : forall i, (0 <= wait_budget i fuel)%Q.
Proof.
  induction fuel as [|fuel IH]; intros i; cbn [wait_budget]; [lra|].
  destruct fuel as [|fuel']; [lra|].
  pose proof (IH (S i)) as Hrest. pose proof (pow2_pos i) as Hp. lra.
Qed.

(** The loop of [withRetry] over a quiet attempt function stays within
    its budget of attempts and of waiting. *)
Lemma withRetry_loop_budget {N T} (random : nat -> Q) (fn : nat -> M N T)
    (retries : nat) (retryOnQuota : bool) :
  quiet fn ->
  (forall k, 0 <= random k < 1)%Q ->
  forall fuel i lastError (w : World N),
    (fuel + i = retries)%nat ->
    exists evs,
      log (withRetry_loop random fn retries retryOnQuota fuel i lastError w).2
        = log w ++ evs /\
      (length (attempts_of evs) <= fuel)%nat /\
      (total_wait evs <= wait_budget i fuel)%Q.
Proof.
  intros Hquiet Hrand. induction fuel as [|fuel IH]; intros i lastError w Hsum.
  { exists []. cbn. split; [now rewrite app_nil_r|]. split; [lia|]. unfold total_wait.
    cbn. lra. }
  rewrite withRetry_loop_step.
  pose proof (Hquiet i (mkWorld (log w ++ [EvAttempt i]) (draws w) (net w))) as Hlog.
  pose proof (wait_budget_nonneg (S fuel) i) as Hnonneg.
  assert (Hone : exists evs,
            log w ++ [EvAttempt i] = log w ++ evs /\
            (length (attempts_of evs) <= S fuel)%nat /\
            (total_wait evs <= wait_budget i (S fuel))%Q).
  { exists [EvAttempt i]. split; [done|]. split; [cbn; lia|exact Hnonneg]. }
  destruct (fn i _) as [[v|error] w1]; cbn [snd log] in Hlog |- *;
    [now rewrite Hlog|].
  destruct (isRetryableError error retryOnQuota) as [[|]|te];
    cbn [snd]; try (now rewrite Hlog).
  destruct (Z.ltb_spec (Z.of_nat i) (Z.of_nat retries - 1));
    cbn [snd]; [|now rewrite Hlog].
  match goal with
  | |- context [withRetry_loop _ _ _ _ fuel (S i) error ?w2] =>
      destruct (IH (S i) error w2 ltac:(lia)) as (evs & Hevs & Hlen & Hwait)
  end.
  rewrite Hevs. cbn [log]. rewrite Hlog.
  eexists (EvAttempt i :: EvDelay _ :: evs).
  split; [now rewrite <- !app_assoc|].
  split; [count_events; lia|].
  destruct fuel as [|fuel']; [lia|].
  pose proof (backoff_window random (draws w1) i (retry_isQuota error)
                (Hrand (draws w1))) as [_ Hd].
  change (wait_budget i (S (S fuel')))
    with (8000 * pow2 i + 1000 + wait_budget (S i) (S fuel'))%Q.
  unfold total_wait in *. count_events. cbn [foldr]. lra.
Qed.

Lemma attempts_of_app (evs evs' : list Event) :
  attempts_of (evs ++ evs') = attempts_of evs ++ attempts_of evs'.
Proof. apply omap_app. Qed.

(** Events that are neither attempts nor waits do not count. *)
Lemma budget_prefix (pre evs : list Event) :
  attempts_of pre = [] -> waits_of pre = [] ->
  length (attempts_of (pre ++ evs)) = length (attempts_of evs) /\
  (total_wait (pre ++ evs) == total_wait evs)%Q.
Proof.
  intros Ha Hw. rewrite attempts_of_app, Ha. split; [done|].
  unfold total_wait. rewrite waits_of_app, Hw. cbn [app]. lra.
Qed.

(** A cooldown between two budgeted runs. *)
Lemma budget_join (evs1 : list Event) (c : Q) (m : string) (evs2 : list Event) :
  length (attempts_of (evs1 ++ [EvDelay c] ++ [EvModel m] ++ evs2))
    = (length (attempts_of evs1) + length (attempts_of evs2))%nat /\
  (total_wait (evs1 ++ [EvDelay c] ++ [EvModel m] ++ evs2)
   == total_wait evs1 + c + total_wait evs2)%Q.
Proof.
  rewrite attempts_of_app, length_app. split; [reflexivity|].
  rewrite total_wait_app.
  change (total_wait ([EvDelay c] ++ [EvModel m] ++ evs2)) with (c + total_wait evs2)%Q.
  lra.
Qed.

(** The fallback over two distinct models, each retried within a
    budget. *)
Lemma two_model_budget {N T} (random : nat -> Q) (API_KEY : option string)
    (fn : string -> string -> nat -> M N T) (retries : nat) (retryOnQuota : bool)
    (m1 m2 : string) (w : World N) :
  (forall m k, quiet (fn m k)) ->
  (forall k, 0 <= random k < 1)%Q ->
  m1 <> m2 ->
  within_budget
    (withModelFallback API_KEY
       (fun m k => withRetry random (fn m k) retries retryOnQuota) [m1; m2])
    w (retries + retries) (wait_budget 0 retries + 8000 + wait_budget 0 retries).
Proof.
  intros Hquiet Hrand Hne. unfold within_budget.
  pose proof (wait_budget_nonneg retries 0) as Hnonneg.
  rewrite withModelFallback_check.
  destruct (usable_key API_KEY) as [key|].
  2:{ exists [EvGetApiKey]. cbn [snd log]. split; [done|].
      change (attempts_of [EvGetApiKey]) with (@nil nat).
      change (total_wait [EvGetApiKey]) with 0%Q. cbn [length]. split; [lia|lra]. }
  rewrite fallback_loop_step. cbn [log draws net].
  set (w0 := mkWorld ((log w ++ [EvGetApiKey]) ++ [EvModel m1]) (draws w) (net w)).
  destruct (withRetry_loop_budget random (fn m1 key) retries retryOnQuota
              (Hquiet m1 key) Hrand retries 0 ErrUndefined w0 ltac:(lia))
    as (evs1 & Hlog1 & Hlen1 & Hwait1).
  fold (withRetry random (fn m1 key) retries retryOnQuota w0) in Hlog1.
  subst w0. cbn [log] in Hlog1.
  assert (Hstop : forall w1 : World N,
            log w1 = ((log w ++ [EvGetApiKey]) ++ [EvModel m1]) ++ evs1 ->
            exists evs,
              log w1 = log w ++ evs /\
              (length (attempts_of evs) <= retries + retries)%nat /\
              (total_wait evs <= wait_budget 0 retries + 8000 + wait_budget 0 retries)%Q).
  { intros w1 Hw1. exists ([EvGetApiKey; EvModel m1] ++ evs1).
    destruct (budget_prefix [EvGetApiKey; EvModel m1] evs1 eq_refl eq_refl)
      as [Hlen Hwait].
    split; [rewrite Hw1, <- !app_assoc; reflexivity|].
    rewrite Hlen, Hwait. split; [lia|lra]. }
  destruct (withRetry random (fn m1 key) retries retryOnQuota _) as [[v|e] w1];
    cbn [snd] in Hlog1; [cbn [snd]; now apply Hstop|].
  assert (Hfirst : (indexOf [m1; m2] m1 <? Z.of_nat (length [m1; m2]) - 1)%Z = true).
  { cbn [indexOf]. now rewrite String.eqb_refl. }
  assert (Hsecond : (indexOf [m1; m2] m2 <? Z.of_nat (length [m1; m2]) - 1)%Z = false).
  { cbn [indexOf]. rewrite String.eqb_refl.
    now destruct (String.eqb_spec m1 m2). }
  assert (Hcont : forall err (c : Q) (wc : World N),
            (0 <= c <= 8000)%Q ->
            log wc = log w1 ++ [EvDelay c] ->
            exists evs,
              log (fallback_loop
                     (fun m k => withRetry random (fn m k) retries retryOnQuota)
                     [m1; m2] key [m2] err wc).2 = log w ++ evs /\
              (length (attempts_of evs) <= retries + retries)%nat /\
              (total_wait evs <= wait_budget 0 retries + 8000 + wait_budget 0 retries)%Q).
  { intros err c wc Hc Hlogc.
    rewrite fallback_loop_step.
    set (wc0 := mkWorld (log wc ++ [EvModel m2]) (draws wc) (net wc)).
    destruct (withRetry_loop_budget random (fn m2 key) retries retryOnQuota
                (Hquiet m2 key) Hrand retries 0 ErrUndefined wc0 ltac:(lia))
      as (evs2 & Hlog2 & Hlen2 & Hwait2).
    fold (withRetry random (fn m2 key) retries retryOnQuota wc0) in Hlog2.
    exists ([EvGetApiKey; EvModel m1] ++ evs1 ++ [EvDelay c] ++ [EvModel m2] ++ evs2).
    destruct (budget_prefix [EvGetApiKey; EvModel m1]
                (evs1 ++ [EvDelay c] ++ [EvModel m2] ++ evs2) eq_refl eq_refl)
      as [Hlen Hwait].
    destruct (budget_join evs1 c m2 evs2) as [Hlen' Hwait'].
    rewrite Hlen, Hwait, Hlen', Hwait'.
    assert (Hall : log wc0 ++ evs2 =
                   log w ++ [EvGetApiKey; EvModel m1] ++ evs1 ++ [EvDelay c]
                   ++ [EvModel m2] ++ evs2).
    { subst wc0. cbn [log]. rewrite Hlogc, Hlog1, <- !app_assoc. reflexivity. }
    destruct (withRetry random (fn m2 key) retries retryOnQuota wc0) as [[v2|e2] w2];
      cbn [snd] in Hlog2.
    - cbn [snd]. rewrite Hlog2. split; [exact Hall|]. split; [lia|lra].
    - rewrite Hsecond. cbn [fallback_loop]. unfold throw.
      destruct e2 as [|t|o]; cbn [snd]; rewrite Hlog2;
        (split; [exact Hall|]); (split; [lia|lra]). }
  destruct e as [|t|o].
  - cbn [snd]. now apply Hstop.
  - rewrite Hfirst.
    apply (Hcont _ (if fallback_isQuota (ErrString t) then 8000 else 1000)%Q);
      [destruct (fallback_isQuota _); lra|reflexivity].
  - rewrite Hfirst.
    apply (Hcont _ (if fallback_isQuota (ErrObject o) then 8000 else 1000)%Q);
      [destruct (fallback_isQuota _); lra|reflexivity].
Qed.

Lemma json_attempt_quiet {N} (JSON_parse : string -> option Json)
    (generateContent : Request -> N -> Result Response * N) (request : Request) :
  quiet (fun _ : nat => json_attempt JSON_parse generateContent request).
Proof.
  intros i w. unfold json_attempt, bind, lift_net, settle.
  now destruct (generateContent request (net w)) as [[resp|e] n'].
Qed.

Lemma research_attempt_quiet {N} (JSON_parse : string -> option Json)
    (generateContent : Request -> N -> Result Response * N)
    (topic modelName apiKey : string) :
  quiet (fun _ : nat =>
           research_attempt JSON_parse generateContent topic modelName apiKey).
Proof.
  intros i w. unfold research_attempt, bind, lift_net, ret.
  now destruct (generateContent _ (net w)) as [[resp|e] n'].
Qed.

Lemma image_attempt_quiet {N} (generateContent : Request -> N -> Result Response * N)
    (prompt : string) (type : ImageType) (modelName apiKey : string) :
  quiet (fun _ : nat => image_attempt generateContent prompt type modelName apiKey).
Proof.
  intros i w. unfold image_attempt, bind, lift_net, ret, throw.
  destruct (generateContent _ (net w)) as [[resp|e] n']; [|done].
  now destruct (first_inline _).
Qed.

(** Whatever the backend does, a text task or the research task makes
    at most six attempts and waits at most 60 seconds in all, and the
    image task makes at most four attempts and waits at most 26
    seconds. *)
Theorem service_budget {N} (random : nat -> Q) (API_KEY : option string)
    (JSON_parse : string -> option Json)
    (generateContent : Request -> N -> Result Response * N)
    (topic : string) (language : App.Language) (count : Z)
    (difficulty : App.Difficulty) (type : ImageType) (w : World N) :
  (forall k, 0 <= random k < 1)%Q ->
  within_budget
    (generateSimulationContent random API_KEY JSON_parse generateContent topic)
    w 6 60000 /\
  within_budget
    (generatePracticalContent random API_KEY JSON_parse generateContent topic)
    w 6 60000 /\
  within_budget
    (generateQuizContent random API_KEY JSON_parse generateContent topic language
       count difficulty) w 6 60000 /\
  within_budget
    (generateResearchContent random API_KEY JSON_parse generateContent topic)
    w 6 60000 /\
  within_budget
    (generateRealisticDentalImage random API_KEY generateContent topic type)
    w 4 26000.
Proof.
  intros Hrand.
  assert (Hthree : (wait_budget 0 3 + 8000 + wait_budget 0 3 <= 60000)%Q)
    by (vm_compute; discriminate).
  assert (Htwo : (wait_budget 0 2 + 8000 + wait_budget 0 2 <= 26000)%Q)
    by (vm_compute; discriminate).
  assert (Hweaken : forall T (task : M N T) a ms ms',
            (ms <= ms')%Q -> within_budget task w a ms -> within_budget task w a ms').
  { intros T task a ms ms' Hle (evs & Hlog & Hlen & Hwait).
    exists evs. split; [exact Hlog|]. split; [exact Hlen|]. lra. }
  repeat split.
  - apply (Hweaken _ _ _ _ _ Hthree).
    apply (two_model_budget random API_KEY
             (fun m k _ => json_attempt JSON_parse generateContent
                             (simulation_request topic m k)) 3 true);
      [intros m k; apply json_attempt_quiet|exact Hrand|discriminate].
  - apply (Hweaken _ _ _ _ _ Hthree).
    apply (two_model_budget random API_KEY
             (fun m k _ => json_attempt JSON_parse generateContent
                             (practical_request topic m k)) 3 true);
      [intros m k; apply json_attempt_quiet|exact Hrand|discriminate].
  - apply (Hweaken _ _ _ _ _ Hthree).
    apply (two_model_budget random API_KEY
             (fun m k _ => json_attempt JSON_parse generateContent
                             (quiz_request topic language count difficulty m k)) 3 true);
      [intros m k; apply json_attempt_quiet|exact Hrand|discriminate].
  - apply (Hweaken _ _ _ _ _ Hthree).
    apply (two_model_budget random API_KEY
             (fun m k _ => research_attempt JSON_parse generateContent topic m k) 3 true);
      [intros m k; apply research_attempt_quiet|exact Hrand|discriminate].
  - apply (Hweaken _ _ _ _ _ Htwo).
    destruct (two_model_budget random API_KEY
                (fun m k _ => image_attempt generateContent topic type m k) 2 true
                "gemini-2.5-flash-image" "gemini-3-pro-image-preview" w
                ltac:(intros m k; apply image_attempt_quiet) Hrand ltac:(discriminate))
      as (evs & Hlog & Hlen & Hwait).
    exists evs. split; [|split; [exact Hlen|exact Hwait]].
    rewrite <- Hlog. unfold generateRealisticDentalImage, try_catch, bind, ret.
    unfold modelsToTry.
    now destruct (withModelFallback _ _ _ w) as [[url|e] w1].
Qed.

(** A backend that is always out of quota, with the largest jitter a
    tenth of a second short of a full one. *)
Lemma service_budget_witness :
  within_budget
    (generateSimulationContent (fun _ => (9 # 10)%Q) (Some "key") JSON_parse_fragment
       (fun _ n => (Rejected quota_by_code, S n)) "caries") fresh_world 6 60000 /\
  within_budget
    (generatePracticalContent (fun _ => (9 # 10)%Q) (Some "key") JSON_parse_fragment
       (fun _ n => (Rejected quota_by_code, S n)) "caries") fresh_world 6 60000 /\
  within_budget
    (generateQuizContent (fun _ => (9 # 10)%Q) (Some "key") JSON_parse_fragment
       (fun _ n => (Rejected quota_by_code, S n)) "caries" App.en 5 App.Easy)
    fresh_world 6 60000 /\
  within_budget
    (generateResearchContent (fun _ => (9 # 10)%Q) (Some "key") JSON_parse_fragment
       (fun _ n => (Rejected quota_by_code, S n)) "caries") fresh_world 6 60000 /\
  within_budget
    (generateRealisticDentalImage (fun _ => (9 # 10)%Q) (Some "key")
       (fun _ n => (Rejected quota_by_code, S n)) "caries" CLINICAL)
    fresh_world 4 26000.
Proof.
  apply (service_budget (fun _ => (9 # 10)%Q) (Some "key") JSON_parse_fragment
           (fun _ n => (Rejected quota_by_code, S n)) "caries" App.en 5 App.Easy
           CLINICAL fresh_world).
  intros k. split; [discriminate|reflexivity].
Defined.

(** * Further properties of the handler *)

Module HandlerProperties.

Import App AppSpec AppHandlers HandlerSpec AppProperties.

Section Guards.

Context {B : Type} `{Service B}.

(** An accepted click up to the primary task. *)
Lemma click_started (w : AppWorld B) :
  accepts_click (state w) = true ->
  click w =
    try_finally
      (try_catch
         (match activeTab (state w) with
          | simulation => simulation_branch (state w) (input (state w))
          | practical => practical_branch (state w) (input (state w))
          | gallery => gallery_branch (state w) (input (state w))
          | quiz => quiz_branch (state w) (input (state w))
          end)
         handle_error)
      (finally_block (activeTab (state w)))
      (mkAppWorld (started (state w)) (trace w) (service w)).
Proof.
  intros Hacc. unfold click, handleConvert.
  unfold accepts_click in Hacc. apply andb_prop in Hacc as [Hkey Hguard].
  apply negb_true_iff in Hkey, Hguard. rewrite Hkey, Hguard.
  unfold try_finally, try_catch. run_app. reflexivity.
Qed.

(** What the [catch] block writes: one of three status messages; the
    credential flag is raised with the second only, and the chat, the
    input and [loading] are not touched. *)
Lemma handle_error_flags (e : JsError) (w : AppWorld B) :
  exists st,
    handle_error e w = (Resolved None, mkAppWorld st (trace w) (service w)) /\
    loading st = loading (state w) /\
    input st = input (state w) /\
    messages st = messages (state w) /\
    activeTab st = activeTab (state w) /\
    uploadedImage st = uploadedImage (state w) /\
    simulationData st = simulationData (state w) /\
    (errorStatus st = Some TryAgainShortly /\ apiKeyMissing st = apiKeyMissing (state w)
     \/ errorStatus st = Some KeyMissingCheckEnv /\ apiKeyMissing st = true
     \/ exists detail,
          errorStatus st = Some (GenericError detail) /\
          apiKeyMissing st = apiKeyMissing (state w)).
Proof.
  unfold handle_error.
  destruct (_ || _); [|destruct (Js.includes _ "API_KEY")]; run_app;
    (eexists; split; [reflexivity|]); cbn; eauto 14.
Qed.

(** An accepted click whose primary task rejects: the [catch] and the
    [finally] blocks run on the state in which the task was awaited. *)
Lemma click_primary_failure (w : AppWorld B) (e : JsError) (b' : B) :
  accepts_click (state w) = true ->
  primary_rejects (state w) (service w) e b' ->
  click w =
    (Resolved None,
     finally_block (activeTab (state w))
       (handle_error e (mkAppWorld (before_primary (state w)) (trace w) b')).2).
Proof.
  intros Hacc Hrej. rewrite (click_started w Hacc).
  unfold primary_rejects in Hrej. unfold before_primary.
  unfold try_finally, try_catch.
  assert (Hfin : forall w1 : AppWorld B,
            (let (r, w2) := handle_error e w1 in
             (r, finally_block (activeTab (state w)) w2))
            = (Resolved None,
               finally_block (activeTab (state w)) (handle_error e w1).2)).
  { intros w1. destruct (handle_error_flags e w1) as (st & -> & _). reflexivity. }
  destruct (activeTab (state w)) eqn:Htab.
  - unfold simulation_branch.
    destruct (Js.nonempty (uploadedImage (state w))) as [image|];
      run_app; rewrite Hrej; apply Hfin.
  - destruct Hrej as [Himg Hrej]. unfold practical_branch. rewrite Himg.
    run_app. rewrite Hrej. apply Hfin.
  - unfold gallery_branch. run_app. rewrite Hrej. apply Hfin.
  - unfold quiz_branch. run_app. rewrite Hrej. apply Hfin.
Qed.

End Guards.

(** A click the guards turn away does nothing: the service is not
    called and nothing is logged; the state is untouched, except that
    with the credential flagged as missing the status is set to the
    stop message. *)
Lemma click_turned_away {B : Type} `{Service B} (w : AppWorld B) :
  accepts_click (state w) = false ->
  click w =
    (Resolved None,
     mkAppWorld
       (if apiKeyMissing (state w)
        then setErrorStatus (Some StoppedKeyMissing) (state w)
        else state w)
       (trace w) (service w)).
Proof.
  intros Hacc. unfold click, handleConvert, accepts_click in *.
  destruct (apiKeyMissing (state w)); [reflexivity|].
  cbn [negb andb] in Hacc. apply negb_false_iff in Hacc. rewrite Hacc.
  now destruct w.
Qed.

(** When the primary task rejects, the simulation and the quiz tab
    lower [loading] again, but the practical and the gallery tab leave
    it raised: there every later click is turned away without a call
    of the service, and [loading] stays raised.  In all four the input
    is cleared and the user's message stays in the chat. *)
Theorem primary_failure_loading {B : Type} `{Service B}
    (w : AppWorld B) (e : JsError) (b' : B) :
  accepts_click (state w) = true ->
  primary_rejects (state w) (service w) e b' ->
  exists st,
    click w = (Resolved None, mkAppWorld st (trace w) b') /\
    input st = "" /\
    messages st = messages (state w) ++ [user_message (state w)] /\
    match activeTab (state w) with
    | practical | gallery =>
        loading st = true /\
        forall tr b, exists st',
          click (mkAppWorld st tr b) = (Resolved None, mkAppWorld st' tr b) /\
          loading st' = true
    | _ => loading st = false
    end.
Proof.
  intros Hacc Hrej. rewrite (click_primary_failure w e b' Hacc Hrej).
  destruct (handle_error_flags e (mkAppWorld (before_primary (state w)) (trace w) b'))
    as (st & -> & Hload & _ & Hmsgs & _).
  cbn [snd state trace service] in *. unfold finally_block. cbn [state trace service].
  eexists. split; [reflexivity|].
  assert (Hlater : forall st0 : AppState, loading st0 = true ->
            forall tr (b : B), exists st',
              click (mkAppWorld st0 tr b) = (Resolved None, mkAppWorld st' tr b) /\
              loading st' = true).
  { intros st0 Hst0 tr b. rewrite click_turned_away.
    - cbn [state trace service]. eexists. split; [reflexivity|].
      now destruct (apiKeyMissing st0).
    - unfold accepts_click. cbn [state]. rewrite Hst0.
      now rewrite orb_true_r, andb_false_r. }
  unfold before_primary in *.
  destruct (activeTab (state w)); cbn in Hload, Hmsgs |- *; rewrite ?Hmsgs;
    (split; [reflexivity|]); (split; [reflexivity|]); try reflexivity;
    (split; [exact Hload|]); apply Hlater; exact Hload.
Qed.

Lemma primary_failure_loading_witness :
  exists st,
    click (H := failing_service) (sample_world gallery)
      = (Resolved None, mkAppWorld st (trace (sample_world gallery)) 1%nat) /\
    input st = "" /\
    messages st = messages (state (sample_world gallery))
                  ++ [user_message (state (sample_world gallery))] /\
    match activeTab (state (sample_world gallery)) with
    | practical | gallery =>
        loading st = true /\
        forall tr b, exists st',
          click (H := failing_service) (mkAppWorld st tr b)
            = (Resolved None, mkAppWorld st' tr b) /\
          loading st' = true
    | _ => loading st = false
    end.
Proof.
  apply (primary_failure_loading (H := failing_service) (sample_world gallery)
           (new_Error "backend down") 1%nat).
  - reflexivity.
  - reflexivity.
Defined.

Section Outcomes.

Context {B : Type} `{Service B}.

(** The [catch] block on the error the fallback throws for a missing
    credential. *)
Lemma handle_error_missing_key (w : AppWorld B) :
  handle_error (new_Error missing_key_message) w =
    (Resolved None,
     mkAppWorld
       (setErrorStatus (Some (GenericError (Js.substring missing_key_message 0 100)))
          (state w))
       (trace w) (service w)).
Proof.
  unfold handle_error.
  change (Js.nonempty (message_of (new_Error missing_key_message)))
    with (Some missing_key_message).
  cbv beta iota.
  assert (Hquota : Js.includes (Js.toLowerCase missing_key_message) "quota"
                   || Js.includes missing_key_message "429" = false)
    by (vm_compute; reflexivity).
  assert (Hkey : Js.includes missing_key_message "API_KEY" = false)
    by (vm_compute; reflexivity).
  rewrite Hquota, Hkey. reflexivity.
Qed.

Lemma requested_app (tr tr' : list AppEvent) :
  requested (tr ++ tr') = requested tr ++ requested tr'.
Proof. apply omap_app. Qed.

Lemma setSimulationData_update (v : SimulationData)
    (f : SimulationData -> SimulationData) (s : AppState) :
  setSimulationData v (updateSimulationData f s) = setSimulationData v s.
Proof. reflexivity. Qed.

(** The loop of the simulation branch: it always runs to its end, asks
    for every image in order, and writes nothing but the three image
    fields of the simulation. *)
Lemma simulation_loop_spec (reqs : list (string * ImageType * ImageKey)) :
  forall w : AppWorld B,
  exists w' tr,
    simulation_loop reqs w = (Resolved tt, w') /\
    trace w' = trace w ++ tr /\
    requested tr = (fun r => (r.1.1, r.1.2)) <$> reqs /\
    state w' = setSimulationData (simulationData (state w')) (state w) /\
    data (simulationData (state w')) = data (simulationData (state w)).
Proof.
  induction reqs as [|[[p type] key] rest IH]; intros w.
  - exists w, []. cbn [simulation_loop]. unfold ret.
    split; [done|]. split; [now rewrite app_nil_r|]. split; [done|].
    split; [now destruct w as [[] ? ?]|done].
  - rewrite simulation_loop_step.
    destruct (generateRealisticDentalImage p type (service w)) as [r b1].
    match goal with
    | |- context [simulation_loop rest ?w1] =>
        destruct (IH w1) as (w' & tr & Hrun & Htr & Hreq & Hst & Hdata)
    end.
    cbn [state trace service] in Htr, Hst, Hdata.
    eexists w', _. split; [exact Hrun|].
    split; [rewrite Htr, <- !app_assoc; reflexivity|].
    split.
    + rewrite !requested_app, Hreq. cbn [fmap list_fmap fst snd].
      destruct r as [img|e]; [destruct (Js.nonempty img)|]; reflexivity.
    + destruct r as [img|e]; [destruct (Js.nonempty img) as [u|]|];
        rewrite Hdata; rewrite Hst at 1;
        (split; [try reflexivity|]);
        try (destruct key; reflexivity); reflexivity.
Qed.

End Outcomes.

(** The error the service throws for a missing credential is not the
    one the handler looks for: it is reported as a generic failure and
    the credential flag stays down, so later clicks are not stopped. *)
Theorem missing_key_rejection_not_recognised {B : Type} `{Service B}
    (w : AppWorld B) (b' : B) :
  accepts_click (state w) = true ->
  primary_rejects (state w) (service w) (new_Error missing_key_message) b' ->
  exists st detail,
    click w = (Resolved None, mkAppWorld st (trace w) b') /\
    errorStatus st = Some (GenericError detail) /\
    apiKeyMissing st = false.
Proof.
  intros Hacc Hrej. rewrite (click_primary_failure w _ b' Hacc Hrej).
  rewrite handle_error_missing_key. cbn [snd state trace service].
  unfold finally_block. cbn [state trace service].
  eexists _, _. split; [reflexivity|].
  unfold accepts_click in Hacc. apply andb_prop in Hacc as [Hkey _].
  apply negb_true_iff in Hkey. unfold before_primary.
  destruct (activeTab (state w)); cbn; rewrite ?Hkey; split; reflexivity.
Qed.

Lemma missing_key_rejection_not_recognised_witness :
  exists st detail,
    click (H := mkService nat
                  (fun _ n => (Rejected (new_Error missing_key_message), S n))
                  (fun _ n => (Rejected (new_Error missing_key_message), S n))
                  (fun _ n => (Rejected (new_Error missing_key_message), S n))
                  (fun _ _ _ _ n => (Rejected (new_Error missing_key_message), S n))
                  (fun _ n => (Rejected (new_Error missing_key_message), S n))
                  (fun _ _ n => (Resolved None, S n)))
      (sample_world quiz) = (Resolved None, mkAppWorld st (trace (sample_world quiz)) 1%nat) /\
    errorStatus st = Some (GenericError detail) /\
    apiKeyMissing st = false.
Proof.
  apply (missing_key_rejection_not_recognised
           (H := mkService nat
                  (fun _ n => (Rejected (new_Error missing_key_message), S n))
                  (fun _ n => (Rejected (new_Error missing_key_message), S n))
                  (fun _ n => (Rejected (new_Error missing_key_message), S n))
                  (fun _ _ _ _ n => (Rejected (new_Error missing_key_message), S n))
                  (fun _ n => (Rejected (new_Error missing_key_message), S n))
                  (fun _ _ n => (Resolved None, S n)))
           (sample_world quiz) 1%nat).
  - reflexivity.
  - reflexivity.
Defined.

(** On the practical tab a submission with an uploaded image is
    refused: the user's message is added to the chat and the status
    points to the case view, but the service is not called, [loading]
    is lowered again and the image stays attached. *)
Theorem practical_refuses_uploaded_image {B : Type} `{Service B} (w : AppWorld B) :
  accepts_click (state w) = true ->
  activeTab (state w) = practical ->
  produced (uploadedImage (state w)) = true ->
  click w =
    (Resolved None,
     mkAppWorld
       (setInput ""
          (setLoading false
             (setErrorStatus (Some UseCaseViewForImages) (started (state w)))))
       (trace w) (service w)).
Proof.
  intros Hacc Htab Himg. rewrite (click_started w Hacc), Htab.
  unfold try_finally, try_catch, practical_branch. rewrite Himg.
  run_app. reflexivity.
Qed.

Lemma practical_refuses_uploaded_image_witness :
  click (H := failing_service)
    (mkAppWorld (setUploadedImage (Some "data:image/png;base64,AAAA")
                   (sample_state practical)) [] 0%nat) =
    (Resolved None,
     mkAppWorld
       (setInput ""
          (setLoading false
             (setErrorStatus (Some UseCaseViewForImages)
                (started (setUploadedImage (Some "data:image/png;base64,AAAA")
                            (sample_state practical))))))
       [] 0%nat).
Proof.
  apply (practical_refuses_uploaded_image (H := failing_service)
           (mkAppWorld (setUploadedImage (Some "data:image/png;base64,AAAA")
                          (sample_state practical)) [] 0%nat)).
  - reflexivity.
  - reflexivity.
  - reflexivity.
Defined.

(** A simulation request whose text task answers: the handler asks for
    the three images in the order clinical, radiology, exploded, each
    with its own prompt or else the user's text, and however the image
    requests settle it ends with no status message, [loading] lowered,
    the input cleared and the data of the simulation in place. *)
Theorem simulation_request_completes {B : Type} `{Service B}
    (w : AppWorld B) (d : ClinicalData) (b1 : B) :
  accepts_click (state w) = true ->
  activeTab (state w) = simulation ->
  Js.nonempty (uploadedImage (state w)) = None ->
  generateSimulationContent (input (state w)) (service w) = (Resolved (Some d), b1) ->
  exists w' tr,
    click w = (Resolved None, w') /\
    trace w' = trace w ++ tr /\
    requested tr = simulation_requests d (input (state w)) /\
    errorStatus (state w') = None /\
    loading (state w') = false /\
    input (state w') = "" /\
    data (simulationData (state w')) = Some d /\
    messages (state w') =
      messages (state w) ++
      [user_message (state w);
       mkMessage assistant (SimulationCreated (input (state w))) None].
Proof.
  intros Hacc Htab Himg Hcall. rewrite (click_started w Hacc), Htab.
  unfold try_finally, try_catch, simulation_branch. rewrite Himg.
  run_app. rewrite Hcall.
  match goal with
  | |- context [simulation_loop ?reqs ?w1] =>
      destruct (simulation_loop_spec reqs w1) as (w' & tr & -> & Htr & Hreq & Hst & Hdata)
  end.
  cbn [state trace service] in Htr, Hst, Hdata.
  eexists _, tr. split; [reflexivity|].
  unfold finally_block. cbn [state trace service].
  split; [exact Htr|]. split; [exact Hreq|].
  rewrite Hst. cbn. rewrite Hdata. cbn.
  repeat split; try reflexivity. now rewrite <- app_assoc.
Qed.

Lemma simulation_request_completes_witness :
  exists w' tr,
    click (H := mkService nat
                  (fun _ n => (Rejected (new_Error "backend down"), S n))
                  (fun _ n => (Resolved (Some (mkClinical None None (Some "bad") None None None)), S n))
                  (fun _ n => (Rejected (new_Error "backend down"), S n))
                  (fun _ _ _ _ n => (Rejected (new_Error "backend down"), S n))
                  (fun _ n => (Rejected (new_Error "backend down"), S n))
                  (fun p _ n =>
                     (if String.eqb p "bad" then Rejected (new_Error "no image")
                      else Resolved (Some ("image of " +:+ p)), S n)))
      (sample_world simulation) = (Resolved None, w') /\
    trace w' = trace (sample_world simulation) ++ tr /\
    requested tr =
      simulation_requests (mkClinical None None (Some "bad") None None None)
        (input (state (sample_world simulation))) /\
    errorStatus (state w') = None /\
    loading (state w') = false /\
    input (state w') = "" /\
    data (simulationData (state w'))
      = Some (mkClinical None None (Some "bad") None None None) /\
    messages (state w') =
      messages (state (sample_world simulation)) ++
      [user_message (state (sample_world simulation));
       mkMessage assistant
         (SimulationCreated (input (state (sample_world simulation)))) None].
Proof.
  apply (simulation_request_completes
           (H := mkService nat
                  (fun _ n => (Rejected (new_Error "backend down"), S n))
                  (fun _ n => (Resolved (Some (mkClinical None None (Some "bad") None None None)), S n))
                  (fun _ n => (Rejected (new_Error "backend down"), S n))
                  (fun _ _ _ _ n => (Rejected (new_Error "backend down"), S n))
                  (fun _ n => (Rejected (new_Error "backend down"), S n))
                  (fun p _ n =>
                     (if String.eqb p "bad" then Rejected (new_Error "no image")
                      else Resolved (Some ("image of " +:+ p)), S n)))
           (sample_world simulation)
           (mkClinical None None (Some "bad") None None None) 1%nat).
  - reflexivity.
  - reflexivity.
  - reflexivity.
  - reflexivity.
Defined.

Section Gallery.

Context {B : Type} `{Service B}.

Lemma same_item_refl (it : GalleryItem) : same_item it it.
Proof. done. Qed.

Lemma same_item_trans (it1 it2 it3 : GalleryItem) :
  same_item it1 it2 -> same_item it2 it3 -> same_item it1 it3.
Proof. unfold same_item. intros (-> & -> & ->) (-> & -> & ->). done. Qed.

(** What one write of the gallery loop does to the list it finds. *)
Lemma item_written (i : nat) (r : Result (option string)) (l : list GalleryItem) :
  let f := match r with
           | Resolved img => item_outcome i img
           | Rejected _ => item_failed i
           end in
  length (f l) = length l /\
  forall j it, l !! j = Some it ->
    exists it', f l !! j = Some it' /\ same_item it it' /\
      (j = i -> terminal (status it') = true) /\ (j <> i -> it' = it).
Proof.
  cbv zeta. unfold item_outcome, item_failed.
  destruct r as [img|e]; destruct (l !! i) as [it0|] eqn:Hi;
    (split; [now rewrite ?length_insert|]); intros j it Hj;
    (destruct (decide (j = i)) as [->|Hne];
     [rewrite Hi in Hj; try discriminate Hj
     |try (rewrite list_lookup_insert_ne by congruence);
      exists it; (split; [done|]); (split; [done|]); split; [congruence|done]]).
  - injection Hj as ->.
    rewrite list_lookup_insert_eq by (now apply lookup_lt_Some in Hi).
    eexists. split; [reflexivity|]. split; [done|]. split; [|done].
    intros _. cbn. now destruct (produced img).
  - injection Hj as ->.
    rewrite list_lookup_insert_eq by (now apply lookup_lt_Some in Hi).
    eexists. split; [reflexivity|]. split; [done|]. split; [|done].
    intros _. reflexivity.
Qed.

Lemma setGalleryItems_update (v : list GalleryItem)
    (f : list GalleryItem -> list GalleryItem) (s : AppState) :
  setGalleryItems v (updateGalleryItems f s) = setGalleryItems v s.
Proof. reflexivity. Qed.

(** The gallery loop over any list of jobs, on whatever list of items
    the component holds by then: it runs to its end, asks for one image
    per job in order, writes by index into the current list without
    changing its length or the identity of an item, leaves every item
    it wrote to completed or failed, and touches nothing else. *)
Lemma gallery_loop_spec (items : list GalleryItem) :
  forall i (w : AppWorld B),
  exists w' tr,
    gallery_loop items i w = (Resolved tt, w') /\
    trace w' = trace w ++ tr /\
    requested tr = (fun it => (prompt it, CLINICAL)) <$> items /\
    state w' = setGalleryItems (galleryItems (state w')) (state w) /\
    length (galleryItems (state w')) = length (galleryItems (state w)) /\
    forall j it, galleryItems (state w) !! j = Some it ->
      exists it', galleryItems (state w') !! j = Some it' /\ same_item it it' /\
        ((i <= j < i + length items)%nat -> terminal (status it') = true) /\
        (~ (i <= j < i + length items)%nat -> it' = it).
Proof.
  induction items as [|it0 rest IH]; intros i w.
  - exists w, []. cbn [gallery_loop]. unfold ret.
    split; [done|]. split; [now rewrite app_nil_r|]. split; [done|].
    split; [now destruct w as [[] ? ?]|]. split; [done|].
    intros j it Hj. exists it. cbn [length].
    split; [done|]. split; [done|]. split; [lia|done].
  - rewrite gallery_loop_step.
    destruct (generateRealisticDentalImage (prompt it0) CLINICAL (service w)) as [r b1].
    match goal with
    | |- context [gallery_loop rest (S i) ?w1] =>
        destruct (IH (S i) w1) as (w' & tr & Hrun & Htr & Hreq & Hst & Hlen & Hitems)
    end.
    cbn [state trace service] in Htr, Hst, Hlen, Hitems.
    destruct (item_written i r (galleryItems (state w))) as [Hlen1 Hitems1].
    cbv zeta in Hlen1, Hitems1.
    assert (Hgal : forall f, galleryItems (updateGalleryItems f (state w))
                             = f (galleryItems (state w))) by reflexivity.
    rewrite Hgal in Hlen, Hitems.
    eexists w', _. split; [exact Hrun|].
    split; [rewrite Htr, <- !app_assoc; reflexivity|].
    split.
    { rewrite !requested_app, Hreq. cbn [fmap list_fmap].
      now destruct (succeeded r). }
    split; [rewrite Hst at 1; apply setGalleryItems_update|].
    split; [now rewrite Hlen, Hlen1|].
    intros j it Hj.
    destruct (Hitems1 j it Hj) as (it1 & Hj1 & Hsame1 & Hterm1 & Hkeep1).
    destruct (Hitems j it1 Hj1) as (it' & Hj' & Hsame' & Hterm' & Hkeep').
    exists it'. split; [exact Hj'|].
    split; [exact (same_item_trans _ _ _ Hsame1 Hsame')|].
    cbn [length]. split.
    + intros Hrange. destruct (decide (j = i)) as [->|Hne].
      * rewrite Hkeep' by lia. now apply Hterm1.
      * apply Hterm'. lia.
    + intros Hout. rewrite Hkeep' by lia. apply Hkeep1. lia.
Qed.

End Gallery.

(** A gallery request whose research task answers: the handler
    publishes one loading item per prompt, lowers [loading] and leaves
    the image loop running; the loop asks for one image per prompt in
    order and ends with every item completed or failed, the prompts of
    the items still those of the research result. *)
Theorem gallery_request_completes {B : Type} `{Service B}
    (w : AppWorld B) (result : ResearchContent) (b1 : B) :
  accepts_click (state w) = true ->
  activeTab (state w) = gallery ->
  generateResearchContent (research_topic (state w) (input (state w))) (service w)
    = (Resolved result, b1) ->
  exists w1 w2 tr,
    click w = (Resolved (Some (GalleryImages (initial_items result))), w1) /\
    galleryItems (state w1) = initial_items result /\
    loading (state w1) = false /\
    trace w1 = trace w /\
    run_background (GalleryImages (initial_items result)) w1 = (Resolved tt, w2) /\
    trace w2 = trace w ++ tr /\
    requested tr = (fun p => (p, CLINICAL)) <$> content_prompts result /\
    prompt <$> galleryItems (state w2) = content_prompts result /\
    Forall (fun it => terminal (status it) = true) (galleryItems (state w2)) /\
    loading (state w2) = false.
Proof.
  intros Hacc Htab Hcall. rewrite (click_started w Hacc), Htab.
  unfold try_finally, try_catch, gallery_branch. run_app. rewrite Hcall.
  unfold finally_block. cbn [state trace service].
  match goal with
  | |- context [(Resolved (Some (GalleryImages _)), ?w0)] => set (w1 := w0)
  end.
  assert (Hg1 : galleryItems (state w1) = initial_items result) by reflexivity.
  assert (Ht1 : trace w1 = trace w) by reflexivity.
  destruct (gallery_loop_spec (initial_items result) 0 w1)
    as (w2 & tr & Hrun & Htr & Hreq & Hst & Hlen & Hitems).
  rewrite Hg1 in Hlen, Hitems. rewrite Ht1 in Htr.
  exists w1, w2, tr.
  split; [reflexivity|]. split; [reflexivity|]. split; [reflexivity|].
  split; [reflexivity|]. split; [exact Hrun|]. split; [exact Htr|].
  split.
  { rewrite Hreq. unfold initial_items. rewrite fmap_imap.
    exact (imap_const (fun p => (p, CLINICAL)) (content_prompts result)). }
  assert (Hinit : forall j it, initial_items result !! j = Some it ->
            content_prompts result !! j = Some (prompt it)).
  { intros j it Hj. unfold initial_items in Hj. rewrite list_lookup_imap in Hj.
    destruct (content_prompts result !! j) as [p|]; [|done].
    injection Hj as <-. reflexivity. }
  split.
  { apply list_eq. intros j. rewrite list_lookup_fmap.
    destruct (initial_items result !! j) as [it|] eqn:Hj.
    - destruct (Hitems j it Hj) as (it' & -> & (_ & Hp & _) & _).
      cbn. rewrite Hp. symmetry. now apply Hinit.
    - apply lookup_ge_None in Hj. rewrite <- Hlen in Hj.
      rewrite (proj2 (lookup_ge_None _ _) Hj). cbn. symmetry.
      apply lookup_ge_None. unfold initial_items in Hlen. rewrite length_imap in Hlen.
      lia. }
  split.
  { apply Forall_lookup. intros j it' Hj'.
    assert (Hlt : (j < length (initial_items result))%nat)
      by (rewrite <- Hlen; now apply lookup_lt_Some in Hj').
    destruct (lookup_lt_is_Some_2 _ _ Hlt) as (it & Hj).
    destruct (Hitems j it Hj) as (it'' & Hj'' & _ & Hterm & _).
    rewrite Hj' in Hj''. injection Hj'' as <-. apply Hterm. lia. }
  rewrite Hst. reflexivity.
Qed.

Lemma gallery_request_completes_witness :
  exists w1 w2 tr,
    click (H := answering_service) (sample_world gallery)
      = (Resolved (Some (GalleryImages (initial_items (mkContent [] ["a"; "bad"; "c"])))),
         w1) /\
    galleryItems (state w1) = initial_items (mkContent [] ["a"; "bad"; "c"]) /\
    loading (state w1) = false /\
    trace w1 = trace (sample_world gallery) /\
    run_background (H := answering_service)
      (GalleryImages (initial_items (mkContent [] ["a"; "bad"; "c"]))) w1
      = (Resolved tt, w2) /\
    trace w2 = trace (sample_world gallery) ++ tr /\
    requested tr = (fun p => (p, CLINICAL)) <$> content_prompts (mkContent [] ["a"; "bad"; "c"]) /\
    prompt <$> galleryItems (state w2) = content_prompts (mkContent [] ["a"; "bad"; "c"]) /\
    Forall (fun it => terminal (status it) = true) (galleryItems (state w2)) /\
    loading (state w2) = false.
Proof.
  apply (gallery_request_completes (H := answering_service) (sample_world gallery)
           (mkContent [] ["a"; "bad"; "c"]) 1%nat).
  - reflexivity.
  - reflexivity.
  - reflexivity.
Defined.

(** The gallery loop finds its item by index in whatever list the
    component holds when the image arrives: the image made for the
    prompt of the job is attached to the item at that index, which
    keeps its own prompt; when the list has no such index the image is
    dropped. *)
Theorem gallery_write_lands_by_index {B : Type} `{Service B}
    (job : GalleryItem) (i : nat) (w : AppWorld B) (u : string) (b1 : B) :
  u <> "" ->
  generateRealisticDentalImage (prompt job) CLINICAL (service w) = (Resolved (Some u), b1) ->
  exists w',
    gallery_loop [job] i w = (Resolved tt, w') /\
    match galleryItems (state w) !! i with
    | Some current =>
        galleryItems (state w') !! i =
          Some (mkItem (item_id current) (prompt current) (Some u) Completed
                  (source current))
    | None => galleryItems (state w') = galleryItems (state w)
    end.
Proof.
  intros Hu Hcall. rewrite gallery_loop_step, Hcall. cbn [gallery_loop]. unfold ret.
  eexists. split; [reflexivity|]. cbn [state].
  assert (Hgal : forall f, galleryItems (updateGalleryItems f (state w))
                           = f (galleryItems (state w))) by reflexivity.
  rewrite Hgal. unfold item_outcome, produced, Js.nonempty.
  destruct (String.eqb_spec u "") as [->|_]; [done|].
  destruct (galleryItems (state w) !! i) as [current|] eqn:Hi; [|done].
  apply list_lookup_insert_eq. now apply lookup_lt_Some in Hi.
Qed.

(** The image made for the prompt [a] lands on an item with another
    prompt. *)
Lemma gallery_write_lands_by_index_witness :
  exists w',
    gallery_loop (H := answering_service) [sample_item 0 "a"] 0 (sample_world gallery)
      = (Resolved tt, w') /\
    match galleryItems (state (sample_world gallery)) !! 0%nat with
    | Some current =>
        galleryItems (state w') !! 0%nat =
          Some (mkItem (item_id current) (prompt current) (Some ("image of " +:+ "a"))
                  Completed (source current))
    | None => galleryItems (state w') = galleryItems (state (sample_world gallery))
    end.
Proof.
  apply (gallery_write_lands_by_index (H := answering_service) (sample_item 0 "a") 0
           (sample_world gallery) ("image of " +:+ "a") 1%nat).
  - discriminate.
  - reflexivity.
Defined.

Section Practical.

Context {B : Type} `{Service B}.

Lemma element_insert_ne {A} (arr : list (option A)) (i j : nat) (x : A) :
  i <> j -> element (<[i := Some x]> arr) j = element arr j.
Proof. intros Hne. unfold element. now rewrite list_lookup_insert_ne. Qed.

Lemma practical_state_fixed (s : AppState) (c : ClinicalData) :
  practicalData s = Some c -> s = setPracticalData (Some c) s.
Proof. destruct s. cbn. now intros ->. Qed.

Lemma with_protocol_fixed (c : ClinicalData) (cur : list (option PracticalStep)) :
  practicalProtocol c = Some cur -> c = with_protocol c cur.
Proof. destruct c. cbn. now intros ->. Qed.

(** The practical loop over steps whose entries are present in the
    protocol the component holds: it runs to its end, asks for one
    image per step that has a prompt, in order, keeps the length of the
    protocol, settles every such step and leaves the other entries as
    they were. *)
Lemma practical_loop_spec (steps : list PracticalStep) :
  forall i (w : AppWorld B) c cur,
    practicalData (state w) = Some c ->
    practicalProtocol c = Some cur ->
    (forall k, (k < length steps)%nat -> is_Some (element cur (i + k))) ->
    exists w' cur' tr,
      practical_loop steps i w = (Resolved tt, w') /\
      trace w' = trace w ++ tr /\
      requested tr = step_requests steps /\
      state w' = setPracticalData (Some (with_protocol c cur')) (state w) /\
      length cur' = length cur /\
      (forall j, (j < i \/ i + length steps <= j)%nat -> cur' !! j = cur !! j) /\
      (forall k st, steps !! k = Some st ->
         match Js.nonempty (visualPrompt st) with
         | Some _ => settled_step (element cur' (i + k))
         | None => cur' !! (i + k)%nat = cur !! (i + k)%nat
         end).
Proof.
  induction steps as [|st rest IH]; intros i w c cur Hdata Hproto Hpresent.
  - exists w, cur, []. cbn [practical_loop]. unfold ret.
    split; [done|]. split; [now rewrite app_nil_r|]. split; [done|].
    split; [rewrite <- (with_protocol_fixed c cur Hproto);
            now apply practical_state_fixed|].
    split; [done|]. split; [done|]. intros k st' Hk. done.
  - destruct (Js.nonempty (visualPrompt st)) as [p|] eqn:Hp.
    + rewrite (practical_loop_step st rest i p w Hp), Hdata.
      destruct (Hpresent 0%nat ltac:(cbn; lia)) as (st0 & Hst0).
      rewrite Nat.add_0_r in Hst0.
      destruct (mark_loading_resolved c cur i st0 Hproto Hst0)
        as (d & Hmark & Hout & Hfail).
      rewrite Hmark.
      destruct (generateRealisticDentalImage p CLINICAL (service w)) as [r b1].
      pose proof (element_lt cur i st0 Hst0) as Hlt.
      set (new := match r with
                  | Resolved img =>
                      with_image st0 (Js.nonempty img)
                        (if produced img then Completed else Failed)
                  | Rejected _ => with_status st0 Failed
                  end).
      set (cur1 := <[i := Some new]> cur).
      match goal with
      | |- context [practical_loop rest (S i) ?w0] => set (w1 := w0)
      end.
      assert (Hdata1 : practicalData (state w1) = Some (with_protocol c cur1)).
      { subst w1 cur1 new. cbn [state]. rewrite practicalData_update.
        destruct r as [img|e]; [rewrite Hout|rewrite Hfail];
          now rewrite array_set_lt. }
      assert (Hpresent1 : forall k, (k < length rest)%nat ->
                is_Some (element cur1 (S i + k))).
      { intros k Hk. subst cur1. rewrite element_insert_ne by lia.
        replace (S i + k)%nat with (i + S k)%nat by lia.
        apply Hpresent. cbn. lia. }
      destruct (IH (S i) w1 (with_protocol c cur1) cur1 Hdata1 eq_refl Hpresent1)
        as (w' & cur' & tr & Hrun & Htr & Hreq & Hst & Hlen & Hout' & Hsteps).
      eexists w', cur', _. split; [exact Hrun|].
      split; [rewrite Htr; subst w1; cbn [trace]; rewrite <- !app_assoc; reflexivity|].
      split.
      { rewrite !requested_app, Hreq. unfold step_requests. cbn [omap list_omap].
        rewrite Hp. cbn. now destruct (succeeded r). }
      split; [rewrite Hst; subst w1; reflexivity|].
      split; [rewrite Hlen; subst cur1; apply length_insert|].
      split.
      { intros j Hj. rewrite Hout' by (cbn [length] in Hj; lia).
        subst cur1. apply list_lookup_insert_ne. cbn [length] in Hj. lia. }
      intros k st' Hk. destruct k as [|k]; cbn in Hk.
      * injection Hk as <-. rewrite Hp, Nat.add_0_r.
        unfold element. rewrite Hout' by lia. subst cur1.
        rewrite list_lookup_insert_eq by exact Hlt. cbn.
        subst new. destruct r as [img|e]; [destruct (produced img)|];
          eexists _, _; (split; [reflexivity|]); split; reflexivity.
      * specialize (Hsteps k st' Hk).
        replace (i + S k)%nat with (S i + k)%nat by lia.
        destruct (Js.nonempty (visualPrompt st')); [exact Hsteps|].
        rewrite Hsteps. subst cur1. apply list_lookup_insert_ne. lia.
    + rewrite (practical_loop_skip st rest i w Hp).
      assert (Hpresent1 : forall k, (k < length rest)%nat ->
                is_Some (element cur (S i + k))).
      { intros k Hk. replace (S i + k)%nat with (i + S k)%nat by lia.
        apply Hpresent. cbn. lia. }
      destruct (IH (S i) w c cur Hdata Hproto Hpresent1)
        as (w' & cur' & tr & Hrun & Htr & Hreq & Hst & Hlen & Hout' & Hsteps).
      exists w', cur', tr. split; [exact Hrun|]. split; [exact Htr|].
      split; [rewrite Hreq; unfold step_requests; cbn [omap list_omap];
              now rewrite Hp|].
      split; [exact Hst|]. split; [exact Hlen|].
      split; [intros j Hj; apply Hout'; cbn [length] in Hj; lia|].
      intros k st' Hk. destruct k as [|k]; cbn in Hk.
      * injection Hk as <-. rewrite Hp, Nat.add_0_r. apply Hout'. lia.
      * specialize (Hsteps k st' Hk).
        now replace (i + S k)%nat with (S i + k)%nat by lia.
Qed.

(** What [initial_steps] builds: one step per entry, with its own
    prompt, pending when it has a prompt and completed when not. *)
Lemma initial_steps_spec (proto : list (option PracticalStep)) :
  forall steps, initial_steps proto = Some steps ->
    length steps = length proto /\
    forall k st, steps !! k = Some st ->
      imageStatus st =
        Some (match Js.nonempty (visualPrompt st) with
              | Some _ => Pending
              | None => Completed
              end).
Proof.
  induction proto as [|[st0|] rest IH]; intros steps Hsteps; cbn in Hsteps.
  - injection Hsteps as <-. split; [done|]. intros k st Hk. done.
  - destruct (initial_steps rest) as [rest'|]; [|done].
    injection Hsteps as <-. destruct (IH rest' eq_refl) as [Hlen Hall].
    split; [cbn; now rewrite Hlen|].
    intros [|k] st Hk; cbn in Hk.
    + injection Hk as <-. cbn. unfold produced.
      now destruct (Js.nonempty (visualPrompt st0)).
    + exact (Hall k st Hk).
  - done.
Qed.

End Practical.

(** A practical request whose text task answers with a protocol
    without holes: the handler publishes the protocol, resets the
    checked steps, lowers [loading] and leaves the image loop running;
    the loop asks for one image per step that has a visual prompt, in
    order, and ends with a protocol of the same length in which every
    step is completed or failed. *)
Theorem practical_request_completes {B : Type} `{Service B}
    (w : AppWorld B) (d : ClinicalData) (proto : list (option PracticalStep))
    (steps : list PracticalStep) (b1 : B) :
  accepts_click (state w) = true ->
  activeTab (state w) = practical ->
  produced (uploadedImage (state w)) = false ->
  generatePracticalContent (input (state w)) (service w) = (Resolved (Some d), b1) ->
  practicalProtocol d = Some proto ->
  initial_steps proto = Some steps ->
  exists w1 w2 tr c' cur',
    click w = (Resolved (Some (PracticalImages steps)), w1) /\
    loading (state w1) = false /\
    checkedPracticalSteps (state w1) = [] /\
    run_background (PracticalImages steps) w1 = (Resolved tt, w2) /\
    trace w2 = trace w ++ tr /\
    requested tr = step_requests steps /\
    practicalData (state w2) = Some c' /\
    practicalProtocol c' = Some cur' /\
    length cur' = length proto /\
    Forall settled_step cur'.
Proof.
  intros Hacc Htab Himg Hcall Hproto Hsteps. rewrite (click_started w Hacc), Htab.
  unfold try_finally, try_catch, practical_branch. rewrite Himg.
  run_app. rewrite Hcall, Hproto. cbn [from_option]. rewrite Hsteps.
  run_app. unfold finally_block. cbn [state trace service].
  match goal with
  | |- context [(Resolved (Some (PracticalImages _)), ?w0)] => set (w1 := w0)
  end.
  destruct (initial_steps_spec proto steps Hsteps) as [Hlen Hstatus].
  assert (Hdata1 : practicalData (state w1)
                   = Some (with_protocol d (Some <$> steps))) by reflexivity.
  assert (Hpresent : forall k, (k < length steps)%nat ->
            is_Some (element (Some <$> steps) (0 + k))).
  { intros k Hk. cbn [Nat.add]. unfold element. rewrite list_lookup_fmap.
    destruct (lookup_lt_is_Some_2 steps k Hk) as (st & Hst). rewrite Hst.
    now exists st. }
  destruct (practical_loop_spec steps 0 w1 _ (Some <$> steps) Hdata1 eq_refl Hpresent)
    as (w2 & cur' & tr & Hrun & Htr & Hreq & Hst & Hlen' & _ & Hall).
  exists w1, w2, tr, (with_protocol (with_protocol d (Some <$> steps)) cur'), cur'.
  split; [reflexivity|]. split; [reflexivity|]. split; [reflexivity|].
  split; [exact Hrun|]. split; [exact Htr|]. split; [exact Hreq|].
  split; [now rewrite Hst|]. split; [reflexivity|].
  rewrite length_fmap in Hlen'. split; [now rewrite Hlen', Hlen|].
  apply Forall_lookup. intros k entry Hk.
  assert (Hlt : (k < length steps)%nat)
    by (rewrite <- Hlen'; now apply lookup_lt_Some in Hk).
  destruct (lookup_lt_is_Some_2 steps k Hlt) as (st & Hst_k).
  specialize (Hall k st Hst_k). specialize (Hstatus k st Hst_k).
  cbn [Nat.add] in Hall.
  destruct (Js.nonempty (visualPrompt st)).
  - unfold element in Hall. rewrite Hk in Hall. cbn in Hall.
    destruct Hall as (st' & s' & -> & Hs & Hterm). now exists st', s'.
  - rewrite Hk, list_lookup_fmap, Hst_k in Hall. cbn in Hall.
    injection Hall as ->. now exists st, Completed.
Qed.

Lemma practical_request_completes_witness :
  exists w1 w2 tr c' cur',
    click (H := answering_service) (sample_world practical)
      = (Resolved (Some (PracticalImages
           [mkStep (Some "s1") None None None None None (Some "a") None (Some Pending);
            mkStep (Some "s2") None None None None None None None (Some Completed);
            mkStep (Some "s3") None None None None None (Some "bad") None (Some Pending)])),
         w1) /\
    loading (state w1) = false /\
    checkedPracticalSteps (state w1) = [] /\
    run_background (H := answering_service) (PracticalImages
           [mkStep (Some "s1") None None None None None (Some "a") None (Some Pending);
            mkStep (Some "s2") None None None None None None None (Some Completed);
            mkStep (Some "s3") None None None None None (Some "bad") None (Some Pending)])
      w1 = (Resolved tt, w2) /\
    trace w2 = trace (sample_world practical) ++ tr /\
    requested tr = step_requests
           [mkStep (Some "s1") None None None None None (Some "a") None (Some Pending);
            mkStep (Some "s2") None None None None None None None (Some Completed);
            mkStep (Some "s3") None None None None None (Some "bad") None (Some Pending)] /\
    practicalData (state w2) = Some c' /\
    practicalProtocol c' = Some cur' /\
    length cur' = length
          [Some (mkStep (Some "s1") None None None None None (Some "a") None None);
           Some (mkStep (Some "s2") None None None None None None None None);
           Some (mkStep (Some "s3") None None None None None (Some "bad") None None)] /\
    Forall settled_step cur'.
Proof.
  apply (practical_request_completes (H := answering_service) (sample_world practical)
           (mkClinical None
              (Some [Some (mkStep (Some "s1") None None None None None (Some "a") None None);
                     Some (mkStep (Some "s2") None None None None None None None None);
                     Some (mkStep (Some "s3") None None None None None (Some "bad") None None)])
              None None None None)
           [Some (mkStep (Some "s1") None None None None None (Some "a") None None);
            Some (mkStep (Some "s2") None None None None None None None None);
            Some (mkStep (Some "s3") None None None None None (Some "bad") None None)]
           [mkStep (Some "s1") None None None None None (Some "a") None (Some Pending);
            mkStep (Some "s2") None None None None None None None (Some Completed);
            mkStep (Some "s3") None None None None None (Some "bad") None (Some Pending)]
           1%nat).
  - reflexivity.
  - reflexivity.
  - reflexivity.
  - reflexivity.
  - reflexivity.
  - reflexivity.
Defined.

(** A quiz request whose task answers: the handler publishes the three
    question lists, an absent list as the empty one, hides every
    answer, lowers [loading], clears the input and starts no image
    request. *)
Theorem quiz_request_completes {B : Type} `{Service B}
    (w : AppWorld B) (rawData : RawQuizData) (b1 : B) :
  accepts_click (state w) = true ->
  activeTab (state w) = quiz ->
  generateQuizContent (input (state w)) (quizLanguage (state w))
    (quizCount (state w)) (quizDifficulty (state w)) (service w)
    = (Resolved (Some rawData), b1) ->
  exists st,
    click w = (Resolved None, mkAppWorld st (trace w) b1) /\
    quizData st =
      Some (mkQuiz (default [] (raw_essayQuestions rawData))
                   (default [] (raw_shortAnswerQuestions rawData))
                   (default [] (raw_mcqQuestions rawData))) /\
    (forall id, revealed st id = false) /\
    loading st = false /\
    input st = "" /\
    errorStatus st = None /\
    messages st =
      messages (state w) ++
      [user_message (state w);
       mkMessage assistant
         (QuizBankCreated (quizCount (state w)) (input (state w))
            (quizLanguage (state w)) (quizDifficulty (state w))) None].
Proof.
  intros Hacc Htab Hcall. rewrite (click_started w Hacc), Htab.
  unfold try_finally, try_catch, quiz_branch. run_app. rewrite Hcall.
  run_app. unfold finally_block. cbn [state trace service].
  eexists. split; [reflexivity|]. cbn.
  repeat split; try reflexivity. now rewrite <- app_assoc.
Qed.

Lemma quiz_request_completes_witness :
  exists st,
    click (H := answering_service) (sample_world quiz)
      = (Resolved None, mkAppWorld st (trace (sample_world quiz)) 1%nat) /\
    quizData st =
      Some (mkQuiz (default [] (raw_essayQuestions (mkRawQuiz (Some [JString "q"]) None None)))
                   (default [] (raw_shortAnswerQuestions
                                  (mkRawQuiz (Some [JString "q"]) None None)))
                   (default [] (raw_mcqQuestions (mkRawQuiz (Some [JString "q"]) None None)))) /\
    (forall id, revealed st id = false) /\
    loading st = false /\
    input st = "" /\
    errorStatus st = None /\
    messages st =
      messages (state (sample_world quiz)) ++
      [user_message (state (sample_world quiz));
       mkMessage assistant
         (QuizBankCreated (quizCount (state (sample_world quiz)))
            (input (state (sample_world quiz)))
            (quizLanguage (state (sample_world quiz)))
            (quizDifficulty (state (sample_world quiz)))) None].
Proof.
  apply (quiz_request_completes (H := answering_service) (sample_world quiz)
           (mkRawQuiz (Some [JString "q"]) None None) 1%nat).
  - reflexivity.
  - reflexivity.
  - reflexivity.
Defined.

(** An uploaded image on the simulation tab.  When the analysis
    answers with its record of compliance, the image becomes the
    picture of the simulation and is detached from the input area, and
    [loading] is lowered.  When the answer is [null] or lacks the
    record of compliance, the message updater throws and the component
    is lost.  When the analysis fails, the image stays attached, the
    simulation is unchanged, a status message is set and [loading] is
    lowered.  No image request is made in any case. *)
Theorem simulation_image_analysis {B : Type} `{Service B}
    (w : AppWorld B) (image : string) (r : Result (option ImageAnalysisResult))
    (b1 : B) :
  accepts_click (state w) = true ->
  activeTab (state w) = simulation ->
  Js.nonempty (uploadedImage (state w)) = Some image ->
  analyzeDentalImage image (service w) = (r, b1) ->
  exists st tr,
    click w = (Resolved None, mkAppWorld st (trace w ++ tr) b1) /\
    match r with
    | Resolved analysis =>
        match analysis ≫= adaCompliance with
        | Some ada =>
            tr = [] /\
            loading st = false /\
            uploadedImage st = None /\
            simulationData st =
              mkSimulation (Some (mkClinical None None None None None analysis))
                (Some image) None None /\
            errorStatus st = None /\
            exists report,
              last (messages st)
                = Some (mkMessage assistant (ConsultantReport report ada.1) None)
        | None => tr = [Unmounted]
        end
    | Rejected _ =>
        tr = [] /\
        loading st = false /\
        uploadedImage st = uploadedImage (state w) /\
        simulationData st = simulationData (state w) /\
        errorStatus st <> None
    end.
Proof.
  intros Hacc Htab Himg Hcall. rewrite (click_started w Hacc), Htab.
  unfold try_finally, try_catch, simulation_branch. rewrite Himg.
  run_app. rewrite Hcall. destruct r as [[analysis|]|e].
  - cbn [mbind option_bind]. destruct (adaCompliance analysis) as [ada|].
    + run_app. unfold finally_block. cbn [state trace service].
      eexists _, []. rewrite app_nil_r. split; [reflexivity|]. cbn.
      repeat split; try reflexivity.
      eexists. rewrite last_snoc. reflexivity.
    + run_app. unfold finally_block. cbn [state trace service].
      eexists _, [Unmounted]. split; reflexivity.
  - run_app. unfold finally_block. cbn [state trace service].
    eexists _, [Unmounted]. split; reflexivity.
  - match goal with
    | |- context [handle_error e ?w1] =>
        destruct (handle_error_flags e w1)
          as (st & -> & Hload & _ & _ & _ & Hup & Hsim & Hstatus)
    end.
    unfold finally_block. cbn [state trace service] in *.
    eexists _, []. rewrite app_nil_r. split; [reflexivity|]. cbn.
    rewrite Hup, Hsim. repeat split; try reflexivity.
    destruct Hstatus as [[-> _]|[[-> _]|(detail & -> & _)]]; discriminate.
Qed.

(** An answer without the record of compliance. *)
Lemma simulation_image_analysis_witness :
  exists st tr,
    click (H := mkService nat
                  (fun _ n => (Resolved (Some (mkAnalysis true (Some "sound") None)), S n))
                  (fun _ n => (Rejected (new_Error "backend down"), S n))
                  (fun _ n => (Rejected (new_Error "backend down"), S n))
                  (fun _ _ _ _ n => (Rejected (new_Error "backend down"), S n))
                  (fun _ n => (Rejected (new_Error "backend down"), S n))
                  (fun _ _ n => (Resolved None, S n)))
      (mkAppWorld (setUploadedImage (Some "data:image/png;base64,AAAA")
                     (sample_state simulation)) [] 0%nat)
      = (Resolved None, mkAppWorld st ([] ++ tr) 1%nat) /\
    match Resolved (Some (mkAnalysis true (Some "sound") None)) with
    | Resolved analysis =>
        match analysis ≫= adaCompliance with
        | Some ada =>
            tr = [] /\
            loading st = false /\
            uploadedImage st = None /\
            simulationData st =
              mkSimulation (Some (mkClinical None None None None None analysis))
                (Some "data:image/png;base64,AAAA") None None /\
            errorStatus st = None /\
            exists report,
              last (messages st)
                = Some (mkMessage assistant (ConsultantReport report ada.1) None)
        | None => tr = [Unmounted]
        end
    | Rejected _ =>
        tr = [] /\
        loading st = false /\
        uploadedImage st = Some "data:image/png;base64,AAAA" /\
        simulationData st = simulationData (sample_state simulation) /\
        errorStatus st <> None
    end.
Proof.
  apply (simulation_image_analysis
           (H := mkService nat
                  (fun _ n => (Resolved (Some (mkAnalysis true (Some "sound") None)), S n))
                  (fun _ n => (Rejected (new_Error "backend down"), S n))
                  (fun _ n => (Rejected (new_Error "backend down"), S n))
                  (fun _ _ _ _ n => (Rejected (new_Error "backend down"), S n))
                  (fun _ n => (Rejected (new_Error "backend down"), S n))
                  (fun _ _ n => (Resolved None, S n)))
           (mkAppWorld (setUploadedImage (Some "data:image/png;base64,AAAA")
                          (sample_state simulation)) [] 0%nat)
           "data:image/png;base64,AAAA"
           (Resolved (Some (mkAnalysis true (Some "sound") None))) 1%nat).
  - reflexivity.
  - reflexivity.
  - reflexivity.
  - reflexivity.
Defined.

(** ** The small handlers *)

(** [toggleAnswer] flips what is shown for its question and for no
    other, so toggling twice restores every answer. *)
Theorem toggleAnswer_flips (id other : string) (s : AppState) :
  revealed (toggleAnswer id s) other =
    (if String.eqb other id then negb (revealed s id) else revealed s other) /\
  revealed (toggleAnswer id (toggleAnswer id s)) other = revealed s other.
Proof.
  assert (Hone : forall s' o,
            revealed (toggleAnswer id s') o =
              (if String.eqb o id then negb (revealed s' id) else revealed s' o)).
  { intros s' o. unfold revealed, toggleAnswer. cbn [revealedAnswers updateRevealedAnswers].
    destruct (String.eqb_spec o id) as [->|Hne].
    - now rewrite lookup_insert_eq.
    - now rewrite lookup_insert_ne. }
  split; [apply Hone|].
  rewrite !Hone. destruct (String.eqb_spec other id) as [->|Hne].
  - rewrite String.eqb_refl. apply negb_involutive.
  - reflexivity.
Qed.

(** The count field only ever stores a number from 1 to 10, and a
    number it stored is stored unchanged again. *)
Theorem quiz_count_in_range (parsed : option Z) (s : AppState) :
  (1 <= quizCount (onQuizCountChange parsed s) <= 10)%Z /\
  quiz_count_of (Some (quiz_count_of parsed)) = quiz_count_of parsed.
Proof.
  assert (Hrange : (1 <= quiz_count_of parsed <= 10)%Z).
  { unfold quiz_count_of. destruct parsed as [k|]; [destruct (k =? 0)%Z|]; lia. }
  split; [exact Hrange|].
  unfold quiz_count_of at 1.
  destruct (Z.eqb_spec (quiz_count_of parsed) 0); lia.
Qed.

(** ** The background loops *)


(** ** Quota errors as the user sees them *)

(** An error after which the fallback takes its long cooldown is one
    the handler reports as a passing condition: when the primary task
    rejects with it, the status asks to try again shortly and the
    credential flag is not raised. *)
Theorem quota_rejection_asks_to_retry {B : Type} `{Service B}
    (w : AppWorld B) (e : JsError) (b' : B) :
  accepts_click (state w) = true ->
  primary_rejects (state w) (service w) e b' ->
  fallback_isQuota e = true ->
  exists st,
    click w = (Resolved None, mkAppWorld st (trace w) b') /\
    errorStatus st = Some TryAgainShortly /\
    apiKeyMissing st = false.
Proof.
  intros Hacc Hrej Hquota. rewrite (click_primary_failure w e b' Hacc Hrej).
  unfold fallback_isQuota in Hquota.
  destruct (message_of e) as [m|] eqn:Hm; [|done].
  assert (Hmsg : Js.nonempty (Some m) = Some m).
  { unfold Js.nonempty. destruct (String.eqb_spec m "") as [->|_]; [|done].
    now vm_compute in Hquota. }
  unfold handle_error. rewrite Hm, Hmsg. cbv beta iota.
  rewrite orb_comm, Hquota. run_app.
  unfold finally_block. cbn [snd state trace service].
  eexists. split; [reflexivity|].
  unfold accepts_click in Hacc. apply andb_prop in Hacc as [Hkey _].
  apply negb_true_iff in Hkey. unfold before_primary.
  destruct (activeTab (state w)); cbn; rewrite ?Hkey; split; reflexivity.
Qed.

Lemma quota_rejection_asks_to_retry_witness :
  exists st,
    click (H := mkService nat
                  (fun _ n => (Rejected (new_Error "Quota exceeded"), S n))
                  (fun _ n => (Rejected (new_Error "Quota exceeded"), S n))
                  (fun _ n => (Rejected (new_Error "Quota exceeded"), S n))
                  (fun _ _ _ _ n => (Rejected (new_Error "Quota exceeded"), S n))
                  (fun _ n => (Rejected (new_Error "Quota exceeded"), S n))
                  (fun _ _ n => (Resolved None, S n)))
      (sample_world simulation)
      = (Resolved None, mkAppWorld st (trace (sample_world simulation)) 1%nat) /\
    errorStatus st = Some TryAgainShortly /\
    apiKeyMissing st = false.
Proof.
  apply (quota_rejection_asks_to_retry
           (H := mkService nat
                  (fun _ n => (Rejected (new_Error "Quota exceeded"), S n))
                  (fun _ n => (Rejected (new_Error "Quota exceeded"), S n))
                  (fun _ n => (Rejected (new_Error "Quota exceeded"), S n))
                  (fun _ _ _ _ n => (Rejected (new_Error "Quota exceeded"), S n))
                  (fun _ n => (Rejected (new_Error "Quota exceeded"), S n))
                  (fun _ _ n => (Resolved None, S n)))
           (sample_world simulation) (new_Error "Quota exceeded") 1%nat).
  - reflexivity.
  - reflexivity.
  - reflexivity.
Defined.

End HandlerProperties.
